(** * The code-correction endpoint: handler and response normalisation

    A shallow embedding of the route handler [POST] of the code-correction
    endpoint (the request handler, the prompt builder and the response
    normaliser), of the JavaScript string operations it calls and of
    [JSON.parse], and of [correctCode], the function of the page that calls
    the endpoint, followed by the properties of the handler and of the
    page. *)

From Stdlib Require Import String Ascii DecimalString List NArith ZArith Lia Bool.
Import ListNotations.

Local Open Scope N_scope.
Set Warnings "-register-all".

(* ===================================================================== *)
(** * JavaScript strings *)
(* ===================================================================== *)

(** A JavaScript string is a sequence of UTF-16 code units. *)
Definition jsstring : Type := list N.

(** The code unit of an ASCII character, and the string of an ASCII
    literal. *)
Definition code (a : ascii) : N := N_of_ascii a.
Arguments code a%_char.

Definition lit (s : string) : jsstring :=
  List.map N_of_ascii (list_ascii_of_string s).
Arguments lit s%_string.

Definition LF : N := 10.
Definition DQUOTE : N := 34.
Definition BACKSLASH : N := 92.

(** An ASCII literal between double quotes. *)
Definition quoted (s : string) : jsstring := DQUOTE :: lit s ++ [DQUOTE].
Arguments quoted s%_string.

(** Lines joined by line feeds, for the multi-line template literal. *)
Fixpoint unlines (ls : list jsstring) : jsstring :=
  match ls with
  | [] => []
  | [l] => l
  | l :: ls' => l ++ LF :: unlines ls'
  end.

Definition jsstring_eqb (a b : jsstring) : bool :=
  if list_eq_dec N.eq_dec a b then true else false.

(** White space and line terminators: the code units removed by
    [String.prototype.trim] and matched by the class [\s] of a regular
    expression. *)
Definition is_white_space (c : N) : bool :=
  (c =? 9) || (c =? 10) || (c =? 11) || (c =? 12) || (c =? 13) || (c =? 32)
  || (c =? 160) || (c =? 5760) || ((8192 <=? c) && (c <=? 8202))
  || (c =? 8232) || (c =? 8233) || (c =? 8239) || (c =? 8287)
  || (c =? 12288) || (c =? 65279).

Fixpoint trimStart (s : jsstring) : jsstring :=
  match s with
  | c :: s' => if is_white_space c then trimStart s' else s
  | [] => []
  end.

Fixpoint trimEnd (s : jsstring) : jsstring :=
  match s with
  | [] => []
  | c :: s' =>
      match trimEnd s' with
      | [] => if is_white_space c then [] else [c]
      | t => c :: t
      end
  end.

(** [s.trim()] *)
Definition trim (s : jsstring) : jsstring := trimEnd (trimStart s).

(** [s.startsWith(p)] *)
Fixpoint startsWith (p s : jsstring) : bool :=
  match p, s with
  | [], _ => true
  | _ :: _, [] => false
  | a :: p', b :: s' => (a =? b) && startsWith p' s'
  end.

(** [s.endsWith(p)] *)
Definition endsWith (p s : jsstring) : bool :=
  startsWith (rev p) (rev s).

(** [s.includes(sub)] *)
Fixpoint includes (sub s : jsstring) : bool :=
  startsWith sub s
  || match s with
     | [] => false
     | _ :: s' => includes sub s'
     end.

(** [s.substring(0, n)] *)
Definition substring0 (n : nat) (s : jsstring) : jsstring := firstn n s.

(** [s.replace(/\n/g, r)]: every line feed is replaced by [r]. *)
Definition replace_all_LF (r s : jsstring) : jsstring :=
  flat_map (fun c => if c =? LF then r else [c]) s.

(** [s.replace(/^marker\s*/, '')] for a literal [marker]: a leading
    [marker] is removed together with the white space that follows it. *)
Definition replace_leading (marker s : jsstring) : jsstring :=
  if startsWith marker s then trimStart (skipn (length marker) s) else s.

(** [s.replace(/\s*```$/, '')]: the pattern matches only when [s] ends
    with three backticks, and its leftmost match starts at the run of
    white space before them. *)
Definition replace_trailing_fence (s : jsstring) : jsstring :=
  if endsWith (lit "```") s
  then trimEnd (firstn (length s - 3) s)
  else s.

(** The suffix of [s] that starts at the first occurrence of [c]. *)
Fixpoint from_first (c : N) (s : jsstring) : jsstring :=
  match s with
  | [] => []
  | x :: s' => if x =? c then s else from_first c s'
  end.

(** The prefix of [s] that ends at the last occurrence of [c]. *)
Fixpoint upto_last (c : N) (s : jsstring) : jsstring :=
  match s with
  | [] => []
  | x :: s' =>
      match upto_last c s' with
      | [] => if x =? c then [x] else []
      | t => x :: t
      end
  end.

(** [s.match(/\{[\s\S]*\}/)]: the leftmost match starts at the first
    opening brace and, the star being greedy over every code unit, ends at
    the last closing brace after it. The result is element 0 of the match,
    or [None] for a null match. *)
Definition match_braces (s : jsstring) : option jsstring :=
  match from_first (code "{") s with
  | [] => None
  | b :: after =>
      match upto_last (code "}") after with
      | [] => None
      | t => Some (b :: t)
      end
  end.

(* ===================================================================== *)
(** * JavaScript values *)
(* ===================================================================== *)

(** A number read from a decimal literal, kept exactly: it denotes
    [(-1)^negative * mantissa * 10^exp10] before rounding to a double. *)
Record number : Type := mkNumber {
  negative : bool;
  mantissa : N;
  exp10 : Z
}.

Inductive value : Type :=
| JUndefined
| JNull
| JBool (b : bool)
| JNumber (n : number)
| JString (s : jsstring)
| JArray (elems : list value)
| JObject (props : list (jsstring * value)).

(** A decimal rounds to the double zero exactly when it is zero or at most
    half the least subnormal, [2^-1075] (the tie rounds to even, which is
    zero). *)
Definition number_is_zero (n : number) : bool :=
  (mantissa n =? 0)
  || ((exp10 n <? 0)%Z
      && (Z.of_N (mantissa n) * 2 ^ 1075 <=? 10 ^ (- exp10 n))%Z).

(** A decimal rounds to an infinite double exactly when its magnitude is at
    least [2^1024 - 2^970], half way between the largest finite double and
    [2^1024] (the tie rounds to even, which is [2^1024]). *)
Definition number_is_finite (n : number) : bool :=
  negb (if (0 <=? exp10 n)%Z
        then (2 ^ 1024 - 2 ^ 970 <=? Z.of_N (mantissa n) * 10 ^ exp10 n)%Z
        else ((2 ^ 1024 - 2 ^ 970) * 10 ^ (- exp10 n)
              <=? Z.of_N (mantissa n))%Z).

(** [ToBoolean]: the truthiness tested by [!], [||] and [? :]. *)
Definition ToBoolean (v : value) : bool :=
  match v with
  | JUndefined | JNull => false
  | JBool b => b
  | JNumber n => negb (number_is_zero n)
  | JString s => match s with [] => false | _ => true end
  | JArray _ | JObject _ => true
  end.

(** [a || b] on values. *)
Definition js_or (a b : value) : value := if ToBoolean a then a else b.

(** [Array.isArray(v)] *)
Definition isArray (v : value) : bool :=
  match v with JArray _ => true | _ => false end.

(** Own properties of an object, in insertion order; defining a property
    that exists replaces its value in place. *)
Fixpoint obj_set (k : jsstring) (v : value) (o : list (jsstring * value))
  : list (jsstring * value) :=
  match o with
  | [] => [(k, v)]
  | (k', v') :: o' =>
      if jsstring_eqb k k' then (k, v) :: o' else (k', v') :: obj_set k v o'
  end.

Fixpoint obj_get (k : jsstring) (o : list (jsstring * value)) : value :=
  match o with
  | [] => JUndefined
  | (k', v) :: o' => if jsstring_eqb k k' then v else obj_get k o'
  end.

(** Reading a property of a value: [None] stands for the [TypeError] that
    reading from [null] or [undefined] throws. An object yields its own
    property; the property names read by the handler exist on no built-in
    prototype, so every other value yields [undefined]. *)
Definition Get (v : value) (k : jsstring) : option value :=
  match v with
  | JUndefined | JNull => None
  | JObject o => Some (obj_get k o)
  | _ => Some JUndefined
  end.

(* ===================================================================== *)
(** * JSON.parse *)
(* ===================================================================== *)

(** The result of a parsing function: a value and the unread input, a
    syntax error, or recursion budget used up. *)
Inductive parsed (A : Type) : Type :=
| Parsed (a : A) (rest : jsstring)
| Invalid
| Exhausted.
Arguments Parsed {A} a rest.
Arguments Invalid {A}.
Arguments Exhausted {A}.

Definition parsed_map {A B : Type} (f : A -> B) (p : parsed A) : parsed B :=
  match p with
  | Parsed a rest => Parsed (f a) rest
  | Invalid => Invalid
  | Exhausted => Exhausted
  end.

(** JSON white space: tab, line feed, carriage return and space. *)
Definition is_json_ws (c : N) : bool :=
  (c =? 9) || (c =? 10) || (c =? 13) || (c =? 32).

Fixpoint skip_ws (s : jsstring) : jsstring :=
  match s with
  | c :: s' => if is_json_ws c then skip_ws s' else s
  | [] => []
  end.

Definition is_digit (c : N) : bool := (48 <=? c) && (c <=? 57).

Definition digit_value (c : N) : N := c - 48.

Definition hex_value (c : N) : option N :=
  if is_digit c then Some (c - 48)
  else if (97 <=? c) && (c <=? 102) then Some (c - 87)
  else if (65 <=? c) && (c <=? 70) then Some (c - 55)
  else None.

(** A maximal run of digits, read onto the number [acc]; [count] counts
    them. *)
Fixpoint read_digits (s : jsstring) (acc : N) (count : Z)
  : N * Z * jsstring :=
  match s with
  | c :: s' =>
      if is_digit c
      then read_digits s' (10 * acc + digit_value c) (count + 1)%Z
      else (acc, count, s)
  | [] => (acc, count, [])
  end.

(** The digits of an exponent, after [e] and its optional sign. *)
Definition parse_exponent_digits (neg : bool) (m : N) (fracLen : Z)
    (eneg : bool) (s : jsstring) : option (number * jsstring) :=
  match s with
  | d :: _ =>
      if is_digit d then
        let '(ev, _, rest) := read_digits s 0 0%Z in
        let e10 := if eneg then (- Z.of_N ev)%Z else Z.of_N ev in
        Some (mkNumber neg m (e10 - fracLen)%Z, rest)
      else None
  | [] => None
  end.

(** The optional exponent part: [e] or [E], an optional sign, digits. *)
Definition parse_exponent (neg : bool) (m : N) (fracLen : Z) (s : jsstring)
  : option (number * jsstring) :=
  match s with
  | e :: s1 =>
      if (e =? code "e") || (e =? code "E") then
        match s1 with
        | c :: r =>
            if c =? code "-" then parse_exponent_digits neg m fracLen true r
            else if c =? code "+"
            then parse_exponent_digits neg m fracLen false r
            else parse_exponent_digits neg m fracLen false s1
        | [] => None
        end
      else Some (mkNumber neg m (- fracLen)%Z, s)
  | [] => Some (mkNumber neg m (- fracLen)%Z, [])
  end.

(** The optional fraction part: a point and at least one digit. *)
Definition parse_fraction (neg : bool) (m : N) (s : jsstring)
  : option (number * jsstring) :=
  match s with
  | p :: s1 =>
      if p =? code "." then
        match s1 with
        | d :: _ =>
            if is_digit d then
              let '(m', k, rest) := read_digits s1 m 0%Z in
              parse_exponent neg m' k rest
            else None
        | [] => None
        end
      else parse_exponent neg m 0%Z s
  | [] => parse_exponent neg m 0%Z s
  end.

(** The integer part: a lone zero, or a run of digits that does not start
    with zero. *)
Definition parse_integer (neg : bool) (s : jsstring)
  : option (number * jsstring) :=
  match s with
  | d :: r =>
      if d =? code "0" then parse_fraction neg 0 r
      else if is_digit d then
        let '(m, _, rest) := read_digits s 0 0%Z in
        parse_fraction neg m rest
      else None
  | [] => None
  end.

(** A number: an optional minus sign, the integer part, then fraction and
    exponent. *)
Definition parse_number (s : jsstring) : option (number * jsstring) :=
  match s with
  | c :: r =>
      if c =? code "-" then parse_integer true r else parse_integer false s
  | [] => None
  end.
Arguments parse_number s : simpl never.

(** The character denoted by a one-letter escape. *)
Definition unescape (e : N) : option N :=
  if e =? DQUOTE then Some DQUOTE
  else if e =? BACKSLASH then Some BACKSLASH
  else if e =? code "/" then Some (code "/")
  else if e =? code "b" then Some 8
  else if e =? code "f" then Some 12
  else if e =? code "n" then Some 10
  else if e =? code "r" then Some 13
  else if e =? code "t" then Some 9
  else None.

(** The characters of a string literal after its opening quote, up to the
    closing quote: control characters are refused, escapes are decoded. *)
Fixpoint parse_string_chars (s : jsstring) : option (jsstring * jsstring) :=
  match s with
  | [] => None
  | c :: s1 =>
      if c =? DQUOTE then Some ([], s1)
      else if c =? BACKSLASH then
        match s1 with
        | [] => None
        | e :: s2 =>
            if e =? code "u" then
              match s2 with
              | h1 :: h2 :: h3 :: h4 :: s3 =>
                  match hex_value h1, hex_value h2,
                        hex_value h3, hex_value h4 with
                  | Some a, Some b, Some c', Some d =>
                      match parse_string_chars s3 with
                      | Some (str, rest) =>
                          Some (((a * 16 + b) * 16 + c') * 16 + d :: str, rest)
                      | None => None
                      end
                  | _, _, _, _ => None
                  end
              | _ => None
              end
            else
              match unescape e with
              | Some u =>
                  match parse_string_chars s2 with
                  | Some (str, rest) => Some (u :: str, rest)
                  | None => None
                  end
              | None => None
              end
        end
      else if c <? 32 then None
      else
        match parse_string_chars s1 with
        | Some (str, rest) => Some (c :: str, rest)
        | None => None
        end
  end.

(** The literals [true], [false] and [null]. *)
Definition parse_literal (s : jsstring) : option (value * jsstring) :=
  if startsWith (lit "true") s then Some (JBool true, skipn 4 s)
  else if startsWith (lit "false") s then Some (JBool false, skipn 5 s)
  else if startsWith (lit "null") s then Some (JNull, skipn 4 s)
  else None.
Arguments parse_literal s : simpl never.

(** Recursive descent over the JSON grammar. [fuel] bounds the recursion;
    [JSON_parse] below supplies enough of it for its whole input. *)
Fixpoint parse_value (fuel : nat) (s : jsstring) {struct fuel}
  : parsed value :=
  match fuel with
  | O => Exhausted
  | S n =>
      match skip_ws s with
      | [] => Invalid
      | c :: r =>
          if c =? code "{" then
            match skip_ws r with
            | c' :: r' =>
                if c' =? code "}" then Parsed (JObject []) r'
                else parsed_map JObject (parse_members n (c' :: r') [])
            | [] => Invalid
            end
          else if c =? code "[" then
            match skip_ws r with
            | c' :: r' =>
                if c' =? code "]" then Parsed (JArray []) r'
                else parsed_map JArray (parse_elements n (c' :: r'))
            | [] => Invalid
            end
          else if c =? DQUOTE then
            match parse_string_chars r with
            | Some (str, rest) => Parsed (JString str) rest
            | None => Invalid
            end
          else if (c =? code "-") || is_digit c then
            match parse_number (c :: r) with
            | Some (num, rest) => Parsed (JNumber num) rest
            | None => Invalid
            end
          else
            match parse_literal (c :: r) with
            | Some (v, rest) => Parsed v rest
            | None => Invalid
            end
      end
  end

(** The elements of a non-empty array, after its opening bracket. *)
with parse_elements (fuel : nat) (s : jsstring) {struct fuel}
  : parsed (list value) :=
  match fuel with
  | O => Exhausted
  | S n =>
      match parse_value n s with
      | Parsed v r =>
          match skip_ws r with
          | c :: r' =>
              if c =? code "," then
                parsed_map (cons v) (parse_elements n r')
              else if c =? code "]" then Parsed [v] r'
              else Invalid
          | [] => Invalid
          end
      | Invalid => Invalid
      | Exhausted => Exhausted
      end
  end

(** The members of a non-empty object, after its opening brace; [acc]
    holds the properties defined so far. *)
with parse_members (fuel : nat) (s : jsstring)
       (acc : list (jsstring * value)) {struct fuel}
  : parsed (list (jsstring * value)) :=
  match fuel with
  | O => Exhausted
  | S n =>
      match skip_ws s with
      | q :: r =>
          if q =? DQUOTE then
            match parse_string_chars r with
            | Some (k, r1) =>
                match skip_ws r1 with
                | colon :: r2 =>
                    if colon =? code ":" then
                      match parse_value n r2 with
                      | Parsed v r3 =>
                          match skip_ws r3 with
                          | c :: r4 =>
                              if c =? code ","
                              then parse_members n r4 (obj_set k v acc)
                              else if c =? code "}"
                              then Parsed (obj_set k v acc) r4
                              else Invalid
                          | [] => Invalid
                          end
                      | Invalid => Invalid
                      | Exhausted => Exhausted
                      end
                    else Invalid
                | [] => Invalid
                end
            | None => Invalid
            end
          else Invalid
      | [] => Invalid
      end
  end.

(** [JSON.parse(text)]: one value, with white space allowed around it;
    [None] stands for the [SyntaxError] thrown on any other text. *)
Definition JSON_parse (text : jsstring) : option value :=
  match parse_value (S (2 * length text)) text with
  | Parsed v rest =>
      match skip_ws rest with
      | [] => Some v
      | _ :: _ => None
      end
  | Invalid | Exhausted => None
  end.

(* ===================================================================== *)
(** * Effects: exceptions and the trace of observable actions *)
(* ===================================================================== *)

(** What a [throw] carries: an instance of [Error] with its name and
    message, or any other value. *)
Inductive thrown : Type :=
| Error (name message : jsstring)
| NotAnError (v : value).

(** The places of the handler where the runtime itself raises a
    [TypeError]. *)
Inductive TypeErrorSite : Type :=
| DestructureNull     (* the body destructured is null *)
| TrimNotCallable     (* code.trim() on a value that is not a string *)
| TemplateConversion  (* an object with no callable toString in a template *)
| ReadOfNull.         (* parsedResponse.correctedCode on null *)

(** What the source leaves to the JavaScript runtime: the wording of the
    errors it raises and the decimal rendering of a double. *)
Record Runtime : Type := {
  syntaxErrorMessage : jsstring -> jsstring;
  typeErrorMessage : TypeErrorSite -> jsstring;
  numberToString : number -> jsstring
}.

(** The request sent to the completion provider. *)
Record ChatMessage : Type := { role : jsstring; content : jsstring }.

Record ChatRequest : Type := {
  messages : list ChatMessage;
  model : jsstring;
  temperature : number;
  max_tokens : N;
  top_p : N;
  stream : bool
}.

(** The reply of the provider, as far as the handler reads it:
    [choices[0]?.message?.content]. *)
Record ReplyMessage : Type := { reply_content : option jsstring }.
Record Choice : Type := { message : option ReplyMessage }.
Record ChatCompletion : Type := { choices : list Choice }.

Inductive logged : Type :=
| LogString (s : jsstring)
| LogValue (v : value)
| LogThrown (e : thrown).

Inductive event : Type :=
| ProviderCall (r : ChatRequest)
| ConsoleLog (args : list logged)
| ConsoleError (args : list logged).

Inductive outcome (A : Type) : Type :=
| Returned (a : A)
| Thrown (e : thrown).
Arguments Returned {A} a.
Arguments Thrown {A} e.

(** A computation ends by returning or throwing, and leaves a trace. *)
Definition M (A : Type) : Type := outcome A * list event.

Definition ret {A : Type} (a : A) : M A := (Returned a, []).

Definition throw {A : Type} (e : thrown) : M A := (Thrown e, []).

Definition emit (e : event) : M unit := (Returned tt, [e]).

Definition bind {A B : Type} (m : M A) (k : A -> M B) : M B :=
  match m with
  | (Returned a, t) => let (r, t') := k a in (r, t ++ t')
  | (Thrown e, t) => (Thrown e, t)
  end.

Declare Scope js_scope.
Delimit Scope js_scope with js.
Notation "x <- m ;; k" := (bind m (fun x => k))
  (at level 61, m at next level, right associativity) : js_scope.
Notation "m ;; k" := (bind m (fun _ => k))
  (at level 61, right associativity) : js_scope.
Local Open Scope js_scope.

(** What the environment supplies: the completion provider, for a call
    that settles: it returns a completion or throws. The handler awaits
    the call without a timeout; a call that never settles, after which the
    handler never answers, has no value here. *)
Definition Provider : Type := ChatRequest -> outcome ChatCompletion.

Definition call_provider (provider : Provider) (r : ChatRequest)
  : M ChatCompletion :=
  (provider r, [ProviderCall r]).

Definition console_log (args : list logged) : M unit :=
  emit (ConsoleLog args).

Definition console_error (args : list logged) : M unit :=
  emit (ConsoleError args).

(* ===================================================================== *)
(** * The route handler *)
(* ===================================================================== *)

Record ProcessEnv : Type := { GROQ_API_KEY : option jsstring }.

Record Response : Type := { status : N; body : value }.

(** [NextResponse.json(body, { status })]; the status defaults to 200. The
    body kept here is the value handed to [NextResponse.json]; what is sent
    is the text that [JSON.stringify] writes for it, which denotes
    [served body]. *)
Definition NextResponse_json (b : value) (init : option N) : Response :=
  {| status := match init with Some st => st | None => 200 end;
     body := b |}.

(** What [JSON.stringify] writes for a value, as the value that its text
    denotes, [JSON.parse(JSON.stringify(v))]: a number that is not finite
    is written [null] and a zero is written [0], without its sign; an
    [undefined] element of an array is written [null], and a property
    whose value is [undefined] is not written. Every other number is
    written with digits that denote the same double, and stands for itself
    here; the members of an object keep the order they have in the
    model. *)
Fixpoint served (v : value) : value :=
  match v with
  | JNumber n =>
      if number_is_zero n then JNumber (mkNumber false 0 0)
      else if number_is_finite n then JNumber n
      else JNull
  | JArray elems =>
      JArray (List.map (fun x => match x with
                                 | JUndefined => JNull
                                 | _ => served x
                                 end) elems)
  | JObject props =>
      JObject (flat_map (fun kv : jsstring * value =>
                           let (k, x) := kv in
                           match x with
                           | JUndefined => []
                           | _ => [(k, served x)]
                           end) props)
  | JUndefined | JNull | JBool _ | JString _ => v
  end.

Definition served_element (x : value) : value :=
  match x with
  | JUndefined => JNull
  | _ => served x
  end.

Definition GROQ_MODELS_FAST : jsstring := lit "llama3-8b-8192".
Definition GROQ_MODELS_BALANCED : jsstring := lit "llama3-70b-8192".
Definition GROQ_MODELS_ADVANCED : jsstring := lit "mixtral-8x7b-32768".
Definition DEFAULT_MODEL : jsstring := GROQ_MODELS_BALANCED.

Definition explanation_fallback : jsstring :=
  lit "Groq provided feedback but in an unexpected format. The raw response is shown as comments in the corrected code section above your original code.".

Definition issues_fallback : list value :=
  [ JString (lit "JSON parsing failed - Groq returned non-JSON format");
    JString (lit "Check the raw response in the corrected code section");
    JString (lit "Try submitting the code again for a properly formatted response") ].

Definition explanation_missing : jsstring :=
  lit "Groq response was missing the corrected code. Please try again.".

Definition issues_missing : list value :=
  [ JString (lit "Invalid API response format");
    JString (lit "Missing corrected code field") ].

Definition explanation_default : jsstring :=
  lit "Code has been analyzed and corrections have been applied.".

Definition issues_default : list value :=
  [ JString (lit "Code analysis completed") ].

(** The body of a success response, an object literal with the three
    fields of a [CorrectionResponse]. *)
Definition CorrectionResponse (correctedCode explanation issues : value)
  : value :=
  JObject [ (lit "correctedCode", correctedCode);
            (lit "explanation", explanation);
            (lit "issues", issues) ].

(** The corrected code of the fallback: the raw reply as comment lines,
    then the original code. *)
Definition fallback_code (responseText code : jsstring) : jsstring :=
  lit "// Groq response (parsing failed):" ++ LF :: lit "// "
  ++ replace_all_LF (LF :: lit "// ") responseText
  ++ LF :: LF :: lit "// Original code:" ++ LF :: code.

(** The clean-up of the reply before it is parsed: trimming, removal of a
    markdown fence, and extraction of the text between the first opening
    and the last closing brace. *)
Definition strip_fence (jsonString : jsstring) : jsstring :=
  if startsWith (lit "```json") jsonString then
    replace_trailing_fence (replace_leading (lit "```json") jsonString)
  else if startsWith (lit "```") jsonString then
    replace_trailing_fence (replace_leading (lit "```") jsonString)
  else jsonString.

Definition extract_json (responseText : jsstring) : jsstring :=
  let jsonString := strip_fence (trim responseText) in
  match match_braces jsonString with
  | Some m => m
  | None => jsonString
  end.

(** The errors of the catch block. *)
Definition error_response (st : N) (msg : string) : Response :=
  NextResponse_json (JObject [(lit "error", JString (lit msg))]) (Some st).

Definition generic_error (details : jsstring) : Response :=
  NextResponse_json
    (JObject [ (lit "error",
                JString (lit "Failed to analyze code with Groq API. Please try again."));
               (lit "details", JString details) ])
    (Some 500).

(** The catch block: the response chosen from the message of the error. *)
Definition classify (error : thrown) : Response :=
  match error with
  | Error _ msg =>
      if includes (lit "API key") msg
         || includes (lit "authentication") msg
         || includes (lit "unauthorized") msg
      then error_response 401
             "Invalid Groq API key. Please check your GROQ_API_KEY in environment variables."
      else if includes (lit "rate limit") msg
              || includes (lit "quota") msg
              || includes (lit "limit exceeded") msg
      then error_response 429
             "Groq API rate limit exceeded. Please try again in a moment."
      else if includes (lit "timeout") msg || includes (lit "network") msg
      then error_response 504
             "Network timeout. Please check your connection and try again."
      else if includes (lit "JSON") msg || includes (lit "parse") msg
      then error_response 500
             "Groq returned an invalid response format. Please try again."
      else generic_error msg
  | NotAnError _ => generic_error (lit "Unknown error occurred")
  end.

Definition POST_catch (error : thrown) : M Response :=
  console_error [LogString (lit "Groq API Error:"); LogThrown error] ;;
  ret (classify error).

(** [try { body } catch (error) { handler }] *)
Definition try_catch {A : Type} (m : M A) (handler : thrown -> M A) : M A :=
  match m with
  | (Returned a, t) => (Returned a, t)
  | (Thrown e, t) => let (r, t') := handler e in (r, t ++ t')
  end.

(** [process.env.GROQ_API_KEY] is truthy when set to a non-empty string. *)
Definition env_value (v : option jsstring) : value :=
  match v with
  | Some s => JString s
  | None => JUndefined
  end.

(** The body of a request or of a response is text, the bytes received
    read as UTF-8; [json()] leaves out the byte order mark that may start
    the text, and parses the rest. *)
Definition BOM : N := 65279.

Definition without_BOM (text : jsstring) : jsstring :=
  match text with
  | c :: s => if c =? BOM then s else text
  | [] => []
  end.

Section Handler.

Variable rt : Runtime.

Definition type_error {A : Type} (site : TypeErrorSite) : M A :=
  throw (Error (lit "TypeError") (typeErrorMessage rt site)).

Definition syntax_error (text : jsstring) : thrown :=
  Error (lit "SyntaxError") (syntaxErrorMessage rt text).

(** [ToString] of a value placed in a template literal. An array is joined
    with commas, [null] and [undefined] elements being empty. An object is
    rendered by the inherited [toString], unless it has an own [toString]
    property: that one, coming from JSON, is not callable, and the
    conversion throws. *)
Fixpoint ToString (v : value) : option jsstring :=
  match v with
  | JUndefined => Some (lit "undefined")
  | JNull => Some (lit "null")
  | JBool true => Some (lit "true")
  | JBool false => Some (lit "false")
  | JNumber n => Some (numberToString rt n)
  | JString s => Some s
  | JArray elems =>
      (fix join (l : list value) : option jsstring :=
         let element (x : value) : option jsstring :=
           match x with
           | JUndefined | JNull => Some []
           | _ => ToString x
           end in
         match l with
         | [] => Some []
         | [x] => element x
         | x :: l' =>
             match element x, join l' with
             | Some a, Some b => Some (a ++ code "," :: b)
             | _, _ => None
             end
         end) elems
  | JObject o =>
      match obj_get (lit "toString") o with
      | JUndefined => Some (lit "[object Object]")
      | _ => None
      end
  end.

Definition template (v : value) : M jsstring :=
  match ToString v with
  | Some s => ret s
  | None => type_error TemplateConversion
  end.

(** [await request.json()] on a request whose body is [text]: the text
    parsed, and the text blamed by the [SyntaxError], is the body without
    its byte order mark. *)
Definition request_json (text : jsstring) : M value :=
  match JSON_parse (without_BOM text) with
  | Some v => ret v
  | None => throw (syntax_error (without_BOM text))
  end.

Definition get_or_throw (site : TypeErrorSite) (v : value) (k : string)
  : M value :=
  match Get v (lit k) with
  | Some x => ret x
  | None => type_error site
  end.

(** [!code || !code.trim()]: [None] when the test holds, the code when it
    does not. A truthy value that is not a string has no [trim] method, and
    calling it throws. *)
Definition validate_code (code : value) : M (option jsstring) :=
  if negb (ToBoolean code) then ret None
  else
    match code with
    | JString s =>
        if negb (ToBoolean (JString (trim s))) then ret None
        else ret (Some s)
    | _ => type_error TrimNotCallable
    end.

(** The prompt of the template literal. *)
Definition build_prompt (code : jsstring) (language description : value)
  : M jsstring :=
  language1 <- template language ;;
  context <- (if ToBoolean description
              then d <- template description ;; ret (lit "Context: " ++ d)
              else ret []) ;;
  language2 <- template language ;;
  ret (unlines
    [ lit "You are an expert " ++ language1
      ++ lit " developer and code reviewer. Analyze and fix this code. Respond with ONLY valid JSON in this exact format:";
      [];
      lit "{";
      lit "  " ++ quoted "correctedCode" ++ lit ": "
      ++ quoted "the complete fixed code here" ++ lit ",";
      lit "  " ++ quoted "explanation" ++ lit ": "
      ++ quoted "detailed explanation of what was wrong and what you changed"
      ++ lit ",";
      lit "  " ++ quoted "issues" ++ lit ": ["
      ++ quoted "specific issue 1 that was found and fixed" ++ lit ", "
      ++ quoted "specific issue 2" ++ lit ", "
      ++ quoted "specific issue 3" ++ lit "]";
      lit "}";
      [];
      context;
      [];
      lit "Code to analyze and fix:";
      lit "```" ++ language2;
      code;
      lit "```";
      [];
      lit "Focus on:";
      lit "1. Syntax errors and bugs";
      lit "2. Logic errors and potential runtime issues";
      lit "3. Best practices and code quality improvements";
      lit "4. Performance optimizations";
      lit "5. Security vulnerabilities";
      [];
      lit "Provide the corrected code even if no major issues are found - you can still improve formatting, add comments, or optimize the code.";
      [];
      lit "IMPORTANT: Return ONLY the JSON object, no other text, no markdown formatting, no explanations outside the JSON." ]).

Definition chat_request (prompt : jsstring) : ChatRequest :=
  {| messages := [ {| role := lit "user"; content := prompt |} ];
     model := DEFAULT_MODEL;
     temperature := mkNumber false 1 (-1);
     max_tokens := 4000;
     top_p := 1;
     stream := false |}.

(** [chatCompletion.choices[0]?.message?.content || ''] *)
Definition responseText_of (chatCompletion : ChatCompletion) : jsstring :=
  match choices chatCompletion with
  | c :: _ =>
      match message c with
      | Some m =>
          match reply_content m with
          | Some s => s
          | None => []
          end
      | None => []
      end
  | [] => []
  end.

(** The response normaliser: parsing of the cleaned reply, then the
    fallback, the partial failure or the validated response. *)
Definition normalize (code responseText : jsstring) : M Response :=
  let jsonString := extract_json responseText in
  match JSON_parse jsonString with
  | None =>
      console_error [ LogString (lit "Failed to parse Groq response:");
                      LogString (substring0 500 jsonString) ] ;;
      console_error [ LogString (lit "Parse error:");
                      LogThrown (syntax_error jsonString) ] ;;
      ret (NextResponse_json
             (CorrectionResponse
                (JString (fallback_code responseText code))
                (JString explanation_fallback)
                (JArray issues_fallback))
             None)
  | Some parsedResponse =>
      correctedCode <- get_or_throw ReadOfNull parsedResponse "correctedCode" ;;
      if negb (ToBoolean correctedCode) then
        console_error
          [ LogString (lit "Groq response missing correctedCode field:");
            LogValue parsedResponse ] ;;
        ret (NextResponse_json
               (CorrectionResponse
                  (JString code)
                  (JString explanation_missing)
                  (JArray issues_missing))
               None)
      else
        correctedCode' <- get_or_throw ReadOfNull parsedResponse "correctedCode" ;;
        explanation <- get_or_throw ReadOfNull parsedResponse "explanation" ;;
        issues <- get_or_throw ReadOfNull parsedResponse "issues" ;;
        ret (NextResponse_json
               (CorrectionResponse
                  correctedCode'
                  (js_or explanation (JString explanation_default))
                  (if isArray issues then issues else JArray issues_default))
               None)
  end.

(** The steps of the [try] block before the provider is called: the check
    of the credential, the reading and validation of the request and the
    construction of the prompt. They end with an early response, or with
    the code and the prompt. *)
Definition before_provider (env : ProcessEnv) (request : jsstring)
  : M (Response + jsstring * jsstring) :=
  if negb (ToBoolean (env_value (GROQ_API_KEY env))) then
    ret (inl (error_response 500
           "Groq API key not configured. Please add GROQ_API_KEY to your environment variables."))
  else
    json <- request_json request ;;
    code <- get_or_throw DestructureNull json "code" ;;
    language <- get_or_throw DestructureNull json "language" ;;
    description <- get_or_throw DestructureNull json "description" ;;
    valid <- validate_code code ;;
    match valid with
    | None => ret (inl (error_response 400 "Code is required"))
    | Some code =>
        prompt <- build_prompt code language description ;;
        ret (inr (code, prompt))
    end.

(** The steps after the provider has answered: the text of the reply, its
    logged preview and the normaliser. *)
Definition after_provider (code : jsstring) (chatCompletion : ChatCompletion)
  : M Response :=
  let responseText := responseText_of chatCompletion in
  console_log [ LogString (lit "Groq raw response:");
                LogString (substring0 300 responseText ++ lit "...") ] ;;
  normalize code responseText.

(** The body of the [try] block. *)
Definition POST_try (env : ProcessEnv) (request : jsstring)
    (provider : Provider) : M Response :=
  step <- before_provider env request ;;
  match step with
  | inl early => ret early
  | inr (code, prompt) =>
      chatCompletion <- call_provider provider (chat_request prompt) ;;
      after_provider code chatCompletion
  end.

(** The handler: it always answers, the catch block turning whatever the
    [try] block throws into an error response. *)
Definition POST (env : ProcessEnv) (request : jsstring)
    (provider : Provider) : M Response :=
  try_catch (POST_try env request provider) POST_catch.

End Handler.

Arguments POST rt env request provider : simpl never.

(** ** A runtime for concrete runs *)

(** A runtime that words its errors as V8 does. The diagnostic of a syntax
    error quotes the text that failed to parse, the whole of it when it is
    shorter than 21 code units and its first 10 code units otherwise; here
    the token blamed is always the first one. An integer below [2^53] is
    rendered with its decimal digits and zero as [0], as every engine
    does; any other number is rendered in scientific notation, which only
    stands in for the digits that an engine would choose. *)
Definition quoting_syntax_message (text : jsstring) : jsstring :=
  match skip_ws text with
  | [] => lit "Unexpected end of JSON input"
  | c :: _ =>
      if (length text <? 21)%nat then
        lit "Unexpected token '" ++ c :: lit "', "
        ++ DQUOTE :: text ++ DQUOTE :: lit " is not valid JSON"
      else
        lit "Unexpected token '" ++ c :: lit "', "
        ++ DQUOTE :: firstn 10 text ++ DQUOTE :: lit "... is not valid JSON"
  end.

Definition sample_type_message (site : TypeErrorSite) : jsstring :=
  match site with
  | DestructureNull =>
      lit "Cannot destructure property 'code' of '(intermediate value)' as it is null."
  | TrimNotCallable => lit "code.trim is not a function"
  | TemplateConversion => lit "Cannot convert object to primitive value"
  | ReadOfNull =>
      lit "Cannot read properties of null (reading 'correctedCode')"
  end.

Definition sample_number_string (n : number) : jsstring :=
  if number_is_zero n then lit "0"
  else if (0 <=? exp10 n)%Z
          && (Z.of_N (mantissa n) * 10 ^ exp10 n <? 2 ^ 53)%Z
  then
    (if negative n then lit "-" else [])
    ++ lit (NilZero.string_of_uint
              (N.to_uint (mantissa n * 10 ^ Z.to_N (exp10 n))))
  else
    (if negative n then lit "-" else [])
    ++ lit (NilZero.string_of_uint (N.to_uint (mantissa n)))
    ++ lit "e"
    ++ lit (NilZero.string_of_int (Z.to_int (exp10 n))).

Definition sample_runtime : Runtime :=
  {| syntaxErrorMessage := quoting_syntax_message;
     typeErrorMessage := sample_type_message;
     numberToString := sample_number_string |}.

(** An environment with the credential, a provider that answers every
    prompt with the given text, and one that fails with the given error. *)
Definition configured_env : ProcessEnv :=
  {| GROQ_API_KEY := Some (lit "gsk_test") |}.

Definition unconfigured_env : ProcessEnv := {| GROQ_API_KEY := None |}.

Definition replying (text : jsstring) : Provider :=
  fun _ =>
    Returned {| choices :=
      [ {| message := Some {| reply_content := Some text |} |} ] |}.

Definition failing (e : thrown) : Provider := fun _ => Thrown e.

(** A request body [{"code": code, "language": "python"}]. *)
Definition sample_request (code : string) : jsstring :=
  lit "{" ++ quoted "code" ++ lit ":" ++ quoted code ++ lit ","
  ++ quoted "language" ++ lit ":" ++ quoted "python" ++ lit "}".
Arguments sample_request code%_string.

(** The reply [{"correctedCode":"x","explanation":"y","issues":["z"]}]. *)
Definition xyz_object : jsstring :=
  lit "{" ++ quoted "correctedCode" ++ lit ":" ++ quoted "x" ++ lit ","
  ++ quoted "explanation" ++ lit ":" ++ quoted "y" ++ lit ","
  ++ quoted "issues" ++ lit ":[" ++ quoted "z" ++ lit "]}".

(** The prompt built for a request, when one is built. *)
Definition prompt_of (rt : Runtime) (env : ProcessEnv) (request : jsstring)
  : jsstring :=
  match fst (before_provider rt env request) with
  | Returned (inr (_, prompt)) => prompt
  | _ => []
  end.

(** An object text with the given members, [{k1:v1,k2:v2,...}], each
    member already written as text. *)
Definition object_text (members : list jsstring) : jsstring :=
  lit "{"
  ++ (fix join (l : list jsstring) : jsstring :=
        match l with
        | [] => []
        | [x] => x
        | x :: l' => x ++ lit "," ++ join l'
        end) members
  ++ lit "}".

(** A member [key: text], pretty-printed with a space after the colon. *)
Definition member (key : string) (text : jsstring) : jsstring :=
  quoted key ++ lit ": " ++ text.
Arguments member key%_string text.

(** Replies and errors used in the concrete runs. *)
Definition prose_reply : jsstring := lit "The code looks fine to me.".

Definition quoted_prose_reply : jsstring :=
  quoted "The code looks fine to me.".


Definition missing_code_reply : jsstring :=
  object_text [ member "explanation" (quoted "nothing to fix") ].

Definition only_code_reply : jsstring :=
  object_text [ member "correctedCode" (quoted "x") ].

Definition empty_explanation_reply : jsstring :=
  object_text [ member "correctedCode" (quoted "x");
                member "explanation" [DQUOTE; DQUOTE];
                member "issues" (lit "[]") ].

Definition numeric_issues_reply : jsstring :=
  object_text [ member "correctedCode" (quoted "x");
                member "issues" (lit "[1, 2]") ].

Definition scenario_reply : jsstring :=
  object_text [ member "correctedCode" (quoted "def f(x): return x + 1");
                member "explanation" (quoted "fixed dangling operator");
                member "issues" (lit "[" ++ quoted "incomplete expression"
                                 ++ lit "]") ].

Definition format_error : thrown :=
  Error (lit "SyntaxError") (lit "Unexpected token < in JSON at position 0").

Definition rate_limit_error : thrown :=
  Error (lit "RateLimitError") (lit "rate limit reached for this model").

Definition sample_prompt : jsstring :=
  prompt_of sample_runtime configured_env (sample_request "x = 1").

(** A reply inside a markdown fence with the language tag [tag]. *)
Definition fenced (tag text : jsstring) : jsstring :=
  lit "```" ++ tag ++ LF :: text ++ LF :: lit "```".

(** What is left of the tag once the opening marker is removed: the marker
    is [```json] when the tag starts with [json], and [```] otherwise. *)
Definition tag_rest (tag : jsstring) : jsstring :=
  if startsWith (lit "json") tag then skipn 4 tag else tag.

(** A reply whose [correctedCode] is a number too large for a double. *)
Definition overflowing_code_reply : jsstring :=
  object_text [ member "correctedCode" (lit "1e999") ].

(** ** The invariant of a correction result, in the words of the data model *)


Definition is_string (v : value) : Prop :=
  match v with JString _ => True | _ => False end.

(** The trace of a run. *)
Definition trace_of {A : Type} (m : M A) : list event := snd m.

Definition is_provider_call (e : event) : bool :=
  match e with ProviderCall _ => true | _ => false end.

(** The provider was not invoked during a run. *)
Definition provider_not_invoked {A : Type} (m : M A) : Prop :=
  forallb (fun e => negb (is_provider_call e)) (trace_of m) = true.

(** The classes of error message told apart by the catch block. *)
Definition mentions_credential (msg : jsstring) : bool :=
  includes (lit "API key") msg || includes (lit "authentication") msg
  || includes (lit "unauthorized") msg.

Definition mentions_rate_limit (msg : jsstring) : bool :=
  includes (lit "rate limit") msg || includes (lit "quota") msg
  || includes (lit "limit exceeded") msg.

Definition mentions_timeout (msg : jsstring) : bool :=
  includes (lit "timeout") msg || includes (lit "network") msg.

Definition mentions_format (msg : jsstring) : bool :=
  includes (lit "JSON") msg || includes (lit "parse") msg.

(** ** JSON.stringify of a correction result *)

(** Surrogate code units. *)
Definition is_high_surrogate (c : N) : bool := (55296 <=? c) && (c <=? 56319).
Definition is_low_surrogate (c : N) : bool := (56320 <=? c) && (c <=? 57343).

(** A lower-case hexadecimal digit, and the escape [\uXXXX] of a code
    unit. *)
Definition hex_digit (k : N) : N := if k <? 10 then 48 + k else 87 + k.

Definition unicode_escape (c : N) : jsstring :=
  [ BACKSLASH; code "u"; hex_digit (c / 4096); hex_digit ((c / 256) mod 16);
    hex_digit ((c / 16) mod 16); hex_digit (c mod 16) ].

(** [QuoteJSONString]: the escapes of [JSON.stringify]. The two-letter
    escapes, then [\uXXXX] for the other control characters and for lone
    surrogates; a surrogate pair and every other code unit are written as
    they are. *)
Definition quote_unit (c : N) : jsstring :=
  if c =? 8 then [BACKSLASH; code "b"]
  else if c =? 9 then [BACKSLASH; code "t"]
  else if c =? 10 then [BACKSLASH; code "n"]
  else if c =? 12 then [BACKSLASH; code "f"]
  else if c =? 13 then [BACKSLASH; code "r"]
  else if c =? DQUOTE then [BACKSLASH; DQUOTE]
  else if c =? BACKSLASH then [BACKSLASH; BACKSLASH]
  else if (c <? 32) || is_high_surrogate c || is_low_surrogate c
  then unicode_escape c
  else [c].

Fixpoint quote_units (s : jsstring) : jsstring :=
  match s with
  | [] => []
  | c :: s' =>
      if is_high_surrogate c then
        match s' with
        | d :: s'' =>
            if is_low_surrogate d then c :: d :: quote_units s''
            else unicode_escape c ++ quote_units s'
        | [] => unicode_escape c
        end
      else quote_unit c ++ quote_units s'
  end.

Definition QuoteJSONString (s : jsstring) : jsstring :=
  DQUOTE :: quote_units s ++ [DQUOTE].

(** The first character put back on a string literal read. *)
Definition cons_parsed (c : N) (p : option (jsstring * jsstring))
  : option (jsstring * jsstring) :=
  match p with
  | Some (str, rest) => Some (c :: str, rest)
  | None => None
  end.

(** A correction result with well-typed fields, the text that
    [JSON.stringify] writes for it and the object that it denotes. *)
Record CorrectionResult : Type := {
  result_correctedCode : jsstring;
  result_explanation : jsstring;
  result_issues : list jsstring
}.

Fixpoint stringify_strings (l : list jsstring) : jsstring :=
  match l with
  | [] => []
  | [x] => QuoteJSONString x
  | x :: l' => QuoteJSONString x ++ code "," :: stringify_strings l'
  end.

Definition stringify_result (r : CorrectionResult) : jsstring :=
  lit "{"
  ++ QuoteJSONString (lit "correctedCode") ++ lit ":"
  ++ QuoteJSONString (result_correctedCode r) ++ lit ","
  ++ QuoteJSONString (lit "explanation") ++ lit ":"
  ++ QuoteJSONString (result_explanation r) ++ lit ","
  ++ QuoteJSONString (lit "issues") ++ lit ":["
  ++ stringify_strings (result_issues r) ++ lit "]}".

Definition result_value (r : CorrectionResult) : value :=
  CorrectionResponse (JString (result_correctedCode r))
    (JString (result_explanation r))
    (JArray (List.map JString (result_issues r))).

(** ** The events and the responses of the handler, by name *)

(** The line logged by the catch block, and the preview of the reply logged
    after the provider has answered. *)
Definition api_error_log (e : thrown) : event :=
  ConsoleError [LogString (lit "Groq API Error:"); LogThrown e].

Definition raw_response_log (reply : jsstring) : event :=
  ConsoleLog [ LogString (lit "Groq raw response:");
               LogString (substring0 300 reply ++ lit "...") ].

(** The three results of the normaliser: the fallback, the partial failure
    and the validated response built from a parsed object. *)
Definition fallback_response (code reply : jsstring) : Response :=
  {| status := 200;
     body := CorrectionResponse (JString (fallback_code reply code))
               (JString explanation_fallback) (JArray issues_fallback) |}.

Definition missing_code_response (code : jsstring) : Response :=
  {| status := 200;
     body := CorrectionResponse (JString code)
               (JString explanation_missing) (JArray issues_missing) |}.

Definition validated_response (o : list (jsstring * value)) : Response :=
  {| status := 200;
     body := CorrectionResponse
               (obj_get (lit "correctedCode") o)
               (js_or (obj_get (lit "explanation") o)
                  (JString explanation_default))
               (if isArray (obj_get (lit "issues") o)
                then obj_get (lit "issues") o
                else JArray issues_default) |}.

(** ** Reading a prefix of the input *)

(** [f] run on [s] answers [v] and leaves [r]; it answers the same on every
    input that keeps the part of [s] before [r] and continues it with a
    prefix of [r]. *)
Definition reads {A : Type} (f : jsstring -> option (A * jsstring))
    (s : jsstring) (v : A) (r : jsstring) : Prop :=
  exists a, s = a ++ r /\ forall x y, r = x ++ y -> f (a ++ x) = Some (v, x).

Definition reads_parsed {A : Type} (f : jsstring -> parsed A)
    (s : jsstring) (v : A) (r : jsstring) : Prop :=
  exists a, s = a ++ r /\ forall x y, r = x ++ y -> f (a ++ x) = Parsed v x.


(** ** The shapes of the answers of the handler *)

(** The body of an error response: an [error] that is a non-empty string,
    alone or followed by [details], a string. *)
Definition error_body (b : value) : Prop :=
  exists msg, msg <> [] /\
    (b = JObject [(lit "error", JString msg)]
     \/ exists details,
          b = JObject [ (lit "error", JString msg);
                        (lit "details", JString details) ]).

(** The body handed to [NextResponse.json] for a success: the three
    fields, [correctedCode] truthy and [issues] an array. *)
Definition success_body (b : value) : Prop :=
  exists correctedCode explanation issues,
    b = CorrectionResponse correctedCode explanation (JArray issues)
    /\ ToBoolean correctedCode = true.

(** The body of a success as it is served: the three fields, [issues] an
    array, [correctedCode] and [explanation] truthy or [null]. *)
Definition three_fields (b : value) : Prop :=
  exists correctedCode explanation issues,
    b = CorrectionResponse correctedCode explanation (JArray issues)
    /\ (ToBoolean correctedCode = true \/ correctedCode = JNull)
    /\ (ToBoolean explanation = true \/ explanation = JNull).

(** The calls of the provider in a trace. *)
Definition provider_calls (t : list event) : list event :=
  filter is_provider_call t.

(** A completion from which [choices[0]?.message?.content || ''] reads the
    empty string: no choice, a first choice with no message, or a message
    whose content is [null] or empty. *)
Definition no_content (completion : ChatCompletion) : Prop :=
  match choices completion with
  | [] => True
  | c :: _ =>
      match message c with
      | None => True
      | Some m => reply_content m = None \/ reply_content m = Some []
      end
  end.

(** The [TypeError] that the runtime raises at a place of the handler, and
    the line logged for a reply without [correctedCode]. *)
Definition type_error_of (rt : Runtime) (site : TypeErrorSite) : thrown :=
  Error (lit "TypeError") (typeErrorMessage rt site).

Definition missing_code_log (parsedResponse : value) : event :=
  ConsoleError [ LogString (lit "Groq response missing correctedCode field:");
                 LogValue parsedResponse ].

(** A text between braces with no opening brace before it and no closing
    brace after it: the shape kept by every step of the cleaning. *)
Definition around (mid s : jsstring) : Prop :=
  exists p q,
    s = p ++ code "{" :: mid ++ code "}" :: q
    /\ ~ In (code "{") p /\ ~ In (code "}") q.

(** The lines of a text, [s.split('\n')]. *)
Fixpoint lines (s : jsstring) : list jsstring :=
  match s with
  | [] => [[]]
  | c :: s' =>
      if c =? LF then [] :: lines s'
      else
        match lines s' with
        | l :: ls => (c :: l) :: ls
        | [] => [[c]]
        end
  end.

(** A provider whose completion has no choice, and request bodies that are
    JSON without a usable [code]. *)
Definition silent_provider : Provider :=
  fun _ => Returned {| choices := [] |}.

Definition no_code_request : jsstring :=
  lit "{" ++ quoted "language" ++ lit ":" ++ quoted "python" ++ lit "}".

Definition numeric_code_request : jsstring :=
  lit "{" ++ quoted "code" ++ lit ": 42}".

(** A reply with prose before and after the object. *)
Definition chatty_reply : jsstring :=
  lit "Here is the fix:" ++ LF :: xyz_object
  ++ LF :: lit "Let me know if you need anything else.".

(* ===================================================================== *)
(** * The page: the client of the endpoint *)
(* ===================================================================== *)

(** [JSON.stringify] of an object whose properties are strings, none of
    them named by an array index: the members in the order of their
    definition. *)
Fixpoint stringify_members (l : list (jsstring * jsstring)) : jsstring :=
  match l with
  | [] => []
  | (k, v) :: l' =>
      QuoteJSONString k ++ code ":" :: QuoteJSONString v
      ++ match l' with
         | [] => []
         | _ :: _ => code "," :: stringify_members l'
         end
  end.

Definition stringify_object (l : list (jsstring * jsstring)) : jsstring :=
  code "{" :: stringify_members l ++ [code "}"].

(** The object that such a text denotes. *)
Definition object_of (l : list (jsstring * jsstring)) : value :=
  JObject (fold_left (fun acc kv => obj_set (fst kv) (JString (snd kv)) acc)
             l []).

(** The body of the request, [JSON.stringify({ code, language,
    description })]: [description.trim() || undefined] leaves the property
    undefined for a blank description, and an undefined property is not
    written. *)
Definition request_members (originalCode language description : jsstring)
  : list (jsstring * jsstring) :=
  [ (lit "code", originalCode); (lit "language", language) ]
  ++ match trim description with
     | [] => []
     | d => [ (lit "description", d) ]
     end.

Definition request_body (originalCode language description : jsstring)
  : jsstring :=
  stringify_object (request_members originalCode language description).

(** The second argument of [fetch] and what [fetch] resolves to, as far as
    the page reads it. *)
Record RequestInit : Type := {
  init_method : jsstring;
  init_headers : list (jsstring * jsstring);
  init_body : jsstring
}.

Record FetchResponse : Type := {
  response_status : N;
  response_text : jsstring
}.

(** [response.ok] *)
Definition response_ok (r : FetchResponse) : bool :=
  (200 <=? response_status r) && (response_status r <=? 299).

(** The server seen from the page, for a request that settles: [fetch]
    resolves to a response, whose body is then read, or rejects. The page
    awaits it without a timeout or an abort signal; a request that never
    settles, after which nothing more happens, has no value here. *)
Definition Server : Type := jsstring -> RequestInit -> outcome FetchResponse.

Inductive toast_kind : Type := ToastError | ToastLoading | ToastSuccess.

Record ToastOptions : Type := {
  toast_description : option jsstring;
  toast_duration : option N
}.

(** What the page does, in order: toasts, state updates, the request and
    the console. The toast dismissed is the loading toast, the only one
    whose identifier is kept. *)
Inductive ui_event : Type :=
| Toast (kind : toast_kind) (title : jsstring) (options : ToastOptions)
| ToastDismiss
| SetLoading (b : bool)
| SetResult (data : value)
| FetchCall (url : jsstring) (init : RequestInit)
| PageConsoleError (args : list logged).

(** A computation of the page ends by returning or throwing, and leaves a
    trace. *)
Definition Page (A : Type) : Type := outcome A * list ui_event.

Definition page_ret {A : Type} (a : A) : Page A := (Returned a, []).

Definition page_throw {A : Type} (e : thrown) : Page A := (Thrown e, []).

Definition page_emit (e : ui_event) : Page unit := (Returned tt, [e]).

Definition page_bind {A B : Type} (m : Page A) (k : A -> Page B) : Page B :=
  match m with
  | (Returned a, t) => let (r, t') := k a in (r, t ++ t')
  | (Thrown e, t) => (Thrown e, t)
  end.

Declare Scope page_scope.
Delimit Scope page_scope with page.
Notation "x <- m ;; k" := (page_bind m (fun x => k))
  (at level 61, m at next level, right associativity) : page_scope.
Notation "m ;; k" := (page_bind m (fun _ => k))
  (at level 61, right associativity) : page_scope.

(** What the page leaves to the browser: its JavaScript engine, and the
    wording of the [TypeError] raised by reading the property [name] of
    [null]. *)
Record Browser : Type := {
  engine : Runtime;
  readOfNullMessage : jsstring -> jsstring
}.

(** The number of a length, and [v.length]: the length of an array or of a
    string, the own property of an object, and [undefined] for a boolean
    or a number. *)
Definition number_of_nat (n : nat) : number := mkNumber false (N.of_nat n) 0.

Definition optional_length (v : value) : value :=
  match v with
  | JArray l => JNumber (number_of_nat (length l))
  | JString s => JNumber (number_of_nat (length s))
  | JObject o => obj_get (lit "length") o
  | _ => JUndefined
  end.

(** The toasts, the request and the log line of [correctCode]. *)
Definition blank_code_toast : ui_event :=
  Toast ToastError (lit "Please enter some code to correct")
    {| toast_description := None; toast_duration := None |}.

Definition loading_toast : ui_event :=
  Toast ToastLoading (lit "Groq is analyzing your code...")
    {| toast_description := Some (lit "This may take a few seconds");
       toast_duration := None |}.

Definition api_request (originalCode language description : jsstring)
  : RequestInit :=
  {| init_method := lit "POST";
     init_headers := [ (lit "Content-Type", lit "application/json") ];
     init_body := request_body originalCode language description |}.

Definition api_call (originalCode language description : jsstring)
  : ui_event :=
  FetchCall (lit "/api/correct")
    (api_request originalCode language description).

Definition success_toast (count : jsstring) : ui_event :=
  Toast ToastSuccess (lit "Code corrected successfully!")
    {| toast_description :=
         Some (lit "Found and fixed " ++ count ++ lit " issues");
       toast_duration := Some 3000 |}.

Definition failure_toast (errorMessage : jsstring) : ui_event :=
  Toast ToastError (lit "Failed to correct code")
    {| toast_description := Some errorMessage;
       toast_duration := Some 5000 |}.

Definition failure_log (error : thrown) : ui_event :=
  PageConsoleError [LogString (lit "Code correction error:"); LogThrown error].

(** [error instanceof Error ? error.message : 'Unknown error occurred'] *)
Definition errorMessage_of (error : thrown) : jsstring :=
  match error with
  | Error _ msg => msg
  | NotAnError _ => lit "Unknown error occurred"
  end.

Section PageCode.

Variable browser : Browser.
Variable fetch : Server.

Local Open Scope page_scope.

Definition page_fetch (url : jsstring) (init : RequestInit)
  : Page FetchResponse :=
  (fetch url init, [FetchCall url init]).

(** [await response.json()] *)
Definition response_json (response : FetchResponse) : Page value :=
  match JSON_parse (without_BOM (response_text response)) with
  | Some v => page_ret v
  | None =>
      page_throw (syntax_error (engine browser)
                    (without_BOM (response_text response)))
  end.

(** [data.name] *)
Definition read (data : value) (name : string) : Page value :=
  match Get data (lit name) with
  | Some x => page_ret x
  | None =>
      page_throw (Error (lit "TypeError")
                    (readOfNullMessage browser (lit name)))
  end.

(** [ToString] of a value, in a template literal or as the message of a
    new [Error]. *)
Definition to_string (v : value) : Page jsstring :=
  match ToString (engine browser) v with
  | Some s => page_ret s
  | None =>
      page_throw (Error (lit "TypeError")
                    (typeErrorMessage (engine browser) TemplateConversion))
  end.

(** The [try] block of [correctCode] after the server has answered: the
    reading of the answer, the two checks, and the result with its
    toast. *)
Definition after_fetch (response : FetchResponse) : Page unit :=
  data <- response_json response ;;
  (if negb (response_ok response) then
     error <- read data "error" ;;
     message <-
       (if ToBoolean error then to_string error
        else
          st <- to_string
                  (JNumber (mkNumber false (response_status response) 0)) ;;
          page_ret (lit "HTTP " ++ st ++ lit ": Failed to correct code")) ;;
     page_throw (Error (lit "Error") message)
   else page_ret tt) ;;
  correctedCode <- read data "correctedCode" ;;
  if negb (ToBoolean correctedCode) then
    page_throw (Error (lit "Error")
                  (lit "Invalid response: Missing corrected code"))
  else
    page_emit (SetResult data) ;;
    issues <- read data "issues" ;;
    count <- to_string
               (js_or (match issues with
                       | JUndefined | JNull => JUndefined
                       | _ => optional_length issues
                       end)
                  (JNumber (mkNumber false 0 0))) ;;
    page_emit (success_toast count).

(** The [try] block. *)
Definition correctCode_try (originalCode language description : jsstring)
  : Page unit :=
  response <- page_fetch (lit "/api/correct")
                (api_request originalCode language description) ;;
  after_fetch response.

(** [correctCode]: what the page does when the button is pressed. Nothing
    is thrown out of it: the [catch] block logs the error and shows its
    message, and the [finally] block runs in every case. *)
Definition correctCode (originalCode language description : jsstring)
  : list ui_event :=
  if negb (ToBoolean (JString (trim originalCode))) then [blank_code_toast]
  else
    [ SetLoading true; loading_toast ]
    ++ (match correctCode_try originalCode language description with
        | (Returned _, t) => t
        | (Thrown error, t) =>
            t ++ [ failure_log error; failure_toast (errorMessage_of error) ]
        end)
    ++ [ SetLoading false; ToastDismiss ].

End PageCode.

(** ** A browser and servers for concrete runs *)

(** A browser whose engine words its errors as V8 does. *)
Definition sample_browser : Browser :=
  {| engine := sample_runtime;
     readOfNullMessage := fun name =>
       lit "Cannot read properties of null (reading '" ++ name ++ lit "')" |}.

(** The server that answers every request with the given status and
    text. *)
Definition answering (st : N) (text : jsstring) : Server :=
  fun _ _ => Returned {| response_status := st; response_text := text |}.

(** The text of the error body with the given message, and the correction
    result of the scenario. *)
Definition error_text (msg : string) : jsstring :=
  stringify_object [ (lit "error", lit msg) ].

Definition scenario_result : CorrectionResult :=
  {| result_correctedCode := lit "def f(x): return x + 1";
     result_explanation := lit "fixed dangling operator";
     result_issues := [ lit "incomplete expression" ] |}.


(* ===================================================================== *)
(** * Properties of the parser: it never runs short of fuel *)
(* ===================================================================== *)

(** Case analysis on the scrutinee of the first [match] or [if] found in a
    hypothesis, then in the goal. *)
Ltac break_hyp H :=
  match type of H with
  | context [match ?x with _ => _ end] => destruct x eqn:?
  | context [if ?x then _ else _] => destruct x eqn:?
  end.

Ltac break_goal :=
  match goal with
  | |- context [match ?x with _ => _ end] => destruct x eqn:?
  | |- context [if ?x then _ else _] => destruct x eqn:?
  end.

Lemma skip_ws_length (s : jsstring) : (length (skip_ws s) <= length s)%nat.
Proof.
  induction s as [|c s IH]; simpl; [lia|].
  destruct (is_json_ws c); simpl; lia.
Qed.

Lemma parse_string_chars_length (s str rest : jsstring) :
  parse_string_chars s = Some (str, rest) -> (length rest < length s)%nat.
Proof.
  remember (length s) as n eqn:Hn.
  revert s str rest Hn.
  induction n as [n IH] using lt_wf_ind.
  intros s str rest Hn H. subst n.
  destruct s as [|c s1]; simpl in H; [discriminate|].
  repeat (break_hyp H; try discriminate);
    inversion H; subst; simpl; try lia;
    match goal with
    | E : parse_string_chars ?x = Some _ |- _ =>
        apply (IH (length x)) in E; simpl; try lia; reflexivity
    end.
Qed.

Lemma read_digits_length (s : jsstring) :
  forall acc count m k rest,
    read_digits s acc count = (m, k, rest) ->
    (length rest <= length s)%nat.
Proof.
  induction s as [|c s IH]; simpl; intros acc count m k rest H.
  - inversion H; simpl; lia.
  - destruct (is_digit c).
    + apply IH in H. lia.
    + inversion H; simpl; lia.
Qed.

Ltac break_any :=
  match goal with
  | H : context [match ?x with _ => _ end] |- _ => destruct x eqn:?
  | H : context [if ?x then _ else _] |- _ => destruct x eqn:?
  end.

Lemma read_digits_cons_length d (s : jsstring) acc count m k rest :
  is_digit d = true ->
  read_digits (d :: s) acc count = (m, k, rest) ->
  (length rest <= length s)%nat.
Proof.
  simpl. intros ->. apply read_digits_length.
Qed.

Ltac number_lengths :=
  repeat match goal with
  | E : (_, _) = (_, _) |- _ => inversion E; subst; clear E
  | E : Some _ = Some _ |- _ => inversion E; subst; clear E
  | D : is_digit ?d = true, E : read_digits (?d :: _) _ _ = _ |- _ =>
      apply (read_digits_cons_length _ _ _ _ _ _ _ D) in E
  | E : read_digits _ _ _ = _ |- _ => apply read_digits_length in E
  end.

Lemma parse_exponent_length neg m k (s : jsstring) num rest :
  parse_exponent neg m k s = Some (num, rest) ->
  (length rest <= length s)%nat.
Proof.
  unfold parse_exponent, parse_exponent_digits. intros H.
  repeat (break_any; try discriminate); number_lengths; simpl in *; lia.
Qed.

Lemma parse_fraction_length neg m (s : jsstring) num rest :
  parse_fraction neg m s = Some (num, rest) ->
  (length rest <= length s)%nat.
Proof.
  unfold parse_fraction. intros H.
  repeat (break_any; try discriminate); number_lengths;
    match goal with
    | E : parse_exponent _ _ _ _ = Some _ |- _ =>
        apply parse_exponent_length in E
    end; simpl in *; lia.
Qed.

Lemma parse_number_length (s : jsstring) num rest :
  parse_number s = Some (num, rest) -> (length rest < length s)%nat.
Proof.
  unfold parse_number, parse_integer. intros H.
  repeat (break_any; try discriminate); number_lengths;
    match goal with
    | E : parse_fraction _ _ _ = Some _ |- _ =>
        apply parse_fraction_length in E
    end; simpl in *; lia.
Qed.

Lemma startsWith_split (p s : jsstring) :
  startsWith p s = true -> s = p ++ skipn (length p) s.
Proof.
  revert s. induction p as [|a p IH]; intros s H; simpl in *.
  - reflexivity.
  - destruct s as [|b s]; [discriminate|].
    apply andb_true_iff in H as [Hab Hp].
    apply N.eqb_eq in Hab. subst b. f_equal. apply IH. exact Hp.
Qed.

Lemma startsWith_app (p t : jsstring) : startsWith p (p ++ t) = true.
Proof.
  induction p as [|a p IH]; simpl; [reflexivity|].
  rewrite N.eqb_refl. exact IH.
Qed.

(** A literal is read without looking past it. *)
Lemma parse_literal_split (s : jsstring) v r :
  parse_literal s = Some (v, r) ->
  exists c a, s = c :: a ++ r /\
    forall t, parse_literal (c :: a ++ t) = Some (v, t).
Proof.
  unfold parse_literal. intros H.
  destruct (startsWith (lit "true") s) eqn:Et;
    [|destruct (startsWith (lit "false") s) eqn:Ef;
      [|destruct (startsWith (lit "null") s) eqn:En; [|discriminate]]];
    inversion H; subst; clear H;
    match goal with
    | E : startsWith ?p s = true |- _ =>
        apply startsWith_split in E;
        exists (hd 0 p), (tl p); split; [exact E|]; intros t; reflexivity
    end.
Qed.

Lemma parse_literal_length (s : jsstring) v r :
  parse_literal s = Some (v, r) -> (length r < length s)%nat.
Proof.
  intros H. apply parse_literal_split in H as (c & a & -> & _).
  simpl. rewrite length_app. lia.
Qed.

Ltac parser_lengths IHv IHe IHm :=
  repeat match goal with
  | E : Parsed _ _ = Parsed _ _ |- _ => inversion E; subst; clear E
  | E : Some _ = Some _ |- _ => inversion E; subst; clear E
  | E : (_, _) = (_, _) |- _ => inversion E; subst; clear E
  | E : parse_string_chars _ = Some _ |- _ => apply parse_string_chars_length in E
  | E : parse_number _ = Some _ |- _ => apply parse_number_length in E
  | E : parse_literal _ = Some _ |- _ => apply parse_literal_length in E
  | E : parse_value _ _ = Parsed _ _ |- _ => apply IHv in E
  | E : parse_elements _ _ = Parsed _ _ |- _ => apply IHe in E
  | E : parse_members _ _ _ = Parsed _ _ |- _ => apply IHm in E
  | E : skip_ws ?s = _ |- _ =>
      let L := fresh "L" in
      pose proof (skip_ws_length s) as L; rewrite E in L; clear E
  end.

Lemma parse_lengths (n : nat) :
  (forall s v r, parse_value n s = Parsed v r -> (length r < length s)%nat) /\
  (forall s vs r, parse_elements n s = Parsed vs r -> (length r < length s)%nat) /\
  (forall s acc o r, parse_members n s acc = Parsed o r -> (length r < length s)%nat).
Proof.
  induction n as [|n [IHv [IHe IHm]]].
  - simpl; repeat split; intros; discriminate.
  - repeat split; intros * H; simpl in H; unfold parsed_map in H;
      repeat (break_hyp H; try discriminate);
      parser_lengths IHv IHe IHm; simpl in *; lia.
Qed.

Lemma parse_fuel (n : nat) :
  (forall s, (2 * length s < n)%nat -> parse_value n s <> Exhausted) /\
  (forall s, (2 * length s + 1 < n)%nat -> parse_elements n s <> Exhausted) /\
  (forall s acc, (2 * length s + 1 < n)%nat -> parse_members n s acc <> Exhausted).
Proof.
  induction n as [|n [IHv [IHe IHm]]].
  - repeat split; intros; lia.
  - destruct (parse_lengths n) as [Lv [Le Lm]].
    repeat split; intros * Hn; simpl; unfold parsed_map;
      repeat (break_goal; try discriminate);
      match goal with
      | E : parse_value n ?x = Exhausted |- _ =>
          exfalso; apply (IHv x) in E; [exact E|]
      | E : parse_elements n ?x = Exhausted |- _ =>
          exfalso; apply (IHe x) in E; [exact E|]
      | E : parse_members n ?x ?a = Exhausted |- _ =>
          exfalso; apply (IHm x a) in E; [exact E|]
      | |- parse_members n _ _ <> Exhausted => apply IHm
      end;
      parser_lengths Lv Le Lm; simpl in *; lia.
Qed.

(** [JSON_parse] gives its parser enough fuel: [None] always stands for a
    syntax error. *)
Lemma JSON_parse_fuel (text : jsstring) :
  parse_value (S (2 * length text)) text <> Exhausted.
Proof.
  apply (parse_fuel (S (2 * length text))). lia.
Qed.


Ltac mono_steps IHv IHe IHm :=
  repeat first
    [ progress (simpl in *)
    | progress (unfold parsed_map in *)
    | match goal with
      | H : ?x <> ?x |- _ => exfalso; apply H; reflexivity
      | |- ?x = ?x => reflexivity
      | H : context [match parse_value ?n ?x with _ => _ end] |- _ =>
          let E := fresh "E" in
          destruct (parse_value n x) eqn:E;
          try (rewrite (IHv x) by (rewrite E; discriminate); rewrite E)
      | H : context [match parse_elements ?n ?x with _ => _ end] |- _ =>
          let E := fresh "E" in
          destruct (parse_elements n x) eqn:E;
          try (rewrite (IHe x) by (rewrite E; discriminate); rewrite E)
      | H : context [match parse_members ?n ?x ?a with _ => _ end] |- _ =>
          let E := fresh "E" in
          destruct (parse_members n x a) eqn:E;
          try (rewrite (IHm x a) by (rewrite E; discriminate); rewrite E)
      | H : parse_members ?n ?x ?a <> Exhausted
        |- _ = parse_members ?n ?x ?a => apply IHm; exact H
      | H : context [match ?y with _ => _ end] |- _ => destruct y eqn:?
      | H : context [if ?y then _ else _] |- _ => destruct y eqn:?
      end ].

(** More fuel does not change a result. *)
Lemma parse_mono (n : nat) :
  forall m, (n <= m)%nat ->
    (forall s, parse_value n s <> Exhausted ->
               parse_value m s = parse_value n s) /\
    (forall s, parse_elements n s <> Exhausted ->
               parse_elements m s = parse_elements n s) /\
    (forall s acc, parse_members n s acc <> Exhausted ->
                   parse_members m s acc = parse_members n s acc).
Proof.
  induction n as [|n IH]; intros m Hm.
  - repeat split; intros * H; exfalso; apply H; reflexivity.
  - destruct m as [|m]; [lia|].
    destruct (IH m) as [IHv [IHe IHm]]; [lia|]. clear IH.
    repeat split; intros * H; unfold parsed_map in *;
      mono_steps IHv IHe IHm.
Qed.

(* ===================================================================== *)
(** * Properties of the parser: what it reads does not depend on what follows *)
(* ===================================================================== *)

(** The part of [s] before its tail [r]: [s] is read as [a ++ ... ++ r]. *)
Ltac prefix_of e r :=
  match e with
  | r => constr:(@nil N)
  | ?a ++ ?b => let b' := prefix_of b r in constr:(a ++ b')
  | ?c :: ?b => let b' := prefix_of b r in constr:(c :: b')
  end.

Ltac list_norm :=
  repeat (rewrite <- app_assoc || rewrite <- app_comm_cons
          || rewrite app_nil_r || rewrite app_nil_l).

Lemma skip_ws_split (s : jsstring) c r :
  skip_ws s = c :: r ->
  exists w, s = w ++ c :: r /\ skip_ws w = [] /\ is_json_ws c = false
            /\ forall t, skip_ws (w ++ c :: t) = c :: t.
Proof.
  induction s as [|d s IH]; simpl; intros H; [discriminate|].
  destruct (is_json_ws d) eqn:E.
  - destruct (IH H) as (w & -> & Hw & Hc & Ht).
    exists (d :: w). simpl. rewrite E. auto.
  - inversion H; subst. exists []. simpl. rewrite E. auto.
Qed.

Lemma read_digits_split (s : jsstring) :
  forall acc count m k r,
    read_digits s acc count = (m, k, r) ->
    exists a, s = a ++ r /\
      forall x y, r = x ++ y -> read_digits (a ++ x) acc count = (m, k, x).
Proof.
  induction s as [|c s IH]; simpl; intros acc count m k r H.
  - inversion H; subst. exists []. split; [reflexivity|].
    intros x y Hxy. symmetry in Hxy. apply app_eq_nil in Hxy as [-> _].
    reflexivity.
  - destruct (is_digit c) eqn:E.
    + destruct (IH _ _ _ _ _ H) as (a & -> & Ha).
      exists (c :: a). split; [reflexivity|].
      intros x y Hxy. simpl. rewrite E. eapply Ha; eauto.
    + inversion H; subst. exists []. split; [reflexivity|].
      intros [|d x] y Hxy; simpl; [reflexivity|].
      inversion Hxy; subst. rewrite E. reflexivity.
Qed.

Lemma reads_nothing {A : Type} (f : jsstring -> option (A * jsstring))
    (s : jsstring) (v : A) :
  (forall x y, s = x ++ y -> f x = Some (v, x)) -> reads f s v s.
Proof.
  intros H. exists []. split; [reflexivity|]. exact H.
Qed.

Lemma prefix_cases (c : N) (s x y : jsstring) :
  c :: s = x ++ y -> x = [] \/ exists x', x = c :: x'.
Proof.
  destruct x as [|d x']; [left; reflexivity|].
  simpl. intros H. inversion H; subst. right. eexists. reflexivity.
Qed.

Lemma parse_exponent_digits_split neg m k eneg (s : jsstring) num r :
  parse_exponent_digits neg m k eneg s = Some (num, r) ->
  exists d a, s = d :: a ++ r /\
    forall x y, r = x ++ y ->
      parse_exponent_digits neg m k eneg (d :: a ++ x) = Some (num, x).
Proof.
  unfold parse_exponent_digits. intros H.
  destruct s as [|d s3]; [discriminate|].
  destruct (is_digit d) eqn:Ed; [|discriminate].
  destruct (read_digits (d :: s3) 0 0%Z) as [[ev cnt] rest] eqn:E.
  inversion H; subst; clear H.
  cbn [read_digits] in E. rewrite Ed in E.
  apply read_digits_split in E as (a & -> & Ha).
  exists d, a. split; [reflexivity|].
  intros x y Hxy. rewrite Ed. cbn [read_digits]. rewrite Ed.
  rewrite (Ha x y Hxy). reflexivity.
Qed.

Lemma parse_exponent_split neg m k (s : jsstring) num r :
  parse_exponent neg m k s = Some (num, r) ->
  reads (parse_exponent neg m k) s num r.
Proof.
  intros H. destruct s as [|e s1].
  - simpl in H. inversion H; subst. apply reads_nothing.
    intros x y Hxy. symmetry in Hxy. apply app_eq_nil in Hxy as [-> _].
    reflexivity.
  - unfold parse_exponent in H.
    destruct ((e =? code "e") || (e =? code "E")) eqn:Ee.
    + destruct s1 as [|c r0]; [discriminate|].
      destruct (c =? code "-") eqn:Em; [|destruct (c =? code "+") eqn:Ep];
        apply parse_exponent_digits_split in H as (d & a & Hs & Ha).
      * subst r0. exists (e :: c :: d :: a). split; [reflexivity|].
        intros x y Hxy. cbn [app]. unfold parse_exponent. rewrite Ee, Em.
        eapply Ha; eauto.
      * subst r0. exists (e :: c :: d :: a). split; [reflexivity|].
        intros x y Hxy. cbn [app]. unfold parse_exponent.
        rewrite Ee, Em, Ep. eapply Ha; eauto.
      * inversion Hs; subst. exists (e :: d :: a). split; [reflexivity|].
        intros x y Hxy. cbn [app]. unfold parse_exponent.
        rewrite Ee, Em, Ep. eapply Ha; eauto.
    + inversion H; subst. apply reads_nothing.
      intros x y Hxy. destruct (prefix_cases _ _ _ _ Hxy) as [->|[x' ->]].
      * reflexivity.
      * unfold parse_exponent. rewrite Ee. reflexivity.
Qed.

Lemma parse_fraction_split neg m (s : jsstring) num r :
  parse_fraction neg m s = Some (num, r) ->
  reads (parse_fraction neg m) s num r.
Proof.
  intros H. destruct s as [|p s1].
  - simpl in H. inversion H; subst. apply reads_nothing.
    intros x y Hxy. symmetry in Hxy. apply app_eq_nil in Hxy as [-> _].
    reflexivity.
  - unfold parse_fraction in H.
    destruct (p =? code ".") eqn:Ep.
    + destruct s1 as [|d s2]; [discriminate|].
      destruct (is_digit d) eqn:Ed; [|discriminate].
      destruct (read_digits (d :: s2) m 0%Z) as [[m' k] rest] eqn:E.
      cbn [read_digits] in E. rewrite Ed in E.
      apply read_digits_split in E as (a & -> & Ha).
      apply parse_exponent_split in H as (b & -> & Hb).
      exists (p :: d :: a ++ b). split.
      { simpl. rewrite <- app_assoc. reflexivity. }
      intros x y Hxy. cbn [app]. unfold parse_fraction. rewrite Ep, Ed.
      cbn [read_digits]. rewrite Ed.
      rewrite <- app_assoc.
      rewrite (Ha (b ++ x) y) by (rewrite Hxy, app_assoc; reflexivity).
      eapply Hb; eauto.
    + apply parse_exponent_split in H as (a & Hs & Ha).
      exists a. split; [exact Hs|].
      intros x y Hxy. specialize (Ha x y Hxy).
      destruct a as [|a0 a']; cbn [app] in *.
      * destruct x as [|c t]; [exact Ha|].
        rewrite <- Hs in Hxy. inversion Hxy; subst c.
        unfold parse_fraction. rewrite Ep. exact Ha.
      * inversion Hs; subst a0.
        unfold parse_fraction. rewrite Ep. exact Ha.
Qed.

Lemma parse_integer_split neg (s : jsstring) num r :
  parse_integer neg s = Some (num, r) ->
  exists d a, s = d :: a ++ r /\
    forall x y, r = x ++ y -> parse_integer neg (d :: a ++ x) = Some (num, x).
Proof.
  unfold parse_integer. intros H.
  destruct s as [|d s1]; [discriminate|].
  destruct (d =? code "0") eqn:E0.
  - apply parse_fraction_split in H as (a & -> & Ha).
    exists d, a. split; [reflexivity|].
    intros x y Hxy. rewrite E0. eapply Ha; eauto.
  - destruct (is_digit d) eqn:Ed; [|discriminate].
    destruct (read_digits (d :: s1) 0 0%Z) as [[m k] rest] eqn:E.
    cbn [read_digits] in E. rewrite Ed in E.
    apply read_digits_split in E as (a & -> & Ha).
    apply parse_fraction_split in H as (b & -> & Hb).
    exists d, (a ++ b). split.
    { rewrite <- app_assoc. reflexivity. }
    intros x y Hxy. rewrite E0, Ed. cbn [read_digits]. rewrite Ed.
    rewrite <- app_assoc.
    rewrite (Ha (b ++ x) y) by (rewrite Hxy, app_assoc; reflexivity).
    eapply Hb; eauto.
Qed.

Lemma parse_number_split (s : jsstring) num r :
  parse_number s = Some (num, r) ->
  exists c a, s = c :: a ++ r /\
    forall x y, r = x ++ y -> parse_number (c :: a ++ x) = Some (num, x).
Proof.
  unfold parse_number. intros H.
  destruct s as [|c s1]; [discriminate|].
  destruct (c =? code "-") eqn:Em;
    apply parse_integer_split in H as (d & a & Hs & Ha).
  - subst s1. exists c, (d :: a). split; [reflexivity|].
    intros x y Hxy. rewrite Em. eapply Ha; eauto.
  - inversion Hs; subst. exists d, a. split; [reflexivity|].
    intros x y Hxy. rewrite Em. eapply Ha; eauto.
Qed.

Ltac use_tests :=
  repeat match goal with
  | E : (_ =? _) = _ |- _ => rewrite E
  | E : (_ <? _) = _ |- _ => rewrite E
  | E : hex_value _ = _ |- _ => rewrite E
  | E : unescape _ = _ |- _ => rewrite E
  | E : is_digit _ = _ |- _ => rewrite E
  | E : (_ || _) = _ |- _ => rewrite E
  end.

Lemma parse_string_chars_split (s str r : jsstring) :
  parse_string_chars s = Some (str, r) ->
  exists a, s = a ++ r /\
    forall t, parse_string_chars (a ++ t) = Some (str, t).
Proof.
  remember (length s) as n eqn:Hn.
  revert s str r Hn.
  induction n as [n IH] using lt_wf_ind.
  intros s str r Hn H. subst n.
  destruct s as [|c s1]; simpl in H; [discriminate|].
  repeat (break_hyp H; try discriminate);
    inversion H; subst; clear H;
    try match goal with
    | E : parse_string_chars ?x = Some _ |- _ =>
        apply (IH (length x)) in E; [|simpl; lia|reflexivity];
        destruct E as (a & -> & Ha)
    end;
    match goal with
    | |- exists a, ?e = a ++ ?r /\ _ =>
        let p := prefix_of e r in exists p
    end;
    (split; [list_norm; reflexivity|]);
    intros t; list_norm; simpl; use_tests; rewrite ?Ha; reflexivity.
Qed.

Lemma cons_app_head (c d : N) (s a t : jsstring) :
  c :: s = a ++ d :: t -> c <> d -> exists a', a = c :: a'.
Proof.
  destruct a as [|a0 a']; simpl; intros H Hne; inversion H; subst.
  - contradiction.
  - eexists. reflexivity.
Qed.

Section ParseSplitStep.

Variable n : nat.

Hypothesis IHv : forall s v r,
  parse_value n s = Parsed v r -> reads_parsed (parse_value n) s v r.
Hypothesis IHe : forall s vs r,
  parse_elements n s = Parsed vs r -> reads_parsed (parse_elements n) s vs r.
Hypothesis IHm : forall s acc o r,
  parse_members n s acc = Parsed o r ->
  exists a, s = a ++ code "}" :: r /\
    forall x y, r = x ++ y ->
      parse_members n (a ++ code "}" :: x) acc = Parsed o x.

Lemma parse_value_split_step s v r :
  parse_value (S n) s = Parsed v r -> reads_parsed (parse_value (S n)) s v r.
Proof.
  intros H. simpl in H.
  destruct (skip_ws s) as [|c r0] eqn:Es; [discriminate|].
  apply skip_ws_split in Es as (w & -> & Hw & Hc & Hskip).
  destruct (c =? _) eqn:Eobj in H.
  { (* an object *)
    destruct (skip_ws r0) as [|c' r'] eqn:Es'; [discriminate|].
    apply skip_ws_split in Es' as (w' & -> & _ & _ & Hskip').
    destruct (c' =? _) eqn:Eclose in H.
    - inversion H; subst; clear H.
      exists (w ++ c :: w' ++ [c']). split; [list_norm; reflexivity|].
      intros x y _. list_norm. simpl.
      rewrite Hskip, Eobj, Hskip', Eclose. reflexivity.
    - unfold parsed_map in H.
      destruct (parse_members n (c' :: r') []) as [o rest| |] eqn:Em;
        try discriminate.
      inversion H; subst; clear H.
      apply IHm in Em as (a & Hs & Ha).
      destruct (cons_app_head _ _ _ _ _ Hs) as [a' ->].
      { intros ->. rewrite N.eqb_refl in Eclose. discriminate. }
      inversion Hs; subst; clear Hs.
      exists (w ++ c :: w' ++ c' :: a' ++ [code "}"]).
      split; [list_norm; reflexivity|].
      intros x y Hxy. list_norm. simpl.
      rewrite Hskip, Eobj, Hskip', Eclose.
      specialize (Ha x y Hxy). cbn [app] in Ha. simpl in Ha. rewrite Ha.
      reflexivity. }
  destruct (c =? _) eqn:Earr in H.
  { (* an array *)
    destruct (skip_ws r0) as [|c' r'] eqn:Es'; [discriminate|].
    apply skip_ws_split in Es' as (w' & -> & _ & _ & Hskip').
    destruct (c' =? _) eqn:Eclose in H.
    - inversion H; subst; clear H.
      exists (w ++ c :: w' ++ [c']). split; [list_norm; reflexivity|].
      intros x y _. list_norm. simpl.
      rewrite Hskip, Eobj, Earr, Hskip', Eclose. reflexivity.
    - unfold parsed_map in H.
      destruct (parse_elements n (c' :: r')) as [vs rest| |] eqn:Ee;
        try discriminate.
      inversion H; subst; clear H.
      pose proof (proj1 (proj2 (parse_lengths n)) _ _ _ Ee) as Hlen.
      apply IHe in Ee as (a & Hs & Ha).
      destruct a as [|a0 a'].
      { simpl in Hs. subst r. simpl in Hlen. lia. }
      inversion Hs; subst; clear Hs.
      exists (w ++ c :: w' ++ a0 :: a'). split; [list_norm; reflexivity|].
      intros x y Hxy. list_norm. simpl.
      rewrite Hskip, Eobj, Earr, Hskip', Eclose.
      specialize (Ha x y Hxy). cbn [app] in Ha. rewrite Ha.
      reflexivity. }
  destruct (c =? _) eqn:Estr in H.
  { (* a string *)
    destruct (parse_string_chars r0) as [[str rest]|] eqn:E; [|discriminate].
    inversion H; subst; clear H.
    apply parse_string_chars_split in E as (a & -> & Ha).
    exists (w ++ c :: a). split; [list_norm; reflexivity|].
    intros x y _. list_norm. simpl.
    rewrite Hskip, Eobj, Earr, Estr, Ha. reflexivity. }
  destruct ((c =? _) || is_digit c) eqn:Enum in H.
  { (* a number *)
    destruct (parse_number (c :: r0)) as [[num rest]|] eqn:E; [|discriminate].
    inversion H; subst; clear H.
    apply parse_number_split in E as (c0 & a & Hs & Ha).
    inversion Hs; subst; clear Hs.
    exists (w ++ c0 :: a). split; [list_norm; reflexivity|].
    intros x y Hxy. list_norm. simpl.
    rewrite Hskip, Eobj, Earr, Estr, Enum, (Ha x y Hxy). reflexivity. }
  (* a literal *)
  destruct (parse_literal (c :: r0)) as [[lv rest]|] eqn:E; [|discriminate].
  inversion H; subst; clear H.
  apply parse_literal_split in E as (c0 & a & Hs & Ha).
  inversion Hs; subst; clear Hs.
  exists (w ++ c0 :: a). split; [list_norm; reflexivity|].
  intros x y Hxy. list_norm. simpl.
  rewrite Hskip, Eobj, Earr, Estr, Enum, Ha. reflexivity.
Qed.

Lemma parse_elements_split_step s vs r :
  parse_elements (S n) s = Parsed vs r ->
  reads_parsed (parse_elements (S n)) s vs r.
Proof.
  intros H. simpl in H.
  destruct (parse_value n s) as [v r1| |] eqn:Ev; try discriminate.
  apply IHv in Ev as (a & -> & Ha).
  destruct (skip_ws r1) as [|c r2] eqn:Es; [discriminate|].
  apply skip_ws_split in Es as (w & -> & _ & _ & Hskip).
  destruct (c =? _) eqn:Ecomma in H.
  - unfold parsed_map in H.
    destruct (parse_elements n r2) as [vs' r3| |] eqn:Ee; try discriminate.
    inversion H; subst; clear H.
    apply IHe in Ee as (b & -> & Hb).
    exists (a ++ w ++ c :: b). split; [list_norm; reflexivity|].
    intros x y Hxy. list_norm. simpl.
    rewrite (Ha (w ++ c :: b ++ x) y) by (rewrite Hxy; list_norm; reflexivity).
    rewrite Hskip, Ecomma. unfold parsed_map.
    rewrite (Hb x y Hxy). reflexivity.
  - destruct (c =? _) eqn:Eclose in H; [|discriminate].
    inversion H; subst; clear H.
    exists (a ++ w ++ [c]). split; [list_norm; reflexivity|].
    intros x y Hxy. list_norm. simpl.
    rewrite (Ha (w ++ c :: x) y) by (rewrite Hxy; list_norm; reflexivity).
    rewrite Hskip, Ecomma, Eclose. reflexivity.
Qed.

Lemma parse_members_split_step s acc o r :
  parse_members (S n) s acc = Parsed o r ->
  exists a, s = a ++ code "}" :: r /\
    forall x y, r = x ++ y ->
      parse_members (S n) (a ++ code "}" :: x) acc = Parsed o x.
Proof.
  intros H. simpl in H.
  destruct (skip_ws s) as [|q r0] eqn:Es; [discriminate|].
  apply skip_ws_split in Es as (w & -> & _ & _ & Hskip).
  destruct (q =? _) eqn:Eq in H; [|discriminate].
  destruct (parse_string_chars r0) as [[k r1]|] eqn:Ek; [|discriminate].
  apply parse_string_chars_split in Ek as (ak & -> & Hk).
  destruct (skip_ws r1) as [|colon r2] eqn:Es1; [discriminate|].
  apply skip_ws_split in Es1 as (w1 & -> & _ & _ & Hskip1).
  destruct (colon =? _) eqn:Ecolon in H; [|discriminate].
  destruct (parse_value n r2) as [v r3| |] eqn:Ev; try discriminate.
  apply IHv in Ev as (av & -> & Hv).
  destruct (skip_ws r3) as [|c r4] eqn:Es3; [discriminate|].
  apply skip_ws_split in Es3 as (w3 & -> & _ & _ & Hskip3).
  destruct (c =? _) eqn:Ecomma in H.
  - apply IHm in H as (b & -> & Hb).
    exists (w ++ q :: ak ++ w1 ++ colon :: av ++ w3 ++ c :: b).
    split; [list_norm; reflexivity|].
    intros x y Hxy. list_norm. simpl.
    rewrite Hskip, Eq, Hk, Hskip1, Ecolon.
    rewrite (Hv (w3 ++ c :: b ++ 125 :: x) y)
      by (rewrite Hxy; list_norm; reflexivity).
    rewrite Hskip3, Ecomma. simpl in Hb. apply (Hb x y Hxy).
  - destruct (c =? _) eqn:Eclose in H; [|discriminate].
    inversion H; subst; clear H.
    apply N.eqb_eq in Eclose as Hc. subst c.
    exists (w ++ q :: ak ++ w1 ++ colon :: av ++ w3).
    split; [list_norm; reflexivity|].
    intros x y Hxy. list_norm. simpl.
    rewrite Hskip, Eq, Hk, Hskip1, Ecolon.
    rewrite (Hv (w3 ++ 125 :: x) y) by (rewrite Hxy; list_norm; reflexivity).
    rewrite Hskip3. reflexivity.
Qed.

End ParseSplitStep.

(** A successful parse reads a prefix of its input, and reads the same
    from any input that keeps this prefix and cuts what follows it. *)
Lemma parse_split (n : nat) :
  (forall s v r,
     parse_value n s = Parsed v r -> reads_parsed (parse_value n) s v r) /\
  (forall s vs r,
     parse_elements n s = Parsed vs r ->
     reads_parsed (parse_elements n) s vs r) /\
  (forall s acc o r,
     parse_members n s acc = Parsed o r ->
     exists a, s = a ++ code "}" :: r /\
       forall x y, r = x ++ y ->
         parse_members n (a ++ code "}" :: x) acc = Parsed o x).
Proof.
  induction n as [|n (IHv & IHe & IHm)].
  - repeat split; intros; discriminate.
  - split; [|split].
    + apply parse_value_split_step; assumption.
    + apply parse_elements_split_step; assumption.
    + apply parse_members_split_step; assumption.
Qed.


(* ===================================================================== *)
(** * The cleaning of a reply that is the JSON text of an object *)
(* ===================================================================== *)

(** ** String operations on a text between braces *)

Lemma json_ws_is_white_space (c : N) :
  is_json_ws c = true -> is_white_space c = true.
Proof.
  unfold is_json_ws, is_white_space. intros H.
  repeat (apply orb_true_iff in H as [H|H]);
    apply N.eqb_eq in H; subst c; reflexivity.
Qed.

Lemma skip_ws_nil_app (w t : jsstring) :
  skip_ws w = [] -> skip_ws (w ++ t) = skip_ws t.
Proof.
  induction w as [|c w IH]; simpl; intros H; [reflexivity|].
  destruct (is_json_ws c); [apply IH; exact H|discriminate].
Qed.

Lemma trimStart_ws_app (w t : jsstring) :
  skip_ws w = [] -> trimStart (w ++ t) = trimStart t.
Proof.
  induction w as [|c w IH]; simpl; intros H; [reflexivity|].
  destruct (is_json_ws c) eqn:E; [|discriminate].
  rewrite (json_ws_is_white_space c E). apply IH. exact H.
Qed.

Lemma trimEnd_snoc (u : jsstring) (c : N) :
  is_white_space c = false -> trimEnd (u ++ [c]) = u ++ [c].
Proof.
  intros Hc. induction u as [|x u IH]; simpl.
  - rewrite Hc. reflexivity.
  - rewrite IH. destruct (u ++ [c]) eqn:E; [|reflexivity].
    apply app_eq_nil in E as [_ E]. discriminate.
Qed.

Lemma trimEnd_app_ws (t w : jsstring) :
  skip_ws w = [] -> trimEnd w = [] /\ trimEnd (t ++ w) = trimEnd t.
Proof.
  intros Hw.
  assert (Hnil : trimEnd w = []).
  { induction w as [|c w IH]; simpl in *; [reflexivity|].
    destruct (is_json_ws c) eqn:E; [|discriminate].
    rewrite (IH Hw), (json_ws_is_white_space c E). reflexivity. }
  split; [exact Hnil|].
  induction t as [|x t IH]; simpl; [exact Hnil|].
  rewrite IH. reflexivity.
Qed.

Lemma upto_last_snoc (c : N) (u : jsstring) :
  upto_last c (u ++ [c]) = u ++ [c].
Proof.
  induction u as [|x u IH]; simpl.
  - rewrite N.eqb_refl. reflexivity.
  - rewrite IH. destruct (u ++ [c]) eqn:E; [|reflexivity].
    apply app_eq_nil in E as [_ E]. discriminate.
Qed.

(** Cleaning leaves a text between braces as it is, and removes the JSON
    white space around it. *)
Lemma extract_json_braces (w mid w' : jsstring) :
  skip_ws w = [] -> skip_ws w' = [] ->
  extract_json (w ++ (code "{" :: mid ++ [code "}"]) ++ w')
  = code "{" :: mid ++ [code "}"].
Proof.
  intros Hw Hw'. unfold extract_json, trim.
  rewrite (trimStart_ws_app _ _ Hw).
  change (trimStart ((code "{" :: mid ++ [code "}"]) ++ w'))
    with ((code "{" :: mid ++ [code "}"]) ++ w').
  rewrite (proj2 (trimEnd_app_ws _ _ Hw')).
  rewrite app_comm_cons, trimEnd_snoc by reflexivity.
  cbn [app]. unfold strip_fence.
  change (startsWith (lit "```json") (code "{" :: mid ++ [code "}"]))
    with false.
  change (startsWith (lit "```") (code "{" :: mid ++ [code "}"])) with false.
  cbv iota. unfold match_braces. cbn [from_first].
  change (code "{" =? code "{") with true. cbv iota.
  rewrite upto_last_snoc.
  destruct (mid ++ [code "}"]) eqn:E; [|reflexivity].
  apply app_eq_nil in E as [_ E]. discriminate.
Qed.

(** ** A text that denotes an object *)

Lemma parse_value_skip_ws (n : nat) (w t : jsstring) :
  skip_ws w = [] -> parse_value n (w ++ t) = parse_value n t.
Proof.
  intros Hw. destruct n; simpl; [reflexivity|].
  rewrite (skip_ws_nil_app _ _ Hw). reflexivity.
Qed.

(** The text read for an object starts, after white space, with an opening
    brace and ends with a closing brace. *)
Lemma parse_object_shape (n : nat) (s : jsstring) o r :
  parse_value n s = Parsed (JObject o) r ->
  exists w mid,
    s = w ++ (code "{" :: mid ++ [code "}"]) ++ r /\ skip_ws w = [].
Proof.
  intros H. destruct n; simpl in H; [discriminate|].
  destruct (skip_ws s) as [|c r0] eqn:Es; [discriminate|].
  apply skip_ws_split in Es as (w & -> & Hw & Hc & Hskip).
  destruct (c =? _) eqn:Eobj in H.
  - apply N.eqb_eq in Eobj. subst c.
    destruct (skip_ws r0) as [|c' r'] eqn:Es'; [discriminate|].
    apply skip_ws_split in Es' as (w' & -> & _ & _ & Hskip').
    destruct (c' =? _) eqn:Eclose in H.
    + apply N.eqb_eq in Eclose. subst c'. inversion H; subst.
      exists w, w'. split; [list_norm; reflexivity|exact Hw].
    + unfold parsed_map in H.
      destruct (parse_members n (c' :: r') []) as [o' rest| |] eqn:Em;
        try discriminate.
      inversion H; subst; clear H.
      apply (proj2 (proj2 (parse_split n))) in Em as (a & Hs & _).
      exists w, (w' ++ a). split; [|exact Hw].
      rewrite Hs. list_norm. reflexivity.
  - exfalso. unfold parsed_map in H.
    repeat (break_hyp H; try discriminate).
    match goal with
    | E : parse_literal _ = Some _ |- _ =>
        unfold parse_literal in E;
        repeat (break_hyp E; try discriminate);
        inversion E; subst; discriminate
    end.
Qed.

(** A reply that is, as a whole, the JSON text of an object goes through
    the cleaning unharmed: the cleaned text denotes the same object. *)
Lemma JSON_parse_extract_json (reply : jsstring) o :
  JSON_parse reply = Some (JObject o) ->
  JSON_parse (extract_json reply) = Some (JObject o).
Proof.
  unfold JSON_parse at 1. intros H.
  destruct (parse_value (S (2 * length reply)) reply) as [v rest| |] eqn:E;
    try discriminate.
  destruct (skip_ws rest) eqn:Hrest; [|discriminate].
  inversion H; subst v; clear H.
  destruct (parse_object_shape _ _ _ _ E) as (w & mid & Hs & Hw).
  destruct (proj1 (parse_split _) _ _ _ E) as (a & Ha & Hcut).
  assert (a = w ++ code "{" :: mid ++ [code "}"]) as ->.
  { apply (app_inv_tail rest). rewrite <- Ha, Hs. list_norm. reflexivity. }
  rewrite Hs, extract_json_braces by assumption.
  specialize (Hcut [] rest eq_refl). rewrite app_nil_r in Hcut.
  rewrite parse_value_skip_ws in Hcut by exact Hw.
  unfold JSON_parse.
  pose proof (JSON_parse_fuel (code "{" :: mid ++ [code "}"])) as Hfuel.
  assert (Hlen : (S (2 * length (code "{" :: mid ++ [code "}"]))
                  <= S (2 * length reply))%nat).
  { rewrite Hs. rewrite !length_app. lia. }
  rewrite <- (proj1 (parse_mono _ _ Hlen) _ Hfuel).
  rewrite Hcut. reflexivity.
Qed.

(** ** What [JSON.parse] never yields *)

Lemma parse_literal_defined (s : jsstring) v r :
  parse_literal s = Some (v, r) -> v <> JUndefined.
Proof.
  unfold parse_literal. intros H.
  repeat (break_hyp H; try discriminate); inversion H; subst; discriminate.
Qed.

Lemma JSON_parse_defined (text : jsstring) (v : value) :
  JSON_parse text = Some v -> v <> JUndefined.
Proof.
  unfold JSON_parse. intros H.
  destruct (parse_value (S (2 * length text)) text) as [v' rest| |] eqn:E;
    try discriminate.
  destruct (skip_ws rest); [|discriminate].
  inversion H; subst v'; clear H.
  cbn [parse_value] in E. unfold parsed_map in E.
  repeat (break_hyp E; try discriminate);
    inversion E; subst; try discriminate.
  eapply parse_literal_defined; eassumption.
Qed.

(** ** What is served for a value *)


(** Serving keeps a truthy value truthy, but for a number that is not
    finite, served as [null]. *)
Lemma served_truthy (v : value) :
  ToBoolean v = true ->
  ToBoolean (served v) = true
  \/ exists n, v = JNumber n /\ number_is_finite n = false
                /\ served v = JNull.
Proof.
  destruct v; cbn [served ToBoolean]; intros H; try (left; exact H);
    try (left; reflexivity).
  apply negb_true_iff in H. rewrite H.
  destruct (number_is_finite n) eqn:E.
  - left. cbn [ToBoolean]. rewrite H. reflexivity.
  - right. exists n. auto.
Qed.

Lemma served_CorrectionResponse (correctedCode explanation : value)
    (issues : list value) :
  correctedCode <> JUndefined -> explanation <> JUndefined ->
  served (CorrectionResponse correctedCode explanation (JArray issues))
  = CorrectionResponse (served correctedCode) (served explanation)
      (JArray (List.map served_element issues)).
Proof.
  intros Hcc Hex.
  destruct correctedCode; try contradiction;
    destruct explanation; try contradiction; reflexivity.
Qed.

(** A text that [JSON.parse] accepts does not start with a byte order
    mark. *)
Lemma JSON_parse_without_BOM (text : jsstring) (v : value) :
  JSON_parse text = Some v -> without_BOM text = text.
Proof.
  intros H. destruct text as [|c s]; [reflexivity|].
  unfold without_BOM. destruct (c =? BOM) eqn:E; [|reflexivity].
  apply N.eqb_eq in E. subst c. exfalso.
  unfold JSON_parse in H. cbn [parse_value] in H.
  change (skip_ws (BOM :: s)) with (BOM :: s) in H.
  change (BOM =? code "{") with false in H.
  change (BOM =? code "[") with false in H.
  change (BOM =? DQUOTE) with false in H.
  change ((BOM =? code "-") || is_digit BOM) with false in H.
  cbv iota in H. unfold parse_literal in H. cbn [startsWith] in H.
  change (code "t" =? BOM) with false in H.
  change (code "f" =? BOM) with false in H.
  change (code "n" =? BOM) with false in H.
  cbn [andb] in H. discriminate.
Qed.

(* ===================================================================== *)
(** * The paths through the handler *)
(* ===================================================================== *)

Local Open Scope js_scope.

Section HandlerFacts.

Variable rt : Runtime.

Lemma template_silent (v : value) : snd (template rt v) = [].
Proof. unfold template. destruct (ToString rt v); reflexivity. Qed.

Lemma bind_silent {A B : Type} (m : M A) (k : A -> M B) :
  snd m = [] -> (forall a, snd (k a) = []) -> snd (bind m k) = [].
Proof.
  intros Hm Hk. destruct m as [[a|e] t]; simpl in *; subst t.
  - specialize (Hk a). destruct (k a) as [r t']. simpl in *. exact Hk.
  - reflexivity.
Qed.

Ltac silent :=
  repeat first
    [ reflexivity
    | apply template_silent
    | apply bind_silent; [|intros]
    | match goal with
      | |- context [match ?x with _ => _ end] => destruct x
      | |- context [if ?x then _ else _] => destruct x
      end ].

Lemma build_prompt_silent code language description :
  snd (build_prompt rt code language description) = [].
Proof. unfold build_prompt. silent. Qed.

(** Nothing is observable before the provider is called: no event is
    emitted by the steps that precede the call. *)
Lemma before_provider_silent env request :
  snd (before_provider rt env request) = [].
Proof.
  unfold before_provider, request_json, get_or_throw, validate_code,
    type_error, throw, ret.
  destruct (negb (ToBoolean (env_value (GROQ_API_KEY env)))); [reflexivity|].
  repeat (apply bind_silent; [|intros]);
    repeat match goal with
    | |- context [match ?x with _ => _ end] => destruct x
    | |- context [if ?x then _ else _] => destruct x
    end; try reflexivity;
    (apply bind_silent; [apply build_prompt_silent|reflexivity]).
Qed.

Lemma validate_code_accepts (v : value) code t :
  validate_code rt v = (Returned (Some code), t) ->
  v = JString code /\ trim code <> [].
Proof.
  unfold validate_code, type_error, throw, ret. intros H.
  destruct (negb (ToBoolean v)); [discriminate|].
  destruct v; try discriminate.
  destruct (trim s) eqn:E; simpl in H; [discriminate|].
  inversion H; subst. split; [reflexivity|]. rewrite E. discriminate.
Qed.

Lemma bind_returned {A B : Type} (m : M A) (k : A -> M B) b t :
  bind m k = (Returned b, t) ->
  exists a t1 t2,
    m = (Returned a, t1) /\ k a = (Returned b, t2) /\ t = t1 ++ t2.
Proof.
  destruct m as [[a|e] t1]; simpl; [|discriminate].
  destruct (k a) as [r t2] eqn:E. intros H. inversion H; subst.
  exists a, t1, t2. auto.
Qed.

Ltac bind_inv H :=
  let a := fresh "a" in
  let t1 := fresh "t" in
  let t2 := fresh "t" in
  let H1 := fresh "Hstep" in
  let Ht := fresh "Ht" in
  apply bind_returned in H as (a & t1 & t2 & H1 & H & Ht).

(** A request that reaches the provider carries a code that is a string
    with more than white space in it. *)
Lemma before_provider_accepts env request code prompt t :
  before_provider rt env request = (Returned (inr (code, prompt)), t) ->
  trim code <> [].
Proof.
  unfold before_provider. intros H.
  destruct (negb (ToBoolean (env_value (GROQ_API_KEY env))));
    [discriminate|].
  do 5 bind_inv H.
  destruct a3 as [code'|]; [|discriminate].
  bind_inv H. inversion H; subst.
  apply validate_code_accepts in Hstep3 as [_ Hcode]. exact Hcode.
Qed.

(** An early response is an error response. *)
Lemma before_provider_early env request early t :
  before_provider rt env request = (Returned (inl early), t) ->
  status early = 500 \/ status early = 400.
Proof.
  unfold before_provider. intros H.
  destruct (negb (ToBoolean (env_value (GROQ_API_KEY env)))).
  - inversion H; subst. left. reflexivity.
  - do 5 bind_inv H.
    destruct a3 as [code'|].
    + bind_inv H. discriminate.
    + inversion H; subst. right. reflexivity.
Qed.

Lemma classify_status (e : thrown) :
  status (classify e) = 401 \/ status (classify e) = 429
  \/ status (classify e) = 504 \/ status (classify e) = 500.
Proof.
  unfold classify. destruct e as [name msg|v]; [|auto].
  repeat break_goal; auto.
Qed.

(** ** The paths through the handler *)

Lemma POST_early env request provider early :
  before_provider rt env request = (Returned (inl early), []) ->
  POST rt env request provider = (Returned early, []).
Proof.
  intros H. unfold POST, POST_try. rewrite H. reflexivity.
Qed.

Lemma POST_throws_early env request provider e :
  before_provider rt env request = (Thrown e, []) ->
  POST rt env request provider = (Returned (classify e), [api_error_log e]).
Proof.
  intros H. unfold POST, POST_try. rewrite H. reflexivity.
Qed.

Lemma POST_provider_throws env request provider code prompt e :
  before_provider rt env request = (Returned (inr (code, prompt)), []) ->
  provider (chat_request prompt) = Thrown e ->
  POST rt env request provider
  = (Returned (classify e),
     [ProviderCall (chat_request prompt); api_error_log e]).
Proof.
  intros H Hp. unfold POST, POST_try. rewrite H.
  unfold bind, call_provider. rewrite Hp. reflexivity.
Qed.

Lemma POST_provider_returns env request provider code prompt completion :
  before_provider rt env request = (Returned (inr (code, prompt)), []) ->
  provider (chat_request prompt) = Returned completion ->
  POST rt env request provider
  = let reply := responseText_of completion in
    let head := [ProviderCall (chat_request prompt); raw_response_log reply] in
    match normalize rt code reply with
    | (Returned resp, t) => (Returned resp, head ++ t)
    | (Thrown e, t) => (Returned (classify e), head ++ t ++ [api_error_log e])
    end.
Proof.
  intros H Hp. unfold POST, POST_try. rewrite H.
  unfold bind at 1. unfold call_provider. rewrite Hp.
  unfold after_provider, bind, console_log, emit.
  destruct (normalize rt code (responseText_of completion)) as [[resp|e] t];
    reflexivity.
Qed.

(** ** The three results of the normaliser *)

Lemma normalize_unparseable code reply :
  JSON_parse (extract_json reply) = None ->
  fst (normalize rt code reply) = Returned (fallback_response code reply).
Proof.
  intros H. unfold normalize. rewrite H. reflexivity.
Qed.

Lemma normalize_object code reply o :
  JSON_parse (extract_json reply) = Some (JObject o) ->
  fst (normalize rt code reply)
  = Returned (if ToBoolean (obj_get (lit "correctedCode") o)
              then validated_response o
              else missing_code_response code).
Proof.
  intros H. unfold normalize. rewrite H.
  unfold get_or_throw. cbn [Get]. unfold bind at 1. cbn [ret].
  destruct (ToBoolean (obj_get (lit "correctedCode") o)); reflexivity.
Qed.

End HandlerFacts.

(** ** The text of a correction result is read back *)

Lemma hex_value_digit (k : N) : k < 16 -> hex_value (hex_digit k) = Some k.
Proof.
  intros H. unfold hex_digit, hex_value, is_digit.
  destruct (N.ltb_spec k 10);
    repeat match goal with
    | |- context [?a <=? ?b] => destruct (N.leb_spec a b)
    end; cbn [andb]; try lia; f_equal; lia.
Qed.

Lemma parse_unicode_escape (c : N) (s : jsstring) :
  c < 65536 ->
  parse_string_chars (unicode_escape c ++ s)
  = match parse_string_chars s with
    | Some (str, rest) => Some (c :: str, rest)
    | None => None
    end.
Proof.
  intros Hc. unfold unicode_escape. cbn [app parse_string_chars].
  change (BACKSLASH =? DQUOTE) with false.
  change (BACKSLASH =? BACKSLASH) with true.
  change (code "u" =? code "u") with true. cbv iota.
  assert (H1 : c / 4096 < 16) by (apply N.Div0.div_lt_upper_bound; lia).
  assert (H2 : (c / 256) mod 16 < 16) by (apply N.mod_lt; lia).
  assert (H3 : (c / 16) mod 16 < 16) by (apply N.mod_lt; lia).
  assert (H4 : c mod 16 < 16) by (apply N.mod_lt; lia).
  rewrite !hex_value_digit by assumption.
  assert (E : ((c / 4096 * 16 + (c / 256) mod 16) * 16 + (c / 16) mod 16) * 16
              + c mod 16 = c).
  { pose proof (N.div_mod c 16 ltac:(lia)) as D1.
    pose proof (N.div_mod (c / 16) 16 ltac:(lia)) as D2.
    pose proof (N.div_mod (c / 256) 16 ltac:(lia)) as D3.
    assert (Q2 : c / 16 / 16 = c / 256)
      by (rewrite N.Div0.div_div; reflexivity).
    assert (Q3 : c / 256 / 16 = c / 4096)
      by (rewrite N.Div0.div_div; reflexivity).
    rewrite Q2 in D2. rewrite Q3 in D3. lia. }
  rewrite E. reflexivity.
Qed.

Lemma parse_plain_unit (c : N) (s : jsstring) :
  32 <= c -> c <> DQUOTE -> c <> BACKSLASH ->
  parse_string_chars (c :: s) = cons_parsed c (parse_string_chars s).
Proof.
  intros H32 Hq Hb. cbn [parse_string_chars].
  apply N.eqb_neq in Hq, Hb. rewrite Hq, Hb.
  apply N.ltb_ge in H32. rewrite H32. reflexivity.
Qed.

Lemma parse_quote_unit (c : N) (s : jsstring) :
  parse_string_chars (quote_unit c ++ s)
  = cons_parsed c (parse_string_chars s).
Proof.
  unfold quote_unit.
  repeat match goal with
  | |- context [if ?x =? ?k then _ else _] =>
      destruct (N.eqb_spec x k) as [->|?]; [reflexivity|]
  end.
  destruct ((c <? 32) || is_high_surrogate c || is_low_surrogate c) eqn:E.
  - apply parse_unicode_escape.
    unfold is_high_surrogate, is_low_surrogate in E.
    repeat (apply orb_true_iff in E as [E|E]).
    + apply N.ltb_lt in E. lia.
    + apply andb_true_iff in E as [_ E]. apply N.leb_le in E. lia.
    + apply andb_true_iff in E as [_ E]. apply N.leb_le in E. lia.
  - apply orb_false_iff in E as [E _]. apply orb_false_iff in E as [E _].
    apply N.ltb_ge in E. apply parse_plain_unit; assumption.
Qed.

Lemma parse_quote_units (s rest : jsstring) :
  parse_string_chars (quote_units s ++ DQUOTE :: rest) = Some (s, rest).
Proof.
  remember (length s) as n eqn:Hn. revert s Hn.
  induction n as [n IH] using lt_wf_ind. intros s Hn. subst n.
  destruct s as [|c s']; [reflexivity|].
  cbn [quote_units].
  destruct (is_high_surrogate c) eqn:Eh.
  - assert (Hc : 55296 <= c /\ c < 65536).
    { unfold is_high_surrogate in Eh. apply andb_true_iff in Eh as [E1 E2].
      apply N.leb_le in E1, E2. lia. }
    destruct s' as [|d s''].
    + rewrite parse_unicode_escape by lia. reflexivity.
    + destruct (is_low_surrogate d) eqn:El.
      * assert (Hd : 56320 <= d).
        { unfold is_low_surrogate in El. apply andb_true_iff in El as [E1 _].
          apply N.leb_le in E1. exact E1. }
        cbn [app].
        rewrite parse_plain_unit
          by (unfold DQUOTE, BACKSLASH; lia).
        rewrite parse_plain_unit
          by (unfold DQUOTE, BACKSLASH; lia).
        rewrite (IH (length s'')); [reflexivity|simpl; lia|reflexivity].
      * rewrite <- app_assoc, parse_unicode_escape by lia.
        rewrite (IH (length (d :: s''))); [reflexivity|simpl; lia|reflexivity].
  - rewrite <- app_assoc, parse_quote_unit.
    rewrite (IH (length s')); [reflexivity|simpl; lia|reflexivity].
Qed.

(** A quoted string is read back as the string. *)
Lemma parse_value_quoted (n : nat) (s rest : jsstring) :
  parse_value (S n) (QuoteJSONString s ++ rest) = Parsed (JString s) rest.
Proof.
  unfold QuoteJSONString. cbn [app parse_value skip_ws].
  change (is_json_ws DQUOTE) with false. cbv iota.
  change (DQUOTE =? code "{") with false.
  change (DQUOTE =? code "[") with false.
  change (DQUOTE =? DQUOTE) with true. cbv iota.
  rewrite <- app_assoc. cbn [app].
  rewrite parse_quote_units. reflexivity.
Qed.

Lemma parse_elements_strings (l : list jsstring) :
  forall n rest, l <> [] -> (length l < n)%nat ->
    parse_elements n (stringify_strings l ++ code "]" :: rest)
    = Parsed (List.map JString l) rest.
Proof.
  induction l as [|x l IH]; intros n rest Hl Hn; [contradiction|].
  destruct n as [|n]; [simpl in Hn; lia|].
  cbn [parse_elements].
  destruct n as [|n]; [simpl in Hn; lia|].
  destruct l as [|y l].
  - cbn [stringify_strings].
    rewrite parse_value_quoted. cbn [skip_ws].
    reflexivity.
  - change (stringify_strings (x :: y :: l))
      with (QuoteJSONString x ++ code "," :: stringify_strings (y :: l)).
    rewrite <- app_assoc.
    rewrite parse_value_quoted. cbn [app skip_ws].
    change (is_json_ws (code ",")) with false. cbv iota.
    change (code "," =? code ",") with true. cbv iota.
    rewrite IH; [reflexivity|discriminate|simpl in *; lia].
Qed.

Lemma parse_members_step (n : nat) (k : jsstring) (v : value)
    (text rest : jsstring) (c : N) (acc : list (jsstring * value)) :
  parse_value n (text ++ c :: rest) = Parsed v (c :: rest) ->
  is_json_ws c = false ->
  parse_members (S n)
    (QuoteJSONString k ++ code ":" :: text ++ c :: rest) acc
  = if c =? code "," then parse_members n rest (obj_set k v acc)
    else if c =? code "}" then Parsed (obj_set k v acc) rest
    else Invalid.
Proof.
  intros Hv Hc. unfold QuoteJSONString.
  cbn [app parse_members skip_ws].
  change (is_json_ws DQUOTE) with false. cbv iota.
  change (DQUOTE =? DQUOTE) with true. cbv iota.
  rewrite <- app_assoc. cbn [app]. rewrite parse_quote_units.
  cbn [skip_ws]. change (is_json_ws (code ":")) with false. cbv iota.
  change (code ":" =? code ":") with true. cbv iota.
  rewrite Hv. cbn [skip_ws]. rewrite Hc. reflexivity.
Qed.

Lemma parse_value_strings (n : nat) (l : list jsstring) (rest : jsstring) :
  (length l < n)%nat ->
  parse_value (S n)
    (code "[" :: stringify_strings l ++ code "]" :: rest)
  = Parsed (JArray (List.map JString l)) rest.
Proof.
  intros Hn. cbn [parse_value skip_ws].
  change (is_json_ws (code "[")) with false. cbv iota.
  change (code "[" =? code "{") with false.
  change (code "[" =? code "[") with true. cbv iota.
  destruct l as [|x l].
  - reflexivity.
  - assert (Hhead : exists t, stringify_strings (x :: l) = DQUOTE :: t).
    { destruct l; eexists; reflexivity. }
    destruct Hhead as [t Ht].
    pose proof (parse_elements_strings (x :: l) n rest ltac:(discriminate) Hn)
      as He.
    rewrite Ht in *. cbn [app skip_ws].
    change (is_json_ws DQUOTE) with false. cbv iota.
    change (DQUOTE =? code "]") with false. cbv iota.
    cbn [app] in He. rewrite He. reflexivity.
Qed.

Lemma parse_members_result (n : nat) (cc ex : jsstring)
    (iss : list jsstring) (rest : jsstring) :
  (length iss < n)%nat ->
  parse_members (S (S (S (S n))))
    (QuoteJSONString (lit "correctedCode") ++ code ":" ::
     QuoteJSONString cc ++ code "," ::
     QuoteJSONString (lit "explanation") ++ code ":" ::
     QuoteJSONString ex ++ code "," ::
     QuoteJSONString (lit "issues") ++ code ":" ::
     (code "[" :: stringify_strings iss ++ [code "]"]) ++ code "}" :: rest)
    []
  = Parsed [ (lit "correctedCode", JString cc);
             (lit "explanation", JString ex);
             (lit "issues", JArray (List.map JString iss)) ]
      rest.
Proof.
  intros Hn.
  rewrite (parse_members_step _ _ (JString cc))
    by (try apply parse_value_quoted; reflexivity).
  change (code "," =? code ",") with true. cbv iota.
  rewrite (parse_members_step _ _ (JString ex))
    by (try apply parse_value_quoted; reflexivity).
  change (code "," =? code ",") with true. cbv iota.
  rewrite (parse_members_step _ _ (JArray (List.map JString iss))).
  - reflexivity.
  - cbn [app]. rewrite <- app_assoc. cbn [app].
    apply parse_value_strings. exact Hn.
  - reflexivity.
Qed.

Lemma stringify_result_shape (r : CorrectionResult) :
  stringify_result r
  = code "{" ::
    (QuoteJSONString (lit "correctedCode") ++ code ":" ::
     QuoteJSONString (result_correctedCode r) ++ code "," ::
     QuoteJSONString (lit "explanation") ++ code ":" ::
     QuoteJSONString (result_explanation r) ++ code "," ::
     QuoteJSONString (lit "issues") ++ code ":" ::
     (code "[" :: stringify_strings (result_issues r) ++ [code "]"])
     ++ code "}" :: []).
Proof.
  unfold stringify_result.
  change (lit "{") with [code "{"]. change (lit ":") with [code ":"].
  change (lit ",") with [code ","].
  change (lit ":[") with [code ":"; code "["].
  change (lit "]}") with [code "]"; code "}"].
  cbn [app]. list_norm. reflexivity.
Qed.

Lemma parse_value_object (n : nat) (k tail : jsstring) :
  parse_value (S n) (code "{" :: QuoteJSONString k ++ tail)
  = parsed_map JObject (parse_members n (QuoteJSONString k ++ tail) []).
Proof.
  unfold QuoteJSONString. cbn [app parse_value skip_ws].
  change (is_json_ws (code "{")) with false. cbv iota.
  change (code "{" =? code "{") with true. cbv iota.
  change (is_json_ws DQUOTE) with false. cbv iota.
  change (DQUOTE =? code "}") with false. cbv iota.
  reflexivity.
Qed.

Lemma QuoteJSONString_length (s : jsstring) :
  (2 <= length (QuoteJSONString s))%nat.
Proof.
  unfold QuoteJSONString. simpl. rewrite length_app. simpl. lia.
Qed.

Lemma stringify_strings_length (l : list jsstring) :
  (length l <= length (stringify_strings l))%nat.
Proof.
  induction l as [|x l IH]; [simpl; lia|].
  pose proof (QuoteJSONString_length x).
  destruct l as [|y l]; [simpl in *; lia|].
  change (stringify_strings (x :: y :: l))
    with (QuoteJSONString x ++ code "," :: stringify_strings (y :: l)).
  rewrite length_app. simpl in *. lia.
Qed.

(** The text written for a result is read back as the object with its
    three fields. *)
Lemma JSON_parse_stringify_result (r : CorrectionResult) :
  JSON_parse (stringify_result r) = Some (JObject
    [ (lit "correctedCode", JString (result_correctedCode r));
      (lit "explanation", JString (result_explanation r));
      (lit "issues", JArray (List.map JString (result_issues r))) ]).
Proof.
  set (n := S (length (result_issues r))).
  assert (Hrun : parse_value (S (S (S (S (S n))))) (stringify_result r)
    = Parsed (JObject
        [ (lit "correctedCode", JString (result_correctedCode r));
          (lit "explanation", JString (result_explanation r));
          (lit "issues", JArray (List.map JString (result_issues r))) ]) []).
  { rewrite stringify_result_shape, parse_value_object.
    rewrite parse_members_result by (unfold n; lia). reflexivity. }
  assert (Hfuel : (S (S (S (S (S n))))
                   <= S (2 * length (stringify_result r)))%nat).
  { rewrite stringify_result_shape. unfold n. cbn [length].
    repeat (rewrite length_app; cbn [length]).
    pose proof (stringify_strings_length (result_issues r)). lia. }
  unfold JSON_parse.
  rewrite (proj1 (parse_mono _ _ Hfuel) (stringify_result r))
    by (rewrite Hrun; discriminate).
  rewrite Hrun. reflexivity.
Qed.

(** ** The cleaning of a reply inside a markdown fence *)

Lemma trimStart_app_stop (p q : jsstring) (c : N) :
  is_white_space c = false ->
  trimStart (p ++ c :: q) = trimStart p ++ c :: q.
Proof.
  intros Hc. induction p as [|x p IH]; simpl.
  - rewrite Hc. reflexivity.
  - destruct (is_white_space x); [exact IH|reflexivity].
Qed.

Lemma trimStart_incl (p : jsstring) (c : N) :
  ~ In c p -> ~ In c (trimStart p).
Proof.
  induction p as [|x p IH]; simpl; [auto|].
  intros H. destruct (is_white_space x).
  - apply IH. intros Hin. apply H. right. exact Hin.
  - exact H.
Qed.

Lemma endsWith_app (x p : jsstring) : endsWith p (x ++ p) = true.
Proof.
  unfold endsWith. rewrite rev_app_distr. apply startsWith_app.
Qed.

Lemma firstn_app_exact (x p : jsstring) :
  firstn (length (x ++ p) - length p) (x ++ p) = x.
Proof.
  rewrite length_app.
  replace (length x + length p - length p)%nat with (length x + 0)%nat by lia.
  rewrite firstn_app_2. simpl. apply app_nil_r.
Qed.

Lemma from_first_skip (c : N) (p q : jsstring) :
  ~ In c p -> from_first c (p ++ c :: q) = c :: q.
Proof.
  induction p as [|x p IH]; simpl; intros H.
  - rewrite N.eqb_refl. reflexivity.
  - destruct (x =? c) eqn:E.
    + apply N.eqb_eq in E. subst x. exfalso. apply H. left. reflexivity.
    + apply IH. intros Hin. apply H. right. exact Hin.
Qed.

(** A tag followed by a line feed starts with [json] only if the tag
    does. *)
Lemma tag_starts_with_json (tag rest : jsstring) :
  startsWith (lit "json") (tag ++ LF :: rest) = true ->
  exists tag', tag = lit "json" ++ tag'.
Proof.
  intros H.
  apply startsWith_split in H.
  destruct tag as [|a [|b [|c [|d tag']]]]; vm_compute in H;
    try discriminate.
  inversion H; subst. exists tag'. reflexivity.
Qed.

Lemma trim_between (c d : N) (u : jsstring) :
  is_white_space c = false -> is_white_space d = false ->
  trim (c :: u ++ [d]) = c :: u ++ [d].
Proof.
  intros Hc Hd. unfold trim. cbn [trimStart]. rewrite Hc.
  rewrite app_comm_cons. apply trimEnd_snoc. exact Hd.
Qed.

Lemma trim_fenced (tag text : jsstring) :
  trim (fenced tag text) = fenced tag text.
Proof.
  unfold fenced. change (lit "```") with [96; 96; 96].
  replace ([96; 96; 96] ++ tag ++ LF :: text ++ LF :: [96; 96; 96])
    with (96 :: (96 :: 96 :: tag ++ LF :: text ++ LF :: [96; 96]) ++ [96])
    by (cbn [app]; list_norm; reflexivity).
  apply trim_between; reflexivity.
Qed.

(** The cleaning of a fenced text between braces gives back the text,
    whatever the tag of the fence, as long as the tag has no opening
    brace. *)
Lemma extract_json_fenced (tag mid : jsstring) :
  ~ In (code "{") tag ->
  extract_json (fenced tag (code "{" :: mid ++ [code "}"]))
  = code "{" :: mid ++ [code "}"].
Proof.
  intros Htag. set (text := code "{" :: mid ++ [code "}"]).
  assert (Hclose : forall p,
    replace_trailing_fence (p ++ text ++ LF :: lit "```") = p ++ text).
  { intros p. unfold replace_trailing_fence.
    replace (p ++ text ++ LF :: lit "```")
      with ((p ++ text ++ [LF]) ++ lit "```") by (list_norm; reflexivity).
    rewrite endsWith_app.
    change 3%nat with (length (lit "```")). rewrite firstn_app_exact.
    rewrite app_assoc.
    rewrite (proj2 (trimEnd_app_ws (p ++ text) [LF] eq_refl)).
    unfold text. rewrite app_comm_cons, app_assoc.
    apply trimEnd_snoc. reflexivity. }
  assert (Hscan : forall p, ~ In (code "{") p ->
    match match_braces (p ++ text) with
    | Some m => m
    | None => p ++ text
    end = text).
  { intros p Hp. unfold match_braces, text.
    rewrite (from_first_skip _ _ _ Hp), upto_last_snoc.
    destruct (mid ++ [code "}"]) eqn:E; [|reflexivity].
    apply app_eq_nil in E as [_ E]. discriminate. }
  unfold extract_json. rewrite trim_fenced. unfold strip_fence.
  destruct (startsWith (lit "```json") (fenced tag text)) eqn:Ejson.
  - (* the fence is tagged json *)
    assert (Hj : startsWith (lit "json")
                   (tag ++ LF :: text ++ LF :: lit "```") = true)
      by exact Ejson.
    apply tag_starts_with_json in Hj as [tag' ->].
    unfold replace_leading. rewrite Ejson.
    change (skipn (length (lit "```json"))
              (fenced (lit "json" ++ tag') text))
      with (tag' ++ LF :: text ++ LF :: lit "```").
    replace (tag' ++ LF :: text ++ LF :: lit "```")
      with ((tag' ++ [LF]) ++ code "{" :: (mid ++ [code "}"])
              ++ LF :: lit "```")
      by (unfold text; list_norm; reflexivity).
    rewrite trimStart_app_stop by reflexivity.
    change (code "{" :: (mid ++ [code "}"]) ++ LF :: lit "```")
      with (text ++ LF :: lit "```").
    rewrite Hclose. apply Hscan. apply trimStart_incl.
    intros Hin. apply in_app_or in Hin as [Hin|[Hin|[]]].
    + apply Htag. right. right. right. right. exact Hin.
    + discriminate Hin.
  - (* any other fence *)
    change (startsWith (lit "```") (fenced tag text)) with true. cbv iota.
    unfold replace_leading.
    change (startsWith (lit "```") (fenced tag text)) with true. cbv iota.
    change (skipn (length (lit "```")) (fenced tag text))
      with (tag ++ LF :: text ++ LF :: lit "```").
    replace (tag ++ LF :: text ++ LF :: lit "```")
      with ((tag ++ [LF]) ++ code "{" :: (mid ++ [code "}"])
              ++ LF :: lit "```")
      by (unfold text; list_norm; reflexivity).
    rewrite trimStart_app_stop by reflexivity.
    change (code "{" :: (mid ++ [code "}"]) ++ LF :: lit "```")
      with (text ++ LF :: lit "```").
    rewrite Hclose. apply Hscan. apply trimStart_incl.
    intros Hin. apply in_app_or in Hin as [Hin|[Hin|[]]].
    + apply Htag. exact Hin.
    + discriminate Hin.
Qed.

(** The stripping of the markers of a fence around a text between braces:
    what is left is the rest of the tag, the line feed and the text, with
    the white space that starts them removed. *)
Lemma strip_fence_fenced (tag mid : jsstring) :
  strip_fence (trim (fenced tag (code "{" :: mid ++ [code "}"])))
  = trimStart (tag_rest tag ++ LF :: code "{" :: mid ++ [code "}"]).
Proof.
  set (text := code "{" :: mid ++ [code "}"]).
  assert (Hclose : forall p,
    replace_trailing_fence (p ++ text ++ LF :: lit "```") = p ++ text).
  { intros p. unfold replace_trailing_fence.
    replace (p ++ text ++ LF :: lit "```")
      with ((p ++ text ++ [LF]) ++ lit "```") by (list_norm; reflexivity).
    rewrite endsWith_app.
    change 3%nat with (length (lit "```")). rewrite firstn_app_exact.
    rewrite app_assoc.
    rewrite (proj2 (trimEnd_app_ws (p ++ text) [LF] eq_refl)).
    unfold text. rewrite app_comm_cons, app_assoc.
    apply trimEnd_snoc. reflexivity. }
  assert (Hopen : forall rest,
    replace_trailing_fence (trimStart (rest ++ LF :: text ++ LF :: lit "```"))
    = trimStart (rest ++ LF :: text)).
  { intros rest.
    replace (rest ++ LF :: text ++ LF :: lit "```")
      with ((rest ++ [LF]) ++ code "{" :: (mid ++ [code "}"])
              ++ LF :: lit "```")
      by (unfold text; list_norm; reflexivity).
    rewrite (trimStart_app_stop (rest ++ [LF])
               ((mid ++ [code "}"]) ++ LF :: lit "```") (code "{"))
      by reflexivity.
    change (code "{" :: (mid ++ [code "}"]) ++ LF :: lit "```")
      with (text ++ LF :: lit "```").
    rewrite Hclose.
    replace (rest ++ LF :: text)
      with ((rest ++ [LF]) ++ code "{" :: mid ++ [code "}"])
      by (unfold text; list_norm; reflexivity).
    rewrite (trimStart_app_stop (rest ++ [LF]) (mid ++ [code "}"])
               (code "{")) by reflexivity.
    reflexivity. }
  rewrite trim_fenced. unfold strip_fence, tag_rest.
  destruct (startsWith (lit "```json") (fenced tag text)) eqn:Ejson.
  - assert (Hj : startsWith (lit "json")
                   (tag ++ LF :: text ++ LF :: lit "```") = true)
      by exact Ejson.
    apply tag_starts_with_json in Hj as [tag' ->].
    rewrite startsWith_app.
    change (skipn 4 (lit "json" ++ tag')) with tag'.
    unfold replace_leading. rewrite Ejson.
    change (skipn (length (lit "```json"))
              (fenced (lit "json" ++ tag') text))
      with (tag' ++ LF :: text ++ LF :: lit "```").
    apply Hopen.
  - assert (Hno : startsWith (lit "json") tag = false).
    { destruct (startsWith (lit "json") tag) eqn:E; [|reflexivity].
      apply startsWith_split in E. rewrite E in Ejson.
      rewrite <- Ejson. reflexivity. }
    rewrite Hno.
    change (startsWith (lit "```") (fenced tag text)) with true. cbv iota.
    unfold replace_leading.
    change (startsWith (lit "```") (fenced tag text)) with true. cbv iota.
    change (skipn (length (lit "```")) (fenced tag text))
      with (tag ++ LF :: text ++ LF :: lit "```").
    apply Hopen.
Qed.

(* ===================================================================== *)
(** * The properties of the handler *)
(* ===================================================================== *)

Section Claims.

Variable rt : Runtime.

(** C9. When the credential is absent from the environment (unset, or set
    to the empty string), the handler answers every request with the
    configuration error, status 500, and nothing has happened before: the
    trace is empty, so the provider was not called; the request and the
    provider play no part in the answer. *)
Theorem missing_credential_is_configuration_error
    (env : ProcessEnv) (request : jsstring) (provider : Provider) :
  GROQ_API_KEY env = None \/ GROQ_API_KEY env = Some [] ->
  POST rt env request provider
  = (Returned
       (error_response 500
          "Groq API key not configured. Please add GROQ_API_KEY to your environment variables."),
     [])
  /\ provider_not_invoked (POST rt env request provider).
Proof.
  intros Hkey.
  assert (Hearly : before_provider rt env request
    = (Returned (inl (error_response 500
         "Groq API key not configured. Please add GROQ_API_KEY to your environment variables.")),
       [])).
  { unfold before_provider. destruct Hkey as [-> | ->]; reflexivity. }
  rewrite (POST_early rt _ _ provider _ Hearly).
  split; reflexivity.
Qed.

Lemma bind_ret {A B : Type} (a : A) (k : A -> M B) : bind (ret a) k = k a.
Proof. unfold bind, ret. destruct (k a) as [r t]. reflexivity. Qed.

Lemma get_or_throw_object site (o : list (jsstring * value)) (k : string) :
  get_or_throw rt site (JObject o) k = ret (obj_get (lit k) o).
Proof. reflexivity. Qed.

(** What precedes the provider, for a configured credential and a body
    that is the JSON text of an object. *)
Lemma before_provider_object (env : ProcessEnv) (request : jsstring) o :
  ToBoolean (env_value (GROQ_API_KEY env)) = true ->
  JSON_parse request = Some (JObject o) ->
  before_provider rt env request
  = (validated <- validate_code rt (obj_get (lit "code") o) ;;
     match validated with
     | None => ret (inl (error_response 400 "Code is required"))
     | Some code =>
         prompt <- build_prompt rt code (obj_get (lit "language") o)
                     (obj_get (lit "description") o) ;;
         ret (inr (code, prompt))
     end).
Proof.
  intros Hkey Hjson. unfold before_provider, request_json.
  rewrite (JSON_parse_without_BOM _ _ Hjson), Hkey, Hjson. cbn [negb].
  rewrite bind_ret, !get_or_throw_object, !bind_ret. reflexivity.
Qed.

(** C5, amended. With the credential configured, a request whose body is a
    JSON object with a [code] that is empty or white space only is answered
    with status 400, and the provider is not invoked. *)
Theorem blank_code_is_invalid_input
    (env : ProcessEnv) (request : jsstring) (provider : Provider)
    (o : list (jsstring * value)) (code : jsstring) :
  ToBoolean (env_value (GROQ_API_KEY env)) = true ->
  JSON_parse request = Some (JObject o) ->
  obj_get (lit "code") o = JString code ->
  trim code = [] ->
  POST rt env request provider
  = (Returned (error_response 400 "Code is required"), [])
  /\ provider_not_invoked (POST rt env request provider).
Proof.
  intros Hkey Hjson Hcode Hblank.
  assert (Hearly : before_provider rt env request
    = (Returned (inl (error_response 400 "Code is required")), [])).
  { rewrite (before_provider_object env request o Hkey Hjson), Hcode.
    unfold validate_code. destruct code as [|c code']; [reflexivity|].
    cbn [ToBoolean negb]. rewrite Hblank. reflexivity. }
  rewrite (POST_early rt _ _ provider _ Hearly).
  split; reflexivity.
Qed.

(** C10, amended. A request whose body, read without the byte order mark
    that may start it, is not valid JSON is never answered with status 400
    and never reaches the provider. With the credential configured, the
    [SyntaxError] of the body goes to the catch block, which answers by the
    words of its message: with status 500 whenever the message has none of
    the words of the credential, rate-limit and timeout classes, and then
    with the invalid-format message when it mentions [JSON] or [parse]. *)
Theorem invalid_body_goes_to_catch
    (env : ProcessEnv) (request : jsstring) (provider : Provider) :
  JSON_parse (without_BOM request) = None ->
  let error := syntax_error rt (without_BOM request) in
  let msg := syntaxErrorMessage rt (without_BOM request) in
  provider_not_invoked (POST rt env request provider)
  /\ exists resp t,
       POST rt env request provider = (Returned resp, t)
       /\ status resp <> 400
       /\ (mentions_credential msg = false ->
           mentions_rate_limit msg = false ->
           mentions_timeout msg = false ->
           status resp = 500)
       /\ (ToBoolean (env_value (GROQ_API_KEY env)) = true ->
           resp = classify error
           /\ t = [api_error_log error]
           /\ (mentions_credential msg = false ->
               mentions_rate_limit msg = false ->
               mentions_timeout msg = false ->
               mentions_format msg = true ->
               resp
               = error_response 500
                   "Groq returned an invalid response format. Please try again.")).
Proof.
  intros Hjson error msg.
  destruct (ToBoolean (env_value (GROQ_API_KEY env))) eqn:Hkey.
  - assert (Hthrow : before_provider rt env request = (Thrown error, [])).
    { unfold before_provider, request_json. rewrite Hkey, Hjson.
      reflexivity. }
    rewrite (POST_throws_early rt _ _ provider _ Hthrow).
    split; [reflexivity|].
    exists (classify error), [api_error_log error].
    split; [reflexivity|].
    assert (Hnone : mentions_credential msg = false ->
                    mentions_rate_limit msg = false ->
                    mentions_timeout msg = false ->
                    classify error
                    = (if mentions_format msg
                       then error_response 500
                              "Groq returned an invalid response format. Please try again."
                       else generic_error msg)).
    { unfold mentions_credential, mentions_rate_limit, mentions_timeout,
        mentions_format. subst error msg. unfold syntax_error, classify.
      intros -> -> ->. reflexivity. }
    split; [|split].
    + destruct (classify_status error) as [H|[H|[H|H]]]; rewrite H;
        discriminate.
    + intros H1 H2 H3. rewrite (Hnone H1 H2 H3).
      destruct (mentions_format msg); reflexivity.
    + intros _. split; [reflexivity|]. split; [reflexivity|].
      intros H1 H2 H3 H4. rewrite (Hnone H1 H2 H3), H4. reflexivity.
  - assert (Hearly : before_provider rt env request
      = (Returned (inl (error_response 500
           "Groq API key not configured. Please add GROQ_API_KEY to your environment variables.")),
         [])).
    { unfold before_provider. rewrite Hkey. reflexivity. }
    rewrite (POST_early rt _ _ provider _ Hearly).
    split; [reflexivity|].
    eexists. eexists. split; [reflexivity|].
    split; [discriminate|]. split; [reflexivity|discriminate].
Qed.

(** C7, amended. When the call of the provider throws an error, the handler
    answers by the first class of words found in its message: credential
    words give 401, otherwise rate-limit words give 429, otherwise timeout
    words give 504, otherwise [JSON] or [parse] give 500 with the
    invalid-format message and no [details], and every other message gives
    500 with the message in [details]. *)
Theorem provider_failure_is_classified
    (env : ProcessEnv) (request : jsstring) (provider : Provider)
    (code prompt name msg : jsstring) :
  before_provider rt env request = (Returned (inr (code, prompt)), []) ->
  provider (chat_request prompt) = Thrown (Error name msg) ->
  exists resp,
    POST rt env request provider
    = (Returned resp,
       [ProviderCall (chat_request prompt); api_error_log (Error name msg)])
    /\ (mentions_credential msg = true ->
        resp = error_response 401
          "Invalid Groq API key. Please check your GROQ_API_KEY in environment variables.")
    /\ (mentions_credential msg = false ->
        mentions_rate_limit msg = true ->
        resp = error_response 429
          "Groq API rate limit exceeded. Please try again in a moment.")
    /\ (mentions_credential msg = false ->
        mentions_rate_limit msg = false ->
        mentions_timeout msg = true ->
        resp = error_response 504
          "Network timeout. Please check your connection and try again.")
    /\ (mentions_credential msg = false ->
        mentions_rate_limit msg = false ->
        mentions_timeout msg = false ->
        mentions_format msg = true ->
        resp = error_response 500
          "Groq returned an invalid response format. Please try again.")
    /\ (mentions_credential msg = false ->
        mentions_rate_limit msg = false ->
        mentions_timeout msg = false ->
        mentions_format msg = false ->
        resp = generic_error msg).
Proof.
  intros Hbefore Hthrow. exists (classify (Error name msg)).
  split; [apply (POST_provider_throws rt _ _ _ _ _ _ Hbefore Hthrow)|].
  unfold mentions_credential, mentions_rate_limit, mentions_timeout,
    mentions_format, classify.
  repeat split; intros; repeat match goal with
    | H : _ = _ |- _ => rewrite H
    end; reflexivity.
Qed.

(** What is thrown and is not an error is answered with status 500 and
    fixed [details]. *)
Lemma provider_failure_not_an_error
    (env : ProcessEnv) (request : jsstring) (provider : Provider)
    (code prompt : jsstring) (v : value) :
  before_provider rt env request = (Returned (inr (code, prompt)), []) ->
  provider (chat_request prompt) = Thrown (NotAnError v) ->
  fst (POST rt env request provider)
  = Returned (generic_error (lit "Unknown error occurred")).
Proof.
  intros Hbefore Hthrow.
  rewrite (POST_provider_throws rt _ _ _ _ _ _ Hbefore Hthrow). reflexivity.
Qed.

(** The normaliser answers with status 200 and the three fields, the first
    two truthy and the third an array, if it answers at all. *)
Lemma normalize_fields (code reply : jsstring) resp t :
  code <> [] ->
  normalize rt code reply = (Returned resp, t) ->
  status resp = 200 /\
  exists correctedCode explanation issues,
    body resp = CorrectionResponse correctedCode explanation (JArray issues)
    /\ ToBoolean correctedCode = true
    /\ ToBoolean explanation = true.
Proof.
  intros Hcode H. unfold normalize in H.
  destruct (JSON_parse (extract_json reply)) as [parsed|].
  - unfold get_or_throw in H.
    destruct (Get parsed (lit "correctedCode")) as [cc|] eqn:Ecc;
      [|discriminate].
    rewrite bind_ret in H.
    assert (Hget : forall k, exists x, Get parsed (lit k) = Some x).
    { intros k. destruct parsed; try discriminate; eexists; reflexivity. }
    destruct (ToBoolean cc) eqn:Tcc; cbn [negb] in H.
    + destruct (Hget "explanation"%string) as [ex Eex].
      destruct (Hget "issues"%string) as [iss Eiss].
      rewrite Eex, Eiss, !bind_ret in H.
      inversion H; subst; clear H. split; [reflexivity|].
      cbn [body NextResponse_json].
      exists cc, (js_or ex (JString explanation_default)).
      destruct (isArray iss) eqn:Ea.
      * destruct iss; try discriminate.
        eexists. split; [reflexivity|]. split; [exact Tcc|].
        unfold js_or. destruct (ToBoolean ex) eqn:Tex; [exact Tex|reflexivity].
      * eexists. split; [reflexivity|]. split; [exact Tcc|].
        unfold js_or. destruct (ToBoolean ex) eqn:Tex; [exact Tex|reflexivity].
    + inversion H; subst; clear H. split; [reflexivity|].
      exists (JString code), (JString explanation_missing), issues_missing.
      split; [reflexivity|]. split; [|reflexivity].
      destruct code; [contradiction|reflexivity].
  - inversion H; subst; clear H. split; [reflexivity|].
    exists (JString (fallback_code reply code)),
      (JString explanation_fallback), issues_fallback.
    repeat split; reflexivity.
Qed.

(** The handler never throws: the catch block turns every exception into a
    response. *)
Lemma POST_returns (env : ProcessEnv) (request : jsstring)
    (provider : Provider) :
  exists resp t, POST rt env request provider = (Returned resp, t).
Proof.
  unfold POST, try_catch.
  destruct (POST_try rt env request provider) as [[resp|e] t];
    eexists; eexists; reflexivity.
Qed.



(** C2, amended. When [JSON.parse] rejects the cleaned reply, the result is
    the fallback: status 200, three fixed issues, the fixed explanation,
    and a [correctedCode] made of the raw reply as comment lines followed
    by the original code, which is therefore a suffix of it. *)
Theorem fallback_when_parsing_fails (code reply : jsstring) :
  JSON_parse (extract_json reply) = None ->
  exists t correctedCode issues,
    normalize rt code reply
    = (Returned
         {| status := 200;
            body := CorrectionResponse (JString correctedCode)
                      (JString explanation_fallback) (JArray issues) |},
       t)
    /\ length issues = 3%nat
    /\ correctedCode
       = (lit "// Groq response (parsing failed):" ++ LF :: lit "// "
          ++ replace_all_LF (LF :: lit "// ") reply
          ++ LF :: LF :: lit "// Original code:" ++ [LF])
         ++ code.
Proof.
  intros H. unfold normalize. rewrite H.
  eexists. exists (fallback_code reply code), issues_fallback.
  split; [reflexivity|]. split; [reflexivity|].
  unfold fallback_code. list_norm. reflexivity.
Qed.

(** C3. When the cleaned reply parses as an object whose [correctedCode]
    is missing or the empty string, the result has status 200, its
    [correctedCode] is the original code and it has two issues. *)
Theorem missing_corrected_code_echoes_the_input
    (code reply : jsstring) (o : list (jsstring * value)) :
  JSON_parse (extract_json reply) = Some (JObject o) ->
  obj_get (lit "correctedCode") o = JUndefined
  \/ obj_get (lit "correctedCode") o = JString [] ->
  exists t issues,
    normalize rt code reply
    = (Returned
         {| status := 200;
            body := CorrectionResponse (JString code)
                      (JString explanation_missing) (JArray issues) |},
       t)
    /\ length issues = 2%nat.
Proof.
  intros Hparse Hmissing. unfold normalize. rewrite Hparse.
  rewrite get_or_throw_object, bind_ret.
  eexists. exists issues_missing.
  destruct Hmissing as [-> | ->]; split; reflexivity.
Qed.

(** The result for a reply that is, as a whole, the JSON text of an object
    with non-empty strings for [correctedCode] and [explanation] and an
    array for [issues]. *)
Lemma normalize_object_text
    (code reply : jsstring) (o : list (jsstring * value))
    (correctedCode explanation : jsstring) (issues : list value) :
  JSON_parse reply = Some (JObject o) ->
  obj_get (lit "correctedCode") o = JString correctedCode ->
  correctedCode <> [] ->
  obj_get (lit "explanation") o = JString explanation ->
  explanation <> [] ->
  obj_get (lit "issues") o = JArray issues ->
  normalize rt code reply
  = (Returned
       {| status := 200;
          body := CorrectionResponse (JString correctedCode)
                    (JString explanation) (JArray issues) |},
     []).
Proof.
  intros Hparse Hcc Hne Hex Hnex Hiss.
  apply JSON_parse_extract_json in Hparse.
  unfold normalize. rewrite Hparse.
  rewrite !get_or_throw_object, Hcc, Hex, Hiss, !bind_ret.
  destruct correctedCode; [contradiction|].
  destruct explanation; [contradiction|].
  reflexivity.
Qed.

(** C4, amended. When the reply is, as a whole, the JSON text of an object
    whose [correctedCode] and [explanation] are non-empty strings and whose
    [issues] is an array, the result has status 200 and its three fields
    are those of the object. *)
Theorem well_formed_reply_is_returned_verbatim
    (code reply : jsstring) (o : list (jsstring * value))
    (correctedCode explanation : jsstring) (issues : list value) :
  JSON_parse reply = Some (JObject o) ->
  obj_get (lit "correctedCode") o = JString correctedCode ->
  correctedCode <> [] ->
  obj_get (lit "explanation") o = JString explanation ->
  explanation <> [] ->
  obj_get (lit "issues") o = JArray issues ->
  exists t,
    normalize rt code reply
    = (Returned
         {| status := 200;
            body := CorrectionResponse (JString correctedCode)
                      (JString explanation) (JArray issues) |},
       t).
Proof.
  intros Hparse Hcc Hne Hex Hnex Hiss. exists [].
  exact (normalize_object_text code reply o correctedCode explanation issues
           Hparse Hcc Hne Hex Hnex Hiss).
Qed.

(** Normalising after serialising is the identity on the results whose
    [correctedCode] and [explanation] are not empty: the text that
    [JSON.stringify] writes for such a result is returned as that result. *)
Lemma normalize_stringify_result (code : jsstring) (r : CorrectionResult) :
  result_correctedCode r <> [] ->
  result_explanation r <> [] ->
  fst (normalize rt code (stringify_result r))
  = Returned {| status := 200; body := result_value r |}.
Proof.
  intros Hcc Hex.
  rewrite (normalize_object_text code (stringify_result r) _
             (result_correctedCode r) (result_explanation r)
             (List.map JString (result_issues r))
             (JSON_parse_stringify_result r) eq_refl Hcc eq_refl Hex eq_refl).
  reflexivity.
Qed.

(** C6, amended. When the cleaned reply parses as an object with a truthy
    [correctedCode], the result has status 200 and keeps that field; a
    missing [explanation] is replaced by the canned sentence and a truthy
    one is kept; an [issues] that is missing or not an array is replaced by
    the one-element default, and an array is kept whatever its elements.
    No field of the result is undefined. *)
Theorem defaults_for_explanation_and_issues
    (code reply : jsstring) (o : list (jsstring * value)) :
  JSON_parse (extract_json reply) = Some (JObject o) ->
  ToBoolean (obj_get (lit "correctedCode") o) = true ->
  exists t explanation issues,
    normalize rt code reply
    = (Returned
         {| status := 200;
            body := CorrectionResponse (obj_get (lit "correctedCode") o)
                      explanation issues |},
       t)
    /\ (obj_get (lit "explanation") o = JUndefined ->
        explanation
        = JString (lit "Code has been analyzed and corrections have been applied."))
    /\ (ToBoolean (obj_get (lit "explanation") o) = true ->
        explanation = obj_get (lit "explanation") o)
    /\ (isArray (obj_get (lit "issues") o) = false ->
        issues = JArray [JString (lit "Code analysis completed")])
    /\ (isArray (obj_get (lit "issues") o) = true ->
        issues = obj_get (lit "issues") o)
    /\ obj_get (lit "correctedCode") o <> JUndefined
    /\ explanation <> JUndefined
    /\ issues <> JUndefined.
Proof.
  intros Hparse Hcc. unfold normalize. rewrite Hparse.
  rewrite !get_or_throw_object, !bind_ret, Hcc. cbn [negb].
  rewrite ?get_or_throw_object, ?bind_ret.
  eexists. eexists. eexists. split; [reflexivity|].
  unfold js_or.
  repeat split.
  - intros ->. reflexivity.
  - intros ->. reflexivity.
  - intros ->. reflexivity.
  - intros ->. reflexivity.
  - intros E. rewrite E in Hcc. discriminate.
  - destruct (ToBoolean (obj_get (lit "explanation") o)) eqn:E;
      [|discriminate]. intros E'. rewrite E' in E. discriminate.
  - destruct (isArray (obj_get (lit "issues") o)) eqn:E; [|discriminate].
    intros E'. rewrite E' in E. discriminate.
Qed.

(** C8. A reply that is the object
    [{"correctedCode":"x","explanation":"y","issues":["z"]}] inside a
    markdown fence has its fence markers stripped before the brace scan:
    the opening marker, [```json] when the tag starts with [json] and [```]
    otherwise, goes with the white space after it, and the closing marker
    goes with the white space before it, which leaves the object alone for
    a fence with no tag and for the tag [json]. With no tag, with the tag
    [json] or with any other tag that has no opening brace, the reply is
    cleaned to the text of the object and normalises to the result with
    the fields [x], [y] and [[z]]. *)
Theorem fenced_object_is_unwrapped (input tag : jsstring) :
  ~ In (code "{") tag ->
  strip_fence (trim (fenced tag xyz_object))
  = trimStart (tag_rest tag ++ LF :: xyz_object)
  /\ strip_fence (trim (fenced [] xyz_object)) = xyz_object
  /\ strip_fence (trim (fenced (lit "json") xyz_object)) = xyz_object
  /\ extract_json (fenced tag xyz_object) = xyz_object
  /\ exists t,
       normalize rt input (fenced tag xyz_object)
       = (Returned
            {| status := 200;
               body := CorrectionResponse (JString (lit "x"))
                         (JString (lit "y")) (JArray [JString (lit "z")]) |},
          t).
Proof.
  intros Htag.
  assert (Hstrip : forall tag',
    strip_fence (trim (fenced tag' xyz_object))
    = trimStart (tag_rest tag' ++ LF :: xyz_object)).
  { intros tag'.
    apply (strip_fence_fenced tag'
      (quoted "correctedCode" ++ lit ":" ++ quoted "x" ++ lit ","
       ++ quoted "explanation" ++ lit ":" ++ quoted "y" ++ lit ","
       ++ quoted "issues" ++ lit ":[" ++ quoted "z" ++ lit "]")). }
  assert (Hclean : extract_json (fenced tag xyz_object) = xyz_object).
  { apply (extract_json_fenced tag
      (quoted "correctedCode" ++ lit ":" ++ quoted "x" ++ lit ","
       ++ quoted "explanation" ++ lit ":" ++ quoted "y" ++ lit ","
       ++ quoted "issues" ++ lit ":[" ++ quoted "z" ++ lit "]")).
    exact Htag. }
  split; [apply Hstrip|].
  split; [rewrite Hstrip; reflexivity|].
  split; [rewrite Hstrip; reflexivity|].
  split; [exact Hclean|].
  unfold normalize. rewrite Hclean.
  assert (Hparse : JSON_parse xyz_object
    = Some (JObject [ (lit "correctedCode", JString (lit "x"));
                      (lit "explanation", JString (lit "y"));
                      (lit "issues", JArray [JString (lit "z")]) ]))
    by (vm_compute; reflexivity).
  rewrite Hparse. eexists. reflexivity.
Qed.

End Claims.


(* ===================================================================== *)
(** * Concrete runs *)
(* ===================================================================== *)

(** ** C9 *)

Lemma missing_credential_run :
  (GROQ_API_KEY unconfigured_env = None
   \/ GROQ_API_KEY unconfigured_env = Some [])
  /\ POST sample_runtime unconfigured_env (sample_request "x = 1")
       (replying xyz_object)
     = (Returned
          (error_response 500
             "Groq API key not configured. Please add GROQ_API_KEY to your environment variables."),
        [])
  /\ provider_not_invoked
       (POST sample_runtime unconfigured_env (sample_request "x = 1")
          (replying xyz_object)).
Proof.
  split; [left; reflexivity|].
  apply (missing_credential_is_configuration_error sample_runtime).
  left; reflexivity.
Defined.

(** ** C5 *)

(** With the credential absent, a request with a blank code is answered
    with status 500, not 400. *)
Lemma blank_code_without_credential :
  JSON_parse (sample_request "   ")
  = Some (JObject [ (lit "code", JString (lit "   "));
                    (lit "language", JString (lit "python")) ])
  /\ trim (lit "   ") = []
  /\ exists resp t,
       POST sample_runtime unconfigured_env (sample_request "   ")
         (replying xyz_object) = (Returned resp, t)
       /\ status resp = 500
       /\ status resp <> 400.
Proof.
  split; [vm_compute; reflexivity|]. split; [reflexivity|].
  eexists. eexists. split; [vm_compute; reflexivity|].
  split; [reflexivity|discriminate].
Qed.

Lemma blank_code_run :
  ToBoolean (env_value (GROQ_API_KEY configured_env)) = true
  /\ JSON_parse (sample_request "   ")
     = Some (JObject [ (lit "code", JString (lit "   "));
                       (lit "language", JString (lit "python")) ])
  /\ obj_get (lit "code")
       [ (lit "code", JString (lit "   "));
         (lit "language", JString (lit "python")) ]
     = JString (lit "   ")
  /\ trim (lit "   ") = []
  /\ POST sample_runtime configured_env (sample_request "   ")
       (replying xyz_object)
     = (Returned (error_response 400 "Code is required"), [])
  /\ provider_not_invoked
       (POST sample_runtime configured_env (sample_request "   ")
          (replying xyz_object)).
Proof.
  assert (Hparse : JSON_parse (sample_request "   ")
     = Some (JObject [ (lit "code", JString (lit "   "));
                       (lit "language", JString (lit "python")) ]))
    by (vm_compute; reflexivity).
  split; [reflexivity|]. split; [exact Hparse|].
  split; [reflexivity|]. split; [reflexivity|].
  apply (blank_code_is_invalid_input sample_runtime configured_env
           (sample_request "   ") (replying xyz_object)
           [ (lit "code", JString (lit "   "));
             (lit "language", JString (lit "python")) ]
           (lit "   "));
    [reflexivity|exact Hparse|reflexivity|reflexivity].
Defined.

(** ** C10 *)

(** With a runtime that quotes the text in its diagnostic, the body
    [quota], which is not valid JSON, is answered with status 429. *)
Lemma invalid_body_answered_429 :
  JSON_parse (without_BOM (lit "quota")) = None
  /\ syntaxErrorMessage sample_runtime (without_BOM (lit "quota"))
     = lit "Unexpected token 'q', " ++ quoted "quota"
       ++ lit " is not valid JSON"
  /\ exists resp t,
       POST sample_runtime configured_env (lit "quota") (replying xyz_object)
       = (Returned resp, t)
       /\ status resp = 429
       /\ status resp <> 500.
Proof.
  split; [vm_compute; reflexivity|]. split; [vm_compute; reflexivity|].
  eexists. eexists. split; [vm_compute; reflexivity|].
  split; [reflexivity|discriminate].
Qed.

(** A body that is valid JSON after a byte order mark is read as the body
    without the mark: the request is answered as if the mark were not
    there, though [JSON.parse] rejects the text with the mark. *)
Lemma body_with_byte_order_mark_is_read :
  JSON_parse (BOM :: sample_request "x = 1") = None
  /\ POST sample_runtime configured_env (BOM :: sample_request "x = 1")
       (replying scenario_reply)
     = POST sample_runtime configured_env (sample_request "x = 1")
         (replying scenario_reply)
  /\ fst (POST sample_runtime configured_env (BOM :: sample_request "x = 1")
            (replying scenario_reply))
     = Returned {| status := 200; body := result_value scenario_result |}.
Proof.
  split; [vm_compute; reflexivity|]. split; vm_compute; reflexivity.
Qed.

Lemma invalid_body_run :
  JSON_parse (without_BOM (lit "{code:")) = None
  /\ provider_not_invoked
       (POST sample_runtime configured_env (lit "{code:")
          (replying xyz_object))
  /\ fst (POST sample_runtime configured_env (lit "{code:")
            (replying xyz_object))
     = Returned
         (error_response 500
            "Groq returned an invalid response format. Please try again.").
Proof.
  assert (Hparse : JSON_parse (without_BOM (lit "{code:")) = None)
    by (vm_compute; reflexivity).
  split; [exact Hparse|].
  destruct (invalid_body_goes_to_catch sample_runtime configured_env
              (lit "{code:") (replying xyz_object) Hparse)
    as (Hquiet & resp & t & Hrun & _ & _ & Hcatch).
  split; [exact Hquiet|].
  destruct (Hcatch eq_refl) as (_ & _ & Hformat).
  rewrite Hrun. cbn [fst].
  rewrite Hformat by (vm_compute; reflexivity). reflexivity.
Defined.

(** ** C7 *)

(** A provider error whose message mentions [JSON] is answered with status
    500 and no [details]: the message is not preserved. *)
Lemma format_error_has_no_details :
  mentions_credential (lit "Unexpected token < in JSON at position 0") = false
  /\ mentions_rate_limit (lit "Unexpected token < in JSON at position 0")
     = false
  /\ mentions_timeout (lit "Unexpected token < in JSON at position 0") = false
  /\ exists resp t,
       POST sample_runtime configured_env (sample_request "x = 1")
         (failing format_error)
       = (Returned resp, t)
       /\ status resp = 500
       /\ Get (body resp) (lit "details") = Some JUndefined
       /\ Get (body resp) (lit "details")
          <> Some (JString (lit "Unexpected token < in JSON at position 0")).
Proof.
  split; [vm_compute; reflexivity|]. split; [vm_compute; reflexivity|].
  split; [vm_compute; reflexivity|].
  eexists. eexists. split; [vm_compute; reflexivity|].
  split; [reflexivity|]. split; [reflexivity|discriminate].
Qed.

Lemma provider_failure_run :
  before_provider sample_runtime configured_env (sample_request "x = 1")
  = (Returned (inr (lit "x = 1", sample_prompt)), [])
  /\ failing rate_limit_error (chat_request sample_prompt)
     = Thrown rate_limit_error
  /\ fst (POST sample_runtime configured_env (sample_request "x = 1")
            (failing rate_limit_error))
     = Returned
         (error_response 429
            "Groq API rate limit exceeded. Please try again in a moment.").
Proof.
  assert (Hbefore :
    before_provider sample_runtime configured_env (sample_request "x = 1")
    = (Returned (inr (lit "x = 1", sample_prompt)), []))
    by (vm_compute; reflexivity).
  split; [exact Hbefore|]. split; [reflexivity|].
  destruct (provider_failure_is_classified sample_runtime configured_env
              (sample_request "x = 1") (failing rate_limit_error)
              (lit "x = 1") sample_prompt
              (lit "RateLimitError") (lit "rate limit reached for this model")
              Hbefore eq_refl)
    as (resp & Hrun & _ & Hrate & _).
  rewrite Hrun. cbn [fst].
  rewrite Hrate by (vm_compute; reflexivity). reflexivity.
Defined.

(** ** C1 *)


(** A reply whose [correctedCode] is [1e999], read as infinity: the value
    handed to [NextResponse.json] is truthy, and it is served as
    [null]. *)
Lemma overflowing_code_is_served_as_null :
  exists resp t,
    POST sample_runtime configured_env (sample_request "x = 1")
      (replying overflowing_code_reply)
    = (Returned resp, t)
    /\ status resp = 200
    /\ body resp
       = CorrectionResponse (JNumber (mkNumber false 1 999))
           (JString explanation_default) (JArray issues_default)
    /\ ToBoolean (JNumber (mkNumber false 1 999)) = true
    /\ served (body resp)
       = CorrectionResponse JNull (JString explanation_default)
           (JArray issues_default).
Proof.
  eexists. eexists. split; [vm_compute; reflexivity|].
  split; [reflexivity|]. split; [reflexivity|].
  split; vm_compute; reflexivity.
Qed.


(** ** C2 *)

(** A reply that is a sentence between double quotes has no brace and no
    object in it, yet [JSON.parse] accepts it, as a string: the result is
    the partial failure with two issues, not the fallback with three. *)
Lemma quoted_prose_is_not_a_fallback :
  match_braces quoted_prose_reply = None
  /\ JSON_parse (extract_json quoted_prose_reply)
     = Some (JString (lit "The code looks fine to me."))
  /\ fst (normalize sample_runtime (lit "x = 1") quoted_prose_reply)
     = Returned (missing_code_response (lit "x = 1"))
  /\ length issues_missing = 2%nat
  /\ fst (normalize sample_runtime (lit "x = 1") quoted_prose_reply)
     <> Returned (fallback_response (lit "x = 1") quoted_prose_reply).
Proof.
  split; [reflexivity|]. split; [vm_compute; reflexivity|].
  split; [vm_compute; reflexivity|]. split; [reflexivity|].
  vm_compute. discriminate.
Qed.

Lemma fallback_run :
  JSON_parse (extract_json prose_reply) = None
  /\ exists t correctedCode issues,
       normalize sample_runtime (lit "x = 1") prose_reply
       = (Returned
            {| status := 200;
               body := CorrectionResponse (JString correctedCode)
                         (JString explanation_fallback) (JArray issues) |},
          t)
       /\ length issues = 3%nat
       /\ correctedCode
          = (lit "// Groq response (parsing failed):" ++ LF :: lit "// "
             ++ replace_all_LF (LF :: lit "// ") prose_reply
             ++ LF :: LF :: lit "// Original code:" ++ [LF])
            ++ lit "x = 1".
Proof.
  assert (Hparse : JSON_parse (extract_json prose_reply) = None)
    by (vm_compute; reflexivity).
  split; [exact Hparse|].
  exact (fallback_when_parsing_fails sample_runtime (lit "x = 1")
           prose_reply Hparse).
Defined.

(** ** C3 *)

Lemma missing_corrected_code_run :
  JSON_parse (extract_json missing_code_reply)
  = Some (JObject [(lit "explanation", JString (lit "nothing to fix"))])
  /\ (obj_get (lit "correctedCode")
        [(lit "explanation", JString (lit "nothing to fix"))] = JUndefined
      \/ obj_get (lit "correctedCode")
           [(lit "explanation", JString (lit "nothing to fix"))]
         = JString [])
  /\ exists t issues,
       normalize sample_runtime (lit "x = 1") missing_code_reply
       = (Returned
            {| status := 200;
               body := CorrectionResponse (JString (lit "x = 1"))
                         (JString explanation_missing) (JArray issues) |},
          t)
       /\ length issues = 2%nat.
Proof.
  assert (Hparse : JSON_parse (extract_json missing_code_reply)
    = Some (JObject [(lit "explanation", JString (lit "nothing to fix"))]))
    by (vm_compute; reflexivity).
  split; [exact Hparse|]. split; [left; reflexivity|].
  exact (missing_corrected_code_echoes_the_input sample_runtime
           (lit "x = 1") missing_code_reply _ Hparse
           (or_introl eq_refl)).
Defined.

(** ** C4 *)

(** A reply with all three fields and an empty [explanation] does not come
    back verbatim: the explanation is replaced by the canned sentence. *)
Lemma empty_explanation_is_replaced :
  JSON_parse empty_explanation_reply
  = Some (JObject [ (lit "correctedCode", JString (lit "x"));
                    (lit "explanation", JString []);
                    (lit "issues", JArray []) ])
  /\ fst (normalize sample_runtime (lit "x = 1") empty_explanation_reply)
     = Returned
         {| status := 200;
            body := CorrectionResponse (JString (lit "x"))
                      (JString explanation_default) (JArray []) |}
  /\ fst (normalize sample_runtime (lit "x = 1") empty_explanation_reply)
     <> Returned
          {| status := 200;
             body := CorrectionResponse (JString (lit "x")) (JString [])
                       (JArray []) |}.
Proof.
  split; [vm_compute; reflexivity|]. split; [vm_compute; reflexivity|].
  vm_compute. discriminate.
Qed.

Lemma well_formed_reply_run :
  JSON_parse scenario_reply
  = Some (JObject
            [ (lit "correctedCode", JString (lit "def f(x): return x + 1"));
              (lit "explanation", JString (lit "fixed dangling operator"));
              (lit "issues", JArray [JString (lit "incomplete expression")]) ])
  /\ lit "def f(x): return x + 1" <> []
  /\ lit "fixed dangling operator" <> []
  /\ exists t,
       normalize sample_runtime (lit "x = 1") scenario_reply
       = (Returned
            {| status := 200;
               body := CorrectionResponse
                         (JString (lit "def f(x): return x + 1"))
                         (JString (lit "fixed dangling operator"))
                         (JArray [JString (lit "incomplete expression")]) |},
          t).
Proof.
  assert (Hparse : JSON_parse scenario_reply
    = Some (JObject
              [ (lit "correctedCode", JString (lit "def f(x): return x + 1"));
                (lit "explanation", JString (lit "fixed dangling operator"));
                (lit "issues",
                 JArray [JString (lit "incomplete expression")]) ]))
    by (vm_compute; reflexivity).
  split; [exact Hparse|].
  split; [discriminate|]. split; [discriminate|].
  apply (well_formed_reply_is_returned_verbatim sample_runtime (lit "x = 1")
           scenario_reply _ _ _ _ Hparse);
    try reflexivity; discriminate.
Defined.

(** ** C6 *)

(** An [issues] that is an array of numbers is not a sequence of strings,
    and it is kept: the result has two issues that are not strings. *)
Lemma numeric_issues_are_kept :
  JSON_parse (extract_json numeric_issues_reply)
  = Some (JObject
            [ (lit "correctedCode", JString (lit "x"));
              (lit "issues",
               JArray [ JNumber (mkNumber false 1 0);
                        JNumber (mkNumber false 2 0) ]) ])
  /\ ~ Forall is_string
        [ JNumber (mkNumber false 1 0); JNumber (mkNumber false 2 0) ]
  /\ fst (normalize sample_runtime (lit "x = 1") numeric_issues_reply)
     = Returned
         {| status := 200;
            body := CorrectionResponse (JString (lit "x"))
                      (JString explanation_default)
                      (JArray [ JNumber (mkNumber false 1 0);
                                JNumber (mkNumber false 2 0) ]) |}.
Proof.
  split; [vm_compute; reflexivity|]. split.
  - intros H. inversion H as [|? ? Hhead _]. exact Hhead.
  - vm_compute. reflexivity.
Qed.

Lemma defaults_run :
  JSON_parse (extract_json only_code_reply)
  = Some (JObject [(lit "correctedCode", JString (lit "x"))])
  /\ ToBoolean (obj_get (lit "correctedCode")
                  [(lit "correctedCode", JString (lit "x"))]) = true
  /\ fst (normalize sample_runtime (lit "x = 1") only_code_reply)
     = Returned
         {| status := 200;
            body := CorrectionResponse (JString (lit "x"))
                      (JString (lit "Code has been analyzed and corrections have been applied."))
                      (JArray [JString (lit "Code analysis completed")]) |}.
Proof.
  assert (Hparse : JSON_parse (extract_json only_code_reply)
    = Some (JObject [(lit "correctedCode", JString (lit "x"))]))
    by (vm_compute; reflexivity).
  split; [exact Hparse|]. split; [reflexivity|].
  destruct (defaults_for_explanation_and_issues sample_runtime (lit "x = 1")
              only_code_reply _ Hparse eq_refl)
    as (t & explanation & issues & Hrun & Hexp & _ & Hiss & _).
  rewrite Hrun. cbn [fst].
  rewrite (Hexp eq_refl), (Hiss eq_refl). reflexivity.
Defined.

(** ** C8 *)

Lemma fenced_object_run :
  ~ In (code "{") (lit "json")
  /\ trimStart (tag_rest (lit "json") ++ LF :: xyz_object) = xyz_object
  /\ strip_fence (trim (fenced (lit "json") xyz_object)) = xyz_object
  /\ strip_fence (trim (fenced (lit "json") xyz_object))
     <> trim (fenced (lit "json") xyz_object)
  /\ extract_json (fenced (lit "json") xyz_object) = xyz_object
  /\ exists t,
       normalize sample_runtime (lit "x = 1") (fenced (lit "json") xyz_object)
       = (Returned
            {| status := 200;
               body := CorrectionResponse (JString (lit "x"))
                         (JString (lit "y")) (JArray [JString (lit "z")]) |},
          t).
Proof.
  assert (Htag : ~ In (code "{") (lit "json")).
  { simpl. intros [H|[H|[H|[H|[]]]]]; discriminate H. }
  destruct (fenced_object_is_unwrapped sample_runtime (lit "x = 1")
              (lit "json") Htag)
    as (Hstrip & _ & Hjson & Hclean & Hrun).
  split; [exact Htag|]. split; [reflexivity|].
  split; [exact Hjson|].
  split; [rewrite Hjson; vm_compute; discriminate|].
  split; [exact Hclean|exact Hrun].
Defined.

(** ** A reply that is the JSON text [null] *)

(** Reading [correctedCode] from [null] throws inside the normaliser; the
    catch block answers with status 500 and the message of the runtime in
    [details]. *)
Lemma null_reply_is_answered_500 :
  JSON_parse (extract_json (lit "null")) = Some JNull
  /\ fst (normalize sample_runtime (lit "x = 1") (lit "null"))
     = Thrown (Error (lit "TypeError")
                 (typeErrorMessage sample_runtime ReadOfNull))
  /\ fst (POST sample_runtime configured_env (sample_request "x = 1")
            (replying (lit "null")))
     = Returned (generic_error (typeErrorMessage sample_runtime ReadOfNull)).
Proof.
  split; [vm_compute; reflexivity|]. split; vm_compute; reflexivity.
Qed.

(* ===================================================================== *)
(** * Further properties of the handler *)
(* ===================================================================== *)

(** ** The bodies of the error responses *)

Lemma error_response_body (st : N) (msg : string) :
  msg <> EmptyString -> error_body (body (error_response st msg)).
Proof.
  intros Hmsg. exists (lit msg). split.
  - destruct msg; [contradiction|discriminate].
  - left. reflexivity.
Qed.

Lemma classify_error_body (e : thrown) : error_body (body (classify e)).
Proof.
  unfold classify. destruct e as [name msg|v].
  - repeat break_goal; try (apply error_response_body; discriminate).
    eexists. split; [|right; eexists; reflexivity]. discriminate.
  - eexists. split; [|right; eexists; reflexivity]. discriminate.
Qed.

(** ** Texts found in a text *)

Lemma includes_app_r (sub p s : jsstring) :
  includes sub s = true -> includes sub (p ++ s) = true.
Proof.
  intros H. induction p as [|a p IH]; simpl; [exact H|].
  rewrite IH. apply orb_true_r.
Qed.

Lemma includes_cons (sub s : jsstring) (c : N) :
  includes sub s = true -> includes sub (c :: s) = true.
Proof. intros H. simpl. rewrite H. apply orb_true_r. Qed.

Lemma includes_here (sub s : jsstring) :
  startsWith sub s = true -> includes sub s = true.
Proof. intros H. destruct s; simpl; rewrite H; reflexivity. Qed.

Lemma startsWith_nil (s : jsstring) : startsWith [] s = true.
Proof. reflexivity. Qed.

Lemma startsWith_cons (p s : jsstring) (c : N) :
  startsWith p s = true -> startsWith (c :: p) (c :: s) = true.
Proof. intros H. simpl. rewrite N.eqb_refl. exact H. Qed.

Lemma startsWith_app_both (l p s : jsstring) :
  startsWith p s = true -> startsWith (l ++ p) (l ++ s) = true.
Proof.
  intros H. induction l as [|a l IH]; [exact H|].
  simpl. rewrite N.eqb_refl. exact IH.
Qed.

(** A text starts with another one built from the same pieces, and a text
    holds another one that is met on the way through its pieces. *)
Ltac same_start :=
  repeat first
    [ apply startsWith_nil
    | apply startsWith_cons
    | apply startsWith_app_both ].

Ltac find_infix :=
  first
    [ apply includes_here; solve [same_start]
    | apply includes_cons; find_infix
    | apply includes_app_r; find_infix ].

(** ** Commentary around a text between braces *)

Lemma trimEnd_app_stop (u q : jsstring) (c : N) :
  is_white_space c = false ->
  trimEnd (u ++ c :: q) = u ++ c :: trimEnd q.
Proof.
  intros Hc. induction u as [|x u IH]; simpl.
  - rewrite Hc. destruct (trimEnd q); reflexivity.
  - rewrite IH. destruct (u ++ c :: trimEnd q) eqn:E; [|reflexivity].
    apply app_eq_nil in E as [_ E]. discriminate.
Qed.

Lemma trimEnd_incl (q : jsstring) (c : N) :
  ~ In c q -> ~ In c (trimEnd q).
Proof.
  induction q as [|x q IH]; simpl; [auto|].
  intros H Hin.
  assert (Hq : ~ In c (trimEnd q)) by (apply IH; intros F; apply H; auto).
  destruct (trimEnd q) as [|y t].
  - destruct (is_white_space x); [exact Hin|].
    destruct Hin as [->|[]]. apply H. left. reflexivity.
  - destruct Hin as [->|Hin]; [apply H; left; reflexivity|].
    exact (Hq Hin).
Qed.

(** A marker found at the start of a text lies before the first code unit
    that the marker does not have; likewise at the end. *)
Lemma startsWith_before (m p r : jsstring) (c : N) :
  ~ In c m -> startsWith m (p ++ c :: r) = true ->
  exists p', p = m ++ p'.
Proof.
  revert p. induction m as [|a m IH]; intros p Hm H.
  - exists p. reflexivity.
  - destruct p as [|b p]; simpl in H.
    + apply andb_true_iff in H as [E _]. apply N.eqb_eq in E. subst a.
      exfalso. apply Hm. left. reflexivity.
    + apply andb_true_iff in H as [E H]. apply N.eqb_eq in E. subst b.
      destruct (IH p) as [p' ->]; [intros F; apply Hm; right; exact F|exact H|].
      exists p'. reflexivity.
Qed.

Lemma endsWith_after (m u q : jsstring) (c : N) :
  ~ In c m -> endsWith m (u ++ c :: q) = true ->
  exists q', q = q' ++ m.
Proof.
  unfold endsWith. intros Hm H.
  rewrite rev_app_distr in H. cbn [rev] in H. rewrite <- app_assoc in H.
  cbn [app] in H.
  apply startsWith_before in H as [x Hx]; [|rewrite <- in_rev; exact Hm].
  exists (rev x). apply (f_equal (@rev N)) in Hx.
  rewrite rev_involutive, rev_app_distr, rev_involutive in Hx. exact Hx.
Qed.

Lemma upto_last_absent (c : N) (q : jsstring) :
  ~ In c q -> upto_last c q = [].
Proof.
  induction q as [|x q IH]; simpl; intros H; [reflexivity|].
  rewrite IH by (intros F; apply H; right; exact F).
  destruct (x =? c) eqn:E; [|reflexivity].
  apply N.eqb_eq in E. subst x. exfalso. apply H. left. reflexivity.
Qed.

Lemma upto_last_app (c : N) (u q : jsstring) :
  ~ In c q -> upto_last c (u ++ c :: q) = u ++ [c].
Proof.
  intros Hq. induction u as [|x u IH]; simpl.
  - rewrite (upto_last_absent c q Hq), N.eqb_refl. reflexivity.
  - rewrite IH. destruct (u ++ [c]) eqn:E; [|reflexivity].
    apply app_eq_nil in E as [_ E]. discriminate.
Qed.

Lemma trim_around (mid s : jsstring) : around mid s -> around mid (trim s).
Proof.
  intros (p & q & -> & Hp & Hq). unfold trim.
  rewrite trimStart_app_stop by reflexivity.
  replace (trimStart p ++ code "{" :: mid ++ code "}" :: q)
    with ((trimStart p ++ code "{" :: mid) ++ code "}" :: q)
    by (list_norm; reflexivity).
  rewrite trimEnd_app_stop by reflexivity.
  exists (trimStart p), (trimEnd q). split; [list_norm; reflexivity|].
  split; [apply trimStart_incl; exact Hp|apply trimEnd_incl; exact Hq].
Qed.

Lemma replace_leading_around (marker mid s : jsstring) :
  ~ In (code "{") marker ->
  around mid s -> around mid (replace_leading marker s).
Proof.
  intros Hm (p & q & -> & Hp & Hq). unfold replace_leading.
  destruct (startsWith marker _) eqn:E;
    [|exists p, q; split; [reflexivity|split; assumption]].
  apply startsWith_before in E as [p' ->]; [|exact Hm].
  rewrite <- app_assoc, skipn_app, skipn_all, Nat.sub_diag. cbn [app skipn].
  rewrite trimStart_app_stop by reflexivity.
  exists (trimStart p'), q. split; [reflexivity|]. split; [|exact Hq].
  apply trimStart_incl. intros F. apply Hp. apply in_or_app. right. exact F.
Qed.

Lemma replace_trailing_fence_around (mid s : jsstring) :
  around mid s -> around mid (replace_trailing_fence s).
Proof.
  intros (p & q & -> & Hp & Hq). unfold replace_trailing_fence.
  destruct (endsWith (lit "```") _) eqn:E;
    [|exists p, q; split; [reflexivity|split; assumption]].
  replace (p ++ code "{" :: mid ++ code "}" :: q)
    with ((p ++ code "{" :: mid) ++ code "}" :: q) in *
    by (list_norm; reflexivity).
  apply endsWith_after in E as [q' ->];
    [|intros F; vm_compute in F; intuition discriminate].
  replace ((p ++ code "{" :: mid) ++ code "}" :: q' ++ lit "```")
    with (((p ++ code "{" :: mid) ++ code "}" :: q') ++ lit "```")
    by (list_norm; reflexivity).
  change 3%nat with (length (lit "```")). rewrite firstn_app_exact.
  rewrite trimEnd_app_stop by reflexivity.
  exists p, (trimEnd q'). split; [list_norm; reflexivity|].
  split; [exact Hp|]. apply trimEnd_incl.
  intros F. apply Hq. apply in_or_app. left. exact F.
Qed.

Lemma strip_fence_around (mid s : jsstring) :
  around mid s -> around mid (strip_fence s).
Proof.
  intros H. unfold strip_fence.
  destruct (startsWith (lit "```json") s).
  - apply replace_trailing_fence_around, replace_leading_around; [|exact H].
    intros F; vm_compute in F; intuition discriminate.
  - destruct (startsWith (lit "```") s); [|exact H].
    apply replace_trailing_fence_around, replace_leading_around; [|exact H].
    intros F; vm_compute in F; intuition discriminate.
Qed.

Lemma match_braces_around (mid s : jsstring) :
  around mid s -> match_braces s = Some (code "{" :: mid ++ [code "}"]).
Proof.
  intros (p & q & -> & Hp & Hq). unfold match_braces.
  rewrite (from_first_skip _ _ _ Hp), (upto_last_app _ _ _ Hq).
  destruct (mid ++ [code "}"]) eqn:E; [|reflexivity].
  apply app_eq_nil in E as [_ E]. discriminate.
Qed.

Lemma extract_json_around (pre mid post : jsstring) :
  ~ In (code "{") pre -> ~ In (code "}") post ->
  extract_json (pre ++ (code "{" :: mid ++ [code "}"]) ++ post)
  = code "{" :: mid ++ [code "}"].
Proof.
  intros Hpre Hpost. unfold extract_json.
  rewrite (match_braces_around mid); [reflexivity|].
  apply strip_fence_around, trim_around.
  exists pre, post. split; [list_norm; reflexivity|]. split; assumption.
Qed.

(** The text read for an object, cut out of the white space around it. *)
Lemma JSON_parse_object_text (reply : jsstring) o :
  JSON_parse reply = Some (JObject o) ->
  exists w mid w',
    reply = w ++ (code "{" :: mid ++ [code "}"]) ++ w'
    /\ skip_ws w = [] /\ skip_ws w' = []
    /\ JSON_parse (code "{" :: mid ++ [code "}"]) = Some (JObject o).
Proof.
  unfold JSON_parse at 1. intros H.
  destruct (parse_value (S (2 * length reply)) reply) as [v rest| |] eqn:E;
    try discriminate.
  destruct (skip_ws rest) eqn:Hrest; [|discriminate].
  inversion H; subst v; clear H.
  destruct (parse_object_shape _ _ _ _ E) as (w & mid & Hs & Hw).
  destruct (proj1 (parse_split _) _ _ _ E) as (a & Ha & Hcut).
  assert (a = w ++ code "{" :: mid ++ [code "}"]) as ->.
  { apply (app_inv_tail rest). rewrite <- Ha, Hs. list_norm. reflexivity. }
  exists w, mid, rest. split; [exact Hs|]. split; [exact Hw|].
  split; [exact Hrest|].
  specialize (Hcut [] rest eq_refl). rewrite app_nil_r in Hcut.
  rewrite parse_value_skip_ws in Hcut by exact Hw.
  unfold JSON_parse.
  pose proof (JSON_parse_fuel (code "{" :: mid ++ [code "}"])) as Hfuel.
  assert (Hlen : (S (2 * length (code "{" :: mid ++ [code "}"]))
                  <= S (2 * length reply))%nat).
  { rewrite Hs. rewrite !length_app. lia. }
  rewrite <- (proj1 (parse_mono _ _ Hlen) _ Hfuel).
  rewrite Hcut. reflexivity.
Qed.

Lemma skip_ws_nil_absent (w : jsstring) (c : N) :
  skip_ws w = [] -> is_json_ws c = false -> ~ In c w.
Proof.
  induction w as [|x w IH]; simpl; intros H Hc; [auto|].
  destruct (is_json_ws x) eqn:E; [|discriminate].
  intros [->|F]; [congruence|]. exact (IH H Hc F).
Qed.

Lemma JSON_parse_extract_json_around (pre reply post : jsstring) o :
  JSON_parse reply = Some (JObject o) ->
  ~ In (code "{") pre -> ~ In (code "}") post ->
  JSON_parse (extract_json (pre ++ reply ++ post)) = Some (JObject o).
Proof.
  intros H Hpre Hpost.
  destruct (JSON_parse_object_text reply o H)
    as (w & mid & w' & -> & Hw & Hw' & Hparse).
  replace (pre ++ (w ++ (code "{" :: mid ++ [code "}"]) ++ w') ++ post)
    with ((pre ++ w) ++ (code "{" :: mid ++ [code "}"]) ++ (w' ++ post))
    by (list_norm; reflexivity).
  rewrite extract_json_around; [exact Hparse| |].
  - intros F. apply in_app_or in F as [F|F]; [exact (Hpre F)|].
    exact (skip_ws_nil_absent w (code "{") Hw eq_refl F).
  - intros F. apply in_app_or in F as [F|F]; [|exact (Hpost F)].
    exact (skip_ws_nil_absent w' (code "}") Hw' eq_refl F).
Qed.

(** ** The lines of the fallback *)

Lemma absent (c : N) (s : jsstring) :
  existsb (N.eqb c) s = false -> ~ In c s.
Proof.
  intros H F. assert (E : existsb (N.eqb c) s = true).
  { apply existsb_exists. exists c. split; [exact F|apply N.eqb_refl]. }
  rewrite H in E. discriminate.
Qed.

Lemma lines_nonempty (s : jsstring) : lines s <> [].
Proof.
  destruct s as [|c s]; cbn [lines]; [discriminate|].
  destruct (c =? LF); [discriminate|]. destruct (lines s); discriminate.
Qed.

Lemma lines_app_line (p s : jsstring) :
  ~ In LF p ->
  lines (p ++ s)
  = match lines s with
    | l :: ls => (p ++ l) :: ls
    | [] => [p]
    end.
Proof.
  intros Hp. induction p as [|c p IH]; cbn [app].
  - destruct (lines s) eqn:E; [|reflexivity].
    exfalso. exact (lines_nonempty s E).
  - cbn [lines].
    destruct (c =? LF) eqn:E.
    + apply N.eqb_eq in E. subst c. exfalso. apply Hp. left. reflexivity.
    + rewrite IH by (intros F; apply Hp; right; exact F).
      destruct (lines s); reflexivity.
Qed.

Lemma lines_app_LF (a b : jsstring) :
  lines (a ++ LF :: b) = lines a ++ lines b.
Proof.
  induction a as [|c a IH]; cbn [app lines].
  - rewrite N.eqb_refl. reflexivity.
  - destruct (c =? LF); rewrite IH; [reflexivity|].
    destruct (lines a) eqn:E; [|reflexivity].
    exfalso. exact (lines_nonempty a E).
Qed.

Lemma lines_line (p : jsstring) : ~ In LF p -> lines p = [p].
Proof.
  intros Hp. rewrite <- (app_nil_r p) at 1.
  rewrite (lines_app_line p [] Hp). cbn [lines]. rewrite app_nil_r.
  reflexivity.
Qed.

(** Replacing every line feed by a line feed and a prefix puts the prefix
    before every line but the first. *)
Lemma lines_replace_all_LF (p r : jsstring) :
  ~ In LF p ->
  lines (replace_all_LF (LF :: p) r)
  = match lines r with
    | l :: ls => l :: List.map (app p) ls
    | [] => []
    end.
Proof.
  intros Hp. unfold replace_all_LF.
  induction r as [|c r IH]; [reflexivity|].
  cbn [flat_map lines].
  destruct (c =? LF) eqn:E.
  - cbn [app lines]. rewrite N.eqb_refl.
    rewrite (lines_app_line p _ Hp), IH.
    destruct (lines r) eqn:El; [|reflexivity].
    exfalso. exact (lines_nonempty r El).
  - cbn [app lines]. rewrite E, IH.
    destruct (lines r) eqn:El; [|reflexivity].
    exfalso. exact (lines_nonempty r El).
Qed.

(** X19. The fallback shows the whole reply as comments: the lines of its
    [correctedCode] are the heading, every line of the raw reply with
    [// ] put before it (an empty reply giving one such line), an empty
    line, the line [// Original code:], and the lines of the code of the
    request, unchanged. *)
Theorem fallback_code_is_commented (reply original : jsstring) :
  lines (fallback_code reply original)
  = lit "// Groq response (parsing failed):"
    :: List.map (app (lit "// ")) (lines reply)
    ++ [] :: lit "// Original code:" :: lines original.
Proof.
  unfold fallback_code.
  rewrite lines_app_LF.
  rewrite lines_line by (apply absent; reflexivity).
  cbn [app]. f_equal.
  rewrite app_assoc, lines_app_LF.
  rewrite (lines_app_line (lit "// ")) by (apply absent; reflexivity).
  rewrite lines_replace_all_LF by (apply absent; reflexivity).
  cbn [lines]. rewrite N.eqb_refl.
  rewrite lines_app_LF.
  rewrite (lines_line (lit "// Original code:"))
    by (apply absent; reflexivity).
  destruct (lines reply) as [|l ls] eqn:E.
  - exfalso. exact (lines_nonempty reply E).
  - reflexivity.
Qed.

(** ** The text of an object of strings is read back *)

Lemma stringify_members_head (kv : jsstring * jsstring) l :
  exists t, stringify_members (kv :: l) = DQUOTE :: t.
Proof. destruct kv as [k v]. eexists. reflexivity. Qed.

Lemma parse_members_strings (l : list (jsstring * jsstring)) :
  forall n rest acc, l <> [] -> (length l < n)%nat ->
    parse_members n (stringify_members l ++ code "}" :: rest) acc
    = Parsed
        (fold_left (fun a kv => obj_set (fst kv) (JString (snd kv)) a) l acc)
        rest.
Proof.
  induction l as [|[k v] l IH]; intros n rest acc Hl Hn; [contradiction|].
  destruct n as [|n]; [simpl in Hn; lia|].
  destruct n as [|n]; [simpl in Hn; lia|].
  destruct l as [|kv l].
  - cbn [stringify_members fold_left fst snd]. rewrite app_nil_r.
    rewrite <- app_assoc. cbn [app].
    rewrite (parse_members_step _ _ (JString v))
      by (try apply parse_value_quoted; reflexivity).
    reflexivity.
  - change (stringify_members ((k, v) :: kv :: l))
      with (QuoteJSONString k ++ code ":" :: QuoteJSONString v
            ++ code "," :: stringify_members (kv :: l)).
    rewrite <- app_assoc. cbn [app]. rewrite <- app_assoc. cbn [app].
    rewrite (parse_members_step _ _ (JString v))
      by (try apply parse_value_quoted; reflexivity).
    change (code "," =? code ",") with true. cbv iota.
    rewrite IH; [reflexivity|discriminate|simpl in *; lia].
Qed.

Lemma stringify_members_length (l : list (jsstring * jsstring)) :
  (length l <= length (stringify_members l))%nat.
Proof.
  induction l as [|[k v] l IH]; [simpl; lia|].
  cbn [stringify_members]. rewrite length_app. cbn [length].
  rewrite length_app.
  pose proof (QuoteJSONString_length k). pose proof (QuoteJSONString_length v).
  destruct l as [|kv l]; [simpl; lia|].
  cbn [length] in *. lia.
Qed.

Lemma JSON_parse_stringify_object (l : list (jsstring * jsstring)) :
  l <> [] -> JSON_parse (stringify_object l) = Some (object_of l).
Proof.
  intros Hl. set (n := S (length l)).
  assert (Hrun : parse_value (S n) (stringify_object l)
                 = Parsed (object_of l) []).
  { unfold stringify_object.
    destruct l as [|kv l]; [contradiction|].
    destruct (stringify_members_head kv l) as [t Ht].
    pose proof (parse_members_strings (kv :: l) n [] [] Hl
                  ltac:(unfold n; lia)) as Hm.
    rewrite Ht in *. cbn [app] in *.
    cbn [parse_value skip_ws].
    change (is_json_ws (code "{")) with false. cbv iota.
    change (code "{" =? code "{") with true. cbv iota.
    cbn [skip_ws].
    change (is_json_ws DQUOTE) with false. cbv iota.
    change (DQUOTE =? code "}") with false. cbv iota.
    rewrite Hm. reflexivity. }
  assert (Hfuel : (S n <= S (2 * length (stringify_object l)))%nat).
  { unfold stringify_object, n. cbn [length]. rewrite length_app.
    pose proof (stringify_members_length l). cbn [length]. lia. }
  unfold JSON_parse.
  rewrite (proj1 (parse_mono _ _ Hfuel) (stringify_object l))
    by (rewrite Hrun; discriminate).
  rewrite Hrun. reflexivity.
Qed.

Lemma JSON_parse_request_body (originalCode language description : jsstring) :
  JSON_parse (request_body originalCode language description)
  = Some (JObject ([ (lit "code", JString originalCode);
                     (lit "language", JString language) ]
                   ++ match trim description with
                      | [] => []
                      | d => [ (lit "description", JString d) ]
                      end)).
Proof.
  unfold request_body. rewrite JSON_parse_stringify_object.
  - unfold object_of, request_members.
    destruct (trim description); reflexivity.
  - discriminate.
Qed.

Section MoreOfTheHandler.

Variable rt : Runtime.

Ltac invert_bind H :=
  let a := fresh "a" in
  let t1 := fresh "t" in
  let t2 := fresh "t" in
  let H1 := fresh "Hstep" in
  let Ht := fresh "Ht" in
  apply bind_returned in H as (a & t1 & t2 & H1 & H & Ht).

Lemma before_provider_early_cases env request early t :
  before_provider rt env request = (Returned (inl early), t) ->
  early = error_response 500
            "Groq API key not configured. Please add GROQ_API_KEY to your environment variables."
  \/ early = error_response 400 "Code is required".
Proof.
  unfold before_provider. intros H.
  destruct (negb (ToBoolean (env_value (GROQ_API_KEY env)))).
  - inversion H; subst. left. reflexivity.
  - do 5 invert_bind H.
    destruct a3 as [code'|].
    + invert_bind H. discriminate.
    + inversion H; subst. right. reflexivity.
Qed.

(** The answer of the handler, in every case. *)
Lemma POST_answer (env : ProcessEnv) (request : jsstring)
    (provider : Provider) :
  exists resp t,
    POST rt env request provider = (Returned resp, t)
    /\ ((status resp = 200 /\ success_body (body resp))
        \/ ((status resp = 400 \/ status resp = 401 \/ status resp = 429
             \/ status resp = 500 \/ status resp = 504)
            /\ error_body (body resp))).
Proof.
  assert (Hclass : forall e,
    (status (classify e) = 400 \/ status (classify e) = 401
     \/ status (classify e) = 429 \/ status (classify e) = 500
     \/ status (classify e) = 504)
    /\ error_body (body (classify e))).
  { intros e. split; [|apply classify_error_body].
    destruct (classify_status e) as [E|[E|[E|E]]]; rewrite E; auto. }
  destruct (before_provider rt env request) as [[[early|[code prompt]]|e] t0]
    eqn:Hbefore;
    pose proof (before_provider_silent rt env request) as Hsilent;
    rewrite Hbefore in Hsilent; cbn [snd] in Hsilent; subst t0.
  - rewrite (POST_early rt _ _ provider _ Hbefore).
    eexists. eexists. split; [reflexivity|]. right.
    destruct (before_provider_early_cases _ _ _ _ Hbefore) as [-> | ->].
    + split; [auto|]. apply error_response_body. discriminate.
    + split; [auto|]. apply error_response_body. discriminate.
  - pose proof (before_provider_accepts rt _ _ _ _ _ Hbefore) as Hcode.
    destruct (provider (chat_request prompt)) as [completion|e] eqn:Hp.
    + rewrite (POST_provider_returns rt _ _ _ _ _ _ Hbefore Hp).
      cbv zeta.
      destruct (normalize rt code (responseText_of completion))
        as [[r|e] tn] eqn:Hn.
      * eexists. eexists. split; [reflexivity|]. left.
        apply normalize_fields in Hn
          as (Hst & cc & ex & iss & Hbody & Hcc & _);
          [|intros ->; apply Hcode; reflexivity].
        split; [exact Hst|]. exists cc, ex, iss. split; assumption.
      * eexists. eexists. split; [reflexivity|]. right. apply Hclass.
    + rewrite (POST_provider_throws rt _ _ _ _ _ _ Hbefore Hp).
      eexists. eexists. split; [reflexivity|]. right. apply Hclass.
  - rewrite (POST_throws_early rt _ _ provider _ Hbefore).
    eexists. eexists. split; [reflexivity|]. right. apply Hclass.
Qed.

(** An error body is served as it is. *)
Lemma served_error_body (b : value) : error_body b -> served b = b.
Proof.
  intros (msg & _ & [-> | (details & ->)]); reflexivity.
Qed.

(** The body of a success, as it is served. *)
Lemma served_success_body (correctedCode explanation : value)
    (issues : list value) :
  ToBoolean correctedCode = true -> ToBoolean explanation = true ->
  three_fields
    (served (CorrectionResponse correctedCode explanation (JArray issues))).
Proof.
  intros Hcc Hex.
  rewrite served_CorrectionResponse
    by (intros ->; discriminate).
  exists (served correctedCode), (served explanation),
    (List.map served_element issues).
  split; [reflexivity|]. split.
  - destruct (served_truthy _ Hcc) as [H|(n & _ & _ & H)]; auto.
  - destruct (served_truthy _ Hex) as [H|(n & _ & _ & H)]; auto.
Qed.

(** The answer of the handler as it is served, in every case. *)
Lemma POST_answer_served (env : ProcessEnv) (request : jsstring)
    (provider : Provider) :
  exists resp t,
    POST rt env request provider = (Returned resp, t)
    /\ ((status resp = 200 /\ three_fields (served (body resp)))
        \/ ((status resp = 400 \/ status resp = 401 \/ status resp = 429
             \/ status resp = 500 \/ status resp = 504)
            /\ error_body (served (body resp)))).
Proof.
  destruct (POST_answer env request provider)
    as (resp & t & Hrun & [[Hst _]|[Hst Hbody]]).
  - exists resp, t. split; [exact Hrun|]. left. split; [exact Hst|].
    destruct (before_provider rt env request)
      as [[[early|[code prompt]]|e] t0] eqn:Hbefore;
      pose proof (before_provider_silent rt env request) as Hsilent;
      rewrite Hbefore in Hsilent; cbn [snd] in Hsilent; subst t0.
    + rewrite (POST_early rt _ _ provider _ Hbefore) in Hrun.
      inversion Hrun; subst. exfalso.
      destruct (before_provider_early_cases _ _ _ _ Hbefore) as [-> | ->];
        discriminate Hst.
    + pose proof (before_provider_accepts rt _ _ _ _ _ Hbefore) as Hcode.
      destruct (provider (chat_request prompt)) as [completion|e] eqn:Hp.
      * rewrite (POST_provider_returns rt _ _ _ _ _ _ Hbefore Hp) in Hrun.
        cbv zeta in Hrun.
        destruct (normalize rt code (responseText_of completion))
          as [[r|e] tn] eqn:Hn.
        -- inversion Hrun; subst.
           apply normalize_fields in Hn
             as (_ & cc & ex & iss & -> & Hcc & Hex);
             [|intros ->; apply Hcode; reflexivity].
           apply served_success_body; assumption.
        -- inversion Hrun; subst. exfalso.
           destruct (classify_status e) as [E|[E|[E|E]]];
             rewrite E in Hst; discriminate Hst.
      * rewrite (POST_provider_throws rt _ _ _ _ _ _ Hbefore Hp) in Hrun.
        inversion Hrun; subst. exfalso.
        destruct (classify_status e) as [E|[E|[E|E]]];
          rewrite E in Hst; discriminate Hst.
    + rewrite (POST_throws_early rt _ _ provider _ Hbefore) in Hrun.
      inversion Hrun; subst. exfalso.
      destruct (classify_status e) as [E|[E|[E|E]]];
        rewrite E in Hst; discriminate Hst.
  - exists resp, t. split; [exact Hrun|]. right. split; [exact Hst|].
    rewrite (served_error_body _ Hbody). exact Hbody.
Qed.

(** X1. Whenever the call of the provider settles, by a completion or by
    an exception, or is not reached, the handler answers the request,
    whatever the environment and the body: nothing is thrown out of it,
    and the answer as it is served, that is the body after
    [JSON.stringify] and the client's [JSON.parse], is either a success,
    with status 200 and a body of the three fields, [issues] an array and
    each of [correctedCode] and [explanation] truthy or, for a number
    that is not finite, [null]; or an error, with one of the statuses
    400, 401, 429, 500 and 504 and a body whose [error] is a non-empty
    string, followed at most by [details], a string. The handler sets no
    time limit of its own: a call that never settles is outside the
    statement. *)
Theorem every_request_is_answered
    (env : ProcessEnv) (request : jsstring) (provider : Provider) :
  exists resp t,
    POST rt env request provider = (Returned resp, t)
    /\ ((status resp = 200 /\ three_fields (served (body resp)))
        \/ ((status resp = 400 \/ status resp = 401 \/ status resp = 429
             \/ status resp = 500 \/ status resp = 504)
            /\ error_body (served (body resp)))).
Proof. exact (POST_answer_served env request provider). Qed.

Lemma normalize_calls_nothing code reply :
  provider_calls (snd (normalize rt code reply)) = [].
Proof.
  unfold normalize.
  destruct (JSON_parse (extract_json reply)) as [parsed|]; [|reflexivity].
  unfold get_or_throw.
  destruct parsed; cbn [Get]; try reflexivity;
    rewrite ?bind_ret;
    repeat match goal with
    | |- context [if ?x then _ else _] => destruct x
    end; reflexivity.
Qed.

(** X2. The provider is called at most once for a request, with no retry:
    exactly once when the steps before the call end with a prompt, and
    then with that prompt as the only message, a user message, for the
    model [llama3-70b-8192] at temperature 0.1, with at most 4000 tokens
    and no streaming; not at all when they end with an early response or
    throw. *)
Theorem provider_is_called_at_most_once
    (env : ProcessEnv) (request : jsstring) (provider : Provider) :
  provider_calls (trace_of (POST rt env request provider))
  = match fst (before_provider rt env request) with
    | Returned (inr (_, prompt)) =>
        [ ProviderCall
            {| messages := [ {| role := lit "user"; content := prompt |} ];
               model := lit "llama3-70b-8192";
               temperature := mkNumber false 1 (-1);
               max_tokens := 4000;
               top_p := 1;
               stream := false |} ]
    | _ => []
    end.
Proof.
  destruct (before_provider rt env request) as [[[early|[code prompt]]|e] t0]
    eqn:Hbefore;
    pose proof (before_provider_silent rt env request) as Hsilent;
    rewrite Hbefore in Hsilent; cbn [snd] in Hsilent; subst t0; cbn [fst].
  - rewrite (POST_early rt _ _ provider _ Hbefore). reflexivity.
  - destruct (provider (chat_request prompt)) as [completion|e] eqn:Hp.
    + rewrite (POST_provider_returns rt _ _ _ _ _ _ Hbefore Hp).
      cbv zeta.
      pose proof (normalize_calls_nothing code (responseText_of completion))
        as Hn.
      destruct (normalize rt code (responseText_of completion))
        as [[r|e] tn]; cbn [snd] in Hn;
        unfold trace_of, provider_calls in *; cbn [snd app filter];
        cbn [is_provider_call raw_response_log];
        rewrite ?filter_app, Hn; reflexivity.
    + rewrite (POST_provider_throws rt _ _ _ _ _ _ Hbefore Hp). reflexivity.
  - rewrite (POST_throws_early rt _ _ provider _ Hbefore). reflexivity.
Qed.

(** The prompt built around a context line. *)
Lemma build_prompt_text (code language : jsstring) (descr : value)
    (context : jsstring) :
  (if ToBoolean descr
   then d <- template rt descr ;; ret (lit "Context: " ++ d)
   else ret []) = ret context ->
  exists prompt,
    build_prompt rt code (JString language) descr = (Returned prompt, [])
    /\ startsWith
         (lit "You are an expert " ++ language
          ++ lit " developer and code reviewer.") prompt = true
    /\ includes
         (LF :: lit "```" ++ language ++ LF :: code ++ LF :: lit "```"
          ++ [LF]) prompt = true
    /\ includes (LF :: context ++ [LF]) prompt = true.
Proof.
  intros Hcontext.
  eexists. split; [|split; [|split]].
  - unfold build_prompt.
    change (template rt (JString language)) with (@ret jsstring language).
    rewrite bind_ret, Hcontext, !bind_ret. reflexivity.
  - cbn [unlines].
    change (lit " developer and code reviewer. Analyze and fix this code. Respond with ONLY valid JSON in this exact format:")
      with (lit " developer and code reviewer."
            ++ lit " Analyze and fix this code. Respond with ONLY valid JSON in this exact format:").
    list_norm. same_start.
  - cbn [unlines]. list_norm. find_infix.
  - cbn [unlines]. list_norm. find_infix.
Qed.

Lemma build_prompt_strings
    (code language : jsstring) (description : option jsstring) :
  exists prompt,
    build_prompt rt code (JString language)
      (match description with Some d => JString d | None => JUndefined end)
    = (Returned prompt, [])
    /\ startsWith
         (lit "You are an expert " ++ language
          ++ lit " developer and code reviewer.") prompt = true
    /\ includes
         (LF :: lit "```" ++ language ++ LF :: code ++ LF :: lit "```"
          ++ [LF]) prompt = true
    /\ match description with
       | Some (c :: d) =>
           includes (LF :: lit "Context: " ++ (c :: d) ++ [LF]) prompt = true
       | _ => True
       end.
Proof.
  destruct description as [[|c d]|].
  - destruct (build_prompt_text code language (JString []) [])
      as (prompt & Hp & Hstart & Hcode & _); [reflexivity|].
    exists prompt. auto.
  - destruct (build_prompt_text code language (JString (c :: d))
                (lit "Context: " ++ c :: d))
      as (prompt & Hp & Hstart & Hcode & Hcontext); [reflexivity|].
    exists prompt. rewrite <- app_assoc in Hcontext. auto.
  - destruct (build_prompt_text code language JUndefined [])
      as (prompt & Hp & Hstart & Hcode & _); [reflexivity|].
    exists prompt. auto.
Qed.

(** X3. For a language and a description that are strings (or no
    description), the prompt is built without an error and without a
    trace; it starts by naming the language, it holds, on lines of their
    own, the opening fence with the language, the code as it was received
    (not trimmed, not escaped) and the closing fence, and it holds the line
    [Context: description] when the description is not empty. *)
Theorem prompt_carries_the_code
    (code language : jsstring) (description : option jsstring) :
  exists prompt,
    build_prompt rt code (JString language)
      (match description with Some d => JString d | None => JUndefined end)
    = (Returned prompt, [])
    /\ startsWith
         (lit "You are an expert " ++ language
          ++ lit " developer and code reviewer.") prompt = true
    /\ includes
         (LF :: lit "```" ++ language ++ LF :: code ++ LF :: lit "```"
          ++ [LF]) prompt = true
    /\ match description with
       | Some (c :: d) =>
           includes (LF :: lit "Context: " ++ (c :: d) ++ [LF]) prompt = true
       | _ => True
       end.
Proof. exact (build_prompt_strings code language description). Qed.

(** X4. When the provider answers with a completion that has no text (no
    choice, a choice without a message, a content that is [null] or
    empty), the reply is the empty string and the handler answers with the
    fallback: status 200, and a [correctedCode] made of the two comment
    lines, an empty line, the line [// Original code:] and the code of
    the request. *)
Theorem empty_reply_gives_the_fallback
    (env : ProcessEnv) (request : jsstring) (provider : Provider)
    (code prompt : jsstring) (completion : ChatCompletion) :
  before_provider rt env request = (Returned (inr (code, prompt)), []) ->
  provider (chat_request prompt) = Returned completion ->
  no_content completion ->
  fst (POST rt env request provider)
  = Returned
      {| status := 200;
         body := CorrectionResponse
                   (JString (lit "// Groq response (parsing failed):"
                             ++ LF :: lit "// "
                             ++ LF :: LF :: lit "// Original code:"
                             ++ LF :: code))
                   (JString explanation_fallback)
                   (JArray issues_fallback) |}.
Proof.
  intros Hbefore Hp Hnone.
  assert (Hreply : responseText_of completion = []).
  { unfold no_content in Hnone. unfold responseText_of.
    destruct (choices completion) as [|c l]; [reflexivity|].
    destruct (message c) as [m|]; [|reflexivity].
    destruct Hnone as [-> | ->]; reflexivity. }
  rewrite (POST_provider_returns rt _ _ _ _ _ _ Hbefore Hp).
  cbv zeta. rewrite Hreply. reflexivity.
Qed.

(** X5. When the cleaned reply is JSON but neither an object nor [null]
    (an array, a string, a number, a boolean), reading [correctedCode]
    from it gives [undefined], and the result is the partial failure:
    status 200, the original code as [correctedCode], the two fixed
    issues, and one line logged with the value parsed. *)
Theorem reply_that_is_no_object_echoes_the_input
    (original reply : jsstring) (v : value) :
  JSON_parse (extract_json reply) = Some v ->
  v <> JNull ->
  (forall o, v <> JObject o) ->
  normalize rt original reply
  = (Returned
       {| status := 200;
          body := CorrectionResponse (JString original)
                    (JString explanation_missing) (JArray issues_missing) |},
     [missing_code_log v]).
Proof.
  intros Hparse Hnull Hobj. unfold normalize. rewrite Hparse.
  pose proof (JSON_parse_defined _ _ Hparse) as Hdef.
  unfold get_or_throw.
  destruct v; cbn [Get]; try contradiction; try reflexivity.
  exfalso. exact (Hobj props eq_refl).
Qed.

(** X6. When the cleaned reply is the JSON text [null], reading
    [correctedCode] from it throws a [TypeError] inside the [try] block:
    the handler does not answer with a success but with the response that
    the catch block chooses from the message of that error, after the call
    of the provider, the preview of the reply and the error have been
    traced. *)
Theorem null_reply_goes_to_catch
    (env : ProcessEnv) (request : jsstring) (provider : Provider)
    (code prompt : jsstring) (completion : ChatCompletion) :
  before_provider rt env request = (Returned (inr (code, prompt)), []) ->
  provider (chat_request prompt) = Returned completion ->
  JSON_parse (extract_json (responseText_of completion)) = Some JNull ->
  let error := type_error_of rt ReadOfNull in
  POST rt env request provider
  = (Returned (classify error),
     [ ProviderCall (chat_request prompt);
       raw_response_log (responseText_of completion);
       api_error_log error ])
  /\ status (classify error) <> 200.
Proof.
  intros Hbefore Hp Hparse error.
  rewrite (POST_provider_returns rt _ _ _ _ _ _ Hbefore Hp).
  cbv zeta. unfold normalize. rewrite Hparse.
  split; [reflexivity|].
  destruct (classify_status error) as [E|[E|[E|E]]]; rewrite E; discriminate.
Qed.

(** What precedes the provider, for a configured credential and a body
    that is JSON and not [null]. *)
Lemma before_provider_value (env : ProcessEnv) (request : jsstring)
    (json c : value) :
  ToBoolean (env_value (GROQ_API_KEY env)) = true ->
  JSON_parse request = Some json ->
  Get json (lit "code") = Some c ->
  exists language description,
    before_provider rt env request
    = (validated <- validate_code rt c ;;
       match validated with
       | None => ret (inl (error_response 400 "Code is required"))
       | Some code =>
           prompt <- build_prompt rt code language description ;;
           ret (inr (code, prompt))
       end).
Proof.
  intros Hkey Hjson Hcode.
  assert (Hget : forall k, exists x, Get json (lit k) = Some x).
  { intros k. destruct json; try discriminate; eexists; reflexivity. }
  destruct (Hget "language"%string) as [l Hl].
  destruct (Hget "description"%string) as [d Hd].
  exists l, d. unfold before_provider, request_json, get_or_throw.
  rewrite (JSON_parse_without_BOM _ _ Hjson), Hkey, Hjson. cbn [negb].
  rewrite bind_ret, Hcode, Hl, Hd, !bind_ret. reflexivity.
Qed.

(** X7. With the credential configured, a request whose body is JSON, not
    [null], and has no truthy [code] (the property is missing, or it is
    [null], [false], zero or the empty string, or the body is not an
    object at all) is answered with status 400 and [Code is required], and
    the provider is not invoked. *)
Theorem missing_code_is_invalid_input
    (env : ProcessEnv) (request : jsstring) (provider : Provider)
    (json c : value) :
  ToBoolean (env_value (GROQ_API_KEY env)) = true ->
  JSON_parse request = Some json ->
  Get json (lit "code") = Some c ->
  ToBoolean c = false ->
  POST rt env request provider
  = (Returned (error_response 400 "Code is required"), [])
  /\ provider_not_invoked (POST rt env request provider).
Proof.
  intros Hkey Hjson Hcode Hfalsy.
  assert (Hearly : before_provider rt env request
    = (Returned (inl (error_response 400 "Code is required")), [])).
  { destruct (before_provider_value env request json c Hkey Hjson Hcode)
      as (l & d & ->).
    unfold validate_code. rewrite Hfalsy. reflexivity. }
  rewrite (POST_early rt _ _ provider _ Hearly).
  split; reflexivity.
Qed.

(** X8. With the credential configured, a request whose [code] is truthy
    and not a string (a number, [true], an array, an object) is not
    answered with status 400: calling [trim] on it throws a [TypeError],
    and the handler answers with the response that the catch block chooses
    from the message of that error, never a success, without invoking the
    provider. *)
Theorem code_that_is_no_string_goes_to_catch
    (env : ProcessEnv) (request : jsstring) (provider : Provider)
    (json c : value) :
  ToBoolean (env_value (GROQ_API_KEY env)) = true ->
  JSON_parse request = Some json ->
  Get json (lit "code") = Some c ->
  ToBoolean c = true ->
  (forall s, c <> JString s) ->
  let error := type_error_of rt TrimNotCallable in
  POST rt env request provider
  = (Returned (classify error), [api_error_log error])
  /\ status (classify error) <> 400
  /\ status (classify error) <> 200
  /\ provider_not_invoked (POST rt env request provider).
Proof.
  intros Hkey Hjson Hcode Htruthy Hstring error.
  assert (Hthrow : before_provider rt env request = (Thrown error, [])).
  { destruct (before_provider_value env request json c Hkey Hjson Hcode)
      as (l & d & ->).
    unfold validate_code. rewrite Htruthy. cbn [negb].
    destruct c; try reflexivity. exfalso. exact (Hstring s eq_refl). }
  rewrite (POST_throws_early rt _ _ provider _ Hthrow).
  repeat split;
    try (destruct (classify_status error) as [E|[E|[E|E]]]; rewrite E;
         discriminate).
Qed.

(** X9. With the credential configured, a request whose body is the JSON
    text [null] is not answered with status 400: destructuring [null]
    throws a [TypeError], and the handler answers with the response that
    the catch block chooses from the message of that error, without
    invoking the provider. *)
Theorem null_body_goes_to_catch
    (env : ProcessEnv) (request : jsstring) (provider : Provider) :
  ToBoolean (env_value (GROQ_API_KEY env)) = true ->
  JSON_parse request = Some JNull ->
  let error := type_error_of rt DestructureNull in
  POST rt env request provider
  = (Returned (classify error), [api_error_log error])
  /\ status (classify error) <> 400
  /\ status (classify error) <> 200
  /\ provider_not_invoked (POST rt env request provider).
Proof.
  intros Hkey Hjson error.
  assert (Hthrow : before_provider rt env request = (Thrown error, [])).
  { unfold before_provider, request_json.
    rewrite (JSON_parse_without_BOM _ _ Hjson), Hkey, Hjson. reflexivity. }
  rewrite (POST_throws_early rt _ _ provider _ Hthrow).
  repeat split;
    try (destruct (classify_status error) as [E|[E|[E|E]]]; rewrite E;
         discriminate).
Qed.

(** X10. The cleaning drops the commentary around an object: whatever
    stands before the first opening brace and after the last closing brace
    of the reply (prose, white space, fences with or without a tag), the
    cleaned text is the text from that opening brace to that closing
    brace. *)
Theorem commentary_around_the_object_is_dropped
    (pre mid post : jsstring) :
  ~ In (code "{") pre -> ~ In (code "}") post ->
  extract_json (pre ++ (code "{" :: mid ++ [code "}"]) ++ post)
  = code "{" :: mid ++ [code "}"].
Proof. exact (extract_json_around pre mid post). Qed.

(** X11. Commentary does not change the result: when a text is the JSON
    text of an object, the reply made of that text with commentary before
    it that has no opening brace and commentary after it that has no
    closing brace is normalised exactly as the text alone, response and
    trace. *)
Theorem commentary_does_not_change_the_result
    (original pre reply post : jsstring) (o : list (jsstring * value)) :
  JSON_parse reply = Some (JObject o) ->
  ~ In (code "{") pre -> ~ In (code "}") post ->
  normalize rt original (pre ++ reply ++ post) = normalize rt original reply.
Proof.
  intros H Hpre Hpost. unfold normalize.
  rewrite (JSON_parse_extract_json_around pre reply post o H Hpre Hpost).
  rewrite (JSON_parse_extract_json reply o H). reflexivity.
Qed.

End MoreOfTheHandler.

(* ===================================================================== *)
(** * The properties of the page *)
(* ===================================================================== *)

Lemma page_bind_ret {A B : Type} (a : A) (k : A -> Page B) :
  page_bind (page_ret a) k = k a.
Proof. unfold page_bind, page_ret. destruct (k a) as [r t]. reflexivity. Qed.

(** X14. The body that the page sends is JSON, whatever the code, the
    language and the description hold (quotes, backslashes, line breaks,
    lone surrogates): it is read back as the object with the code and the
    language as they are, and with the trimmed description when that is
    not empty; a blank description is not sent. *)
Theorem request_body_is_read_back
    (originalCode language description : jsstring) :
  JSON_parse (request_body originalCode language description)
  = Some (JObject ([ (lit "code", JString originalCode);
                     (lit "language", JString language) ]
                   ++ match trim description with
                      | [] => []
                      | d => [ (lit "description", JString d) ]
                      end)).
Proof.
  exact (JSON_parse_request_body originalCode language description).
Qed.

Section PageFacts.

Variable browser : Browser.
Variable fetch : Server.

Local Open Scope page_scope.

Lemma correctCode_try_fetch (originalCode language description : jsstring) :
  correctCode_try browser fetch originalCode language description
  = match fetch (lit "/api/correct")
            (api_request originalCode language description) with
    | Returned response =>
        let (r, t) := after_fetch browser response in
        (r, api_call originalCode language description :: t)
    | Thrown e => (Thrown e, [api_call originalCode language description])
    end.
Proof.
  unfold correctCode_try, page_fetch, page_bind at 1.
  destruct (fetch _ _) as [response|e]; reflexivity.
Qed.

(** The three ways in which the steps after the answer end: with an error
    and nothing done, with the result set and its toast shown, or with the
    result set and an error. *)
Lemma after_fetch_cases (response : FetchResponse) :
  (exists error, after_fetch browser response = (Thrown error, []))
  \/ (exists data count,
        after_fetch browser response
        = (Returned tt, [SetResult data; success_toast count]))
  \/ (exists data error,
        after_fetch browser response = (Thrown error, [SetResult data])).
Proof.
  unfold after_fetch, response_json, read, to_string.
  destruct (JSON_parse (without_BOM (response_text response))) as [data|];
    [|left; eexists; reflexivity].
  rewrite page_bind_ret.
  destruct (response_ok response); cbn [negb].
  - rewrite page_bind_ret.
    destruct (Get data (lit "correctedCode")) as [cc|] eqn:Ecc;
      [|left; eexists; reflexivity].
    rewrite page_bind_ret.
    destruct (ToBoolean cc); cbn [negb]; [|left; eexists; reflexivity].
    assert (Hget : exists x, Get data (lit "issues") = Some x).
    { destruct data; try discriminate; eexists; reflexivity. }
    destruct Hget as [iss ->].
    unfold page_bind at 1. cbn [page_emit]. rewrite page_bind_ret.
    destruct (ToString (engine browser) _) as [count|].
    + right. left. exists data, count. reflexivity.
    + right. right. eexists. eexists. reflexivity.
  - left.
    destruct (Get data (lit "error")) as [err|];
      [|eexists; reflexivity].
    rewrite page_bind_ret.
    destruct (ToBoolean err).
    + destruct (ToString (engine browser) err); eexists; reflexivity.
    + cbn [ToString]. rewrite !page_bind_ret. eexists. reflexivity.
Qed.

(** X13. Pressing the button settles with the fetch. With a code that is
    empty or white space only, the page shows one error toast and does
    nothing else: no request is sent and the loading state is not touched.
    Otherwise, once the fetch settles, however it does (it rejects, it
    answers with a text that is not JSON, with any status, with any JSON),
    the page has set the loading state, shown the loading toast and sent
    one request to [/api/correct]; then it either sets the result and
    shows the success toast, or logs an error and shows one failure toast
    (after the result was set, in the one case where the number of issues
    cannot be written), and at last it clears the loading state and
    dismisses the loading toast. The page sets no time limit and passes no
    abort signal: while the fetch has not settled the page stays loading,
    and a fetch that never settles is outside the statement. *)
Theorem page_settles_with_the_fetch
    (originalCode language description : jsstring) :
  match trim originalCode with
  | [] =>
      correctCode browser fetch originalCode language description
      = [blank_code_toast]
  | _ :: _ =>
      exists middle,
        correctCode browser fetch originalCode language description
        = [ SetLoading true; loading_toast;
            api_call originalCode language description ]
          ++ middle ++ [ SetLoading false; ToastDismiss ]
        /\ ((exists data count,
               middle = [SetResult data; success_toast count])
            \/ (exists error,
                  middle = [ failure_log error;
                             failure_toast (errorMessage_of error) ])
            \/ (exists data error,
                  middle = [ SetResult data; failure_log error;
                             failure_toast (errorMessage_of error) ]))
  end.
Proof.
  unfold correctCode.
  destruct (trim originalCode) as [|c0 rest] eqn:Etrim; [reflexivity|].
  cbn [ToBoolean negb]. rewrite correctCode_try_fetch.
  destruct (fetch _ _) as [response|e].
  - destruct (after_fetch_cases response)
      as [[error ->]|[(data & count & ->)|(data & error & ->)]].
    + eexists. split; [reflexivity|]. right. left.
      eexists. reflexivity.
    + eexists. split; [reflexivity|]. left.
      eexists. eexists. reflexivity.
    + eexists. split; [reflexivity|]. right. right.
      eexists. eexists. reflexivity.
  - eexists. split; [reflexivity|]. right. left.
    eexists. reflexivity.
Qed.

(** The run of [correctCode] for a server that answers, by what follows
    the answer. *)
Lemma correctCode_answered
    (originalCode language description : jsstring)
    (response : FetchResponse) :
  trim originalCode <> [] ->
  fetch (lit "/api/correct") (api_request originalCode language description)
  = Returned response ->
  correctCode browser fetch originalCode language description
  = [ SetLoading true; loading_toast;
      api_call originalCode language description ]
    ++ (match after_fetch browser response with
        | (Returned _, t) => t
        | (Thrown error, t) =>
            t ++ [ failure_log error; failure_toast (errorMessage_of error) ]
        end)
    ++ [ SetLoading false; ToastDismiss ].
Proof.
  intros Hcode Hfetch. unfold correctCode.
  destruct (trim originalCode) as [|c0 rest]; [contradiction|].
  cbn [ToBoolean negb]. rewrite correctCode_try_fetch, Hfetch.
  destruct (after_fetch browser response) as [[[]|error] t]; reflexivity.
Qed.

(** What follows an answer whose status is not in the range 200-299 and
    whose body is an object with a string, or nothing, for [error]. *)
Lemma after_fetch_error (response : FetchResponse)
    (o : list (jsstring * value)) (error : option jsstring) :
  response_ok response = false ->
  JSON_parse (response_text response) = Some (JObject o) ->
  obj_get (lit "error") o
  = match error with Some m => JString m | None => JUndefined end ->
  after_fetch browser response
  = (Thrown
       (Error (lit "Error")
          (match error with
           | Some (x :: m) => x :: m
           | _ =>
               lit "HTTP "
               ++ numberToString (engine browser)
                    (mkNumber false (response_status response) 0)
               ++ lit ": Failed to correct code"
           end)),
     []).
Proof.
  intros Hok Hjson Herror.
  unfold after_fetch, response_json, read, to_string.
  rewrite (JSON_parse_without_BOM _ _ Hjson), Hjson, Hok. cbv iota.
  rewrite page_bind_ret. cbn [negb Get].
  rewrite page_bind_ret, Herror.
  destruct error as [[|x m]|]; reflexivity.
Qed.

(** X16. When the server answers with a status outside 200-299 and a body
    that is an object, the page does not set the result: it logs an error
    and shows the failure toast, whose description is the [error] of the
    body when that is a non-empty string, and
    [HTTP <status>: Failed to correct code] when the body has no [error]
    or an empty one. *)
Theorem error_of_the_server_is_shown
    (originalCode language description : jsstring)
    (response : FetchResponse) (o : list (jsstring * value))
    (error : option jsstring) :
  trim originalCode <> [] ->
  fetch (lit "/api/correct") (api_request originalCode language description)
  = Returned response ->
  response_ok response = false ->
  JSON_parse (response_text response) = Some (JObject o) ->
  obj_get (lit "error") o
  = match error with Some m => JString m | None => JUndefined end ->
  let errorMessage :=
    match error with
    | Some (x :: m) => x :: m
    | _ =>
        lit "HTTP "
        ++ numberToString (engine browser)
             (mkNumber false (response_status response) 0)
        ++ lit ": Failed to correct code"
    end in
  correctCode browser fetch originalCode language description
  = [ SetLoading true; loading_toast;
      api_call originalCode language description;
      failure_log (Error (lit "Error") errorMessage);
      failure_toast errorMessage;
      SetLoading false; ToastDismiss ].
Proof.
  intros Hcode Hfetch Hok Hjson Herror errorMessage.
  rewrite (correctCode_answered _ _ _ response Hcode Hfetch).
  rewrite (after_fetch_error response o error Hok Hjson Herror).
  reflexivity.
Qed.

(** X17. When the server answers with a status in 200-299 and a body that
    is JSON, not [null], and has no truthy [correctedCode], the page
    refuses it: the result is not set, and the failure toast says
    [Invalid response: Missing corrected code]. *)
Theorem result_without_code_is_refused
    (originalCode language description : jsstring)
    (response : FetchResponse) (data correctedCode : value) :
  trim originalCode <> [] ->
  fetch (lit "/api/correct") (api_request originalCode language description)
  = Returned response ->
  response_ok response = true ->
  JSON_parse (response_text response) = Some data ->
  Get data (lit "correctedCode") = Some correctedCode ->
  ToBoolean correctedCode = false ->
  correctCode browser fetch originalCode language description
  = [ SetLoading true; loading_toast;
      api_call originalCode language description;
      failure_log
        (Error (lit "Error") (lit "Invalid response: Missing corrected code"));
      failure_toast (lit "Invalid response: Missing corrected code");
      SetLoading false; ToastDismiss ].
Proof.
  intros Hcode Hfetch Hok Hjson Hget Hfalsy.
  rewrite (correctCode_answered _ _ _ response Hcode Hfetch).
  unfold after_fetch, response_json, read.
  rewrite (JSON_parse_without_BOM _ _ Hjson), Hjson, Hok. cbv iota.
  cbn [negb].
  rewrite !page_bind_ret, Hget. cbv iota.
  rewrite page_bind_ret, Hfalsy. reflexivity.
Qed.

(** What follows an answer with status 200 and a body with the three
    fields, [correctedCode] truthy and [issues] an array. *)
Lemma after_fetch_success (response : FetchResponse)
    (correctedCode explanation : value) (issues : list value) :
  response_status response = 200 ->
  JSON_parse (response_text response)
  = Some (CorrectionResponse correctedCode explanation (JArray issues)) ->
  ToBoolean correctedCode = true ->
  after_fetch browser response
  = (Returned tt,
     [ SetResult (CorrectionResponse correctedCode explanation
                    (JArray issues));
       success_toast
         (numberToString (engine browser)
            (number_of_nat (length issues))) ]).
Proof.
  intros Hst Hjson Hcc.
  unfold after_fetch, response_json, read, to_string, response_ok.
  rewrite (JSON_parse_without_BOM _ _ Hjson), Hjson, Hst. cbv iota.
  change (200 <=? 200) with true. change (200 <=? 299) with true.
  cbn [negb andb]. rewrite !page_bind_ret.
  change (Get (CorrectionResponse correctedCode explanation (JArray issues))
            (lit "correctedCode")) with (Some correctedCode).
  cbv iota. rewrite page_bind_ret, Hcc. cbn [negb].
  change (Get (CorrectionResponse correctedCode explanation (JArray issues))
            (lit "issues")) with (Some (JArray issues)).
  cbv iota. unfold page_bind at 1. cbn [page_emit]. rewrite page_bind_ret.
  cbn [optional_length].
  assert (Hcount : js_or (JNumber (number_of_nat (length issues)))
                     (JNumber (mkNumber false 0 0))
                   = JNumber (number_of_nat (length issues))).
  { destruct issues; reflexivity. }
  rewrite Hcount. reflexivity.
Qed.

End PageFacts.

Section PageAndHandler.

Variable rt : Runtime.

(** What precedes the provider, for the body sent by the page. *)
Lemma before_provider_page (env : ProcessEnv)
    (originalCode language description : jsstring) :
  ToBoolean (env_value (GROQ_API_KEY env)) = true ->
  trim originalCode <> [] ->
  exists prompt,
    before_provider rt env (request_body originalCode language description)
    = (Returned (inr (originalCode, prompt)), [])
    /\ includes
         (LF :: lit "```" ++ language ++ LF :: originalCode ++ LF :: lit "```"
          ++ [LF]) prompt = true.
Proof.
  intros Hkey Hcode.
  rewrite (before_provider_object rt env _ _ Hkey
             (JSON_parse_request_body originalCode language description)).
  assert (Hget : forall tail,
    obj_get (lit "code")
      ([ (lit "code", JString originalCode);
         (lit "language", JString language) ] ++ tail)
    = JString originalCode
    /\ obj_get (lit "language")
         ([ (lit "code", JString originalCode);
            (lit "language", JString language) ] ++ tail)
       = JString language) by (intros tail; split; reflexivity).
  rewrite (proj1 (Hget _)), (proj2 (Hget _)).
  assert (Hvalid : validate_code rt (JString originalCode)
                   = ret (Some originalCode)).
  { unfold validate_code.
    destruct originalCode as [|c0 s]; [exfalso; apply Hcode; reflexivity|].
    cbn [ToBoolean negb].
    destruct (trim (c0 :: s)); [contradiction|reflexivity]. }
  rewrite Hvalid, bind_ret. cbv iota.
  destruct (build_prompt_strings rt originalCode language
              (match trim description with [] => None | d => Some d end))
    as (prompt & Hprompt & _ & Hfence & _).
  exists prompt. split; [|exact Hfence].
  assert (Hdescription :
    obj_get (lit "description")
      ([ (lit "code", JString originalCode);
         (lit "language", JString language) ]
       ++ match trim description with
          | [] => []
          | d => [ (lit "description", JString d) ]
          end)
    = match match trim description with [] => None | d => Some d end with
      | Some d => JString d
      | None => JUndefined
      end) by (destruct (trim description); reflexivity).
  rewrite Hdescription.
  match goal with
  | |- bind ?m _ = _ =>
      replace m with (@ret jsstring prompt) by (symmetry; exact Hprompt)
  end.
  rewrite bind_ret. reflexivity.
Qed.

(** X15. The page and the handler agree on what a code is: with the
    credential configured, the body that the page sends for a code that is
    not blank is never answered with status 400; the handler calls the
    provider, first of all, with a prompt that holds the code of the page
    between its fences, as it was typed. *)
Theorem page_request_reaches_the_provider
    (env : ProcessEnv) (provider : Provider)
    (originalCode language description : jsstring) :
  ToBoolean (env_value (GROQ_API_KEY env)) = true ->
  trim originalCode <> [] ->
  exists prompt resp t,
    POST rt env (request_body originalCode language description) provider
    = (Returned resp, ProviderCall (chat_request prompt) :: t)
    /\ includes
         (LF :: lit "```" ++ language ++ LF :: originalCode ++ LF :: lit "```"
          ++ [LF]) prompt = true
    /\ status resp <> 400.
Proof.
  intros Hkey Hcode.
  destruct (before_provider_page env originalCode language description
              Hkey Hcode) as (prompt & Hbefore & Hfence).
  assert (Hclass : forall e, status (classify e) <> 400).
  { intros e. destruct (classify_status e) as [E|[E|[E|E]]]; rewrite E;
      discriminate. }
  exists prompt.
  destruct (provider (chat_request prompt)) as [completion|e] eqn:Hp.
  - rewrite (POST_provider_returns rt _ _ _ _ _ _ Hbefore Hp). cbv zeta.
    destruct (normalize rt originalCode (responseText_of completion))
      as [[r|e] tn] eqn:Hn.
    + eexists. eexists. split; [reflexivity|]. split; [exact Hfence|].
      assert (Hne : originalCode <> [])
        by (intros ->; apply Hcode; reflexivity).
      destruct (normalize_fields rt _ _ _ _ Hne Hn) as [Hst _].
      rewrite Hst. discriminate.
    + eexists. eexists. split; [reflexivity|]. split; [exact Hfence|].
      apply Hclass.
  - rewrite (POST_provider_throws rt _ _ _ _ _ _ Hbefore Hp).
    eexists. eexists. split; [reflexivity|]. split; [exact Hfence|].
    apply Hclass.
Qed.

(** X18. The page shows what the handler answers. When the server runs the
    handler on the request of the page and the text received reads back as
    the body that the handler answered, then: for a success, the page sets
    the result to that body and its toast counts the elements of
    [issues] (the check for a missing [correctedCode] never fires); for an
    error, the page does not set the result and its failure toast shows
    the [error] of the body, word for word. *)
Theorem page_shows_what_the_handler_answers
    (env : ProcessEnv) (provider : Provider)
    (browser : Browser) (fetch : Server)
    (originalCode language description : jsstring)
    (resp : Response) (t : list event) (text : jsstring) :
  trim originalCode <> [] ->
  POST rt env (request_body originalCode language description) provider
  = (Returned resp, t) ->
  fetch (lit "/api/correct") (api_request originalCode language description)
  = Returned {| response_status := status resp; response_text := text |} ->
  JSON_parse text = Some (body resp) ->
  exists middle,
    correctCode browser fetch originalCode language description
    = [ SetLoading true; loading_toast;
        api_call originalCode language description ]
      ++ middle ++ [ SetLoading false; ToastDismiss ]
    /\ ((status resp = 200
         /\ exists correctedCode explanation issues,
              body resp
              = CorrectionResponse correctedCode explanation (JArray issues)
              /\ middle
                 = [ SetResult (body resp);
                     success_toast
                       (numberToString (engine browser)
                          (number_of_nat (length issues))) ])
        \/ (status resp <> 200
            /\ exists msg,
                 Get (body resp) (lit "error") = Some (JString msg)
                 /\ middle
                    = [ failure_log (Error (lit "Error") msg);
                        failure_toast msg ])).
Proof.
  intros Hcode Hpost Hfetch Hjson.
  rewrite (correctCode_answered browser fetch _ _ _ _ Hcode Hfetch).
  destruct (POST_answer rt env
              (request_body originalCode language description) provider)
    as (resp' & t' & Hpost' & Hshape).
  rewrite Hpost in Hpost'. inversion Hpost'; subst resp' t'; clear Hpost'.
  destruct Hshape as [[Hst (cc & ex & iss & Hbody & Hcc)]|[Hst Herr]].
  - rewrite (after_fetch_success browser
               {| response_status := status resp; response_text := text |}
               cc ex iss Hst
               ltac:(cbn [response_text]; rewrite Hjson, Hbody; reflexivity)
               Hcc).
    eexists. split; [reflexivity|]. left. split; [exact Hst|].
    exists cc, ex, iss. split; [exact Hbody|]. rewrite Hbody. reflexivity.
  - assert (Hok : response_ok
                    {| response_status := status resp;
                       response_text := text |} = false).
    { unfold response_ok. cbn [response_status].
      destruct Hst as [E|[E|[E|[E|E]]]]; rewrite E; reflexivity. }
    assert (Hnot : status resp <> 200).
    { destruct Hst as [E|[E|[E|[E|E]]]]; rewrite E; discriminate. }
    destruct Herr as (msg & Hmsg & Hbody).
    assert (Hobject : exists o,
      body resp = JObject o /\ obj_get (lit "error") o = JString msg).
    { destruct Hbody as [->|[details ->]]; eexists; split; reflexivity. }
    destruct Hobject as (o & Ho & Hget).
    rewrite (after_fetch_error browser
               {| response_status := status resp; response_text := text |}
               o (Some msg) Hok
               ltac:(cbn [response_text]; rewrite Hjson, Ho; reflexivity)
               Hget).
    destruct msg as [|x m]; [contradiction|].
    eexists. split; [reflexivity|]. right. split; [exact Hnot|].
    exists (x :: m). split; [|reflexivity].
    rewrite Ho. cbn [Get]. rewrite Hget. reflexivity.
Qed.

End PageAndHandler.

(* ===================================================================== *)
(** * Concrete runs of the further properties *)
(* ===================================================================== *)

(** ** X4 *)

Lemma empty_reply_run :
  before_provider sample_runtime configured_env (sample_request "x = 1")
  = (Returned (inr (lit "x = 1", sample_prompt)), [])
  /\ silent_provider (chat_request sample_prompt)
     = Returned {| choices := [] |}
  /\ no_content {| choices := [] |}
  /\ fst (POST sample_runtime configured_env (sample_request "x = 1")
            silent_provider)
     = Returned
         {| status := 200;
            body := CorrectionResponse
                      (JString (lit "// Groq response (parsing failed):"
                                ++ LF :: lit "// "
                                ++ LF :: LF :: lit "// Original code:"
                                ++ LF :: lit "x = 1"))
                      (JString explanation_fallback)
                      (JArray issues_fallback) |}.
Proof.
  assert (Hbefore :
    before_provider sample_runtime configured_env (sample_request "x = 1")
    = (Returned (inr (lit "x = 1", sample_prompt)), []))
    by (vm_compute; reflexivity).
  split; [exact Hbefore|]. split; [reflexivity|]. split; [exact I|].
  exact (empty_reply_gives_the_fallback sample_runtime configured_env
           (sample_request "x = 1") silent_provider (lit "x = 1")
           sample_prompt {| choices := [] |} Hbefore eq_refl I).
Defined.

(** ** X5 *)

Lemma array_reply_run :
  JSON_parse (extract_json (lit "[1, 2]"))
  = Some (JArray [ JNumber (mkNumber false 1 0);
                   JNumber (mkNumber false 2 0) ])
  /\ JArray [ JNumber (mkNumber false 1 0); JNumber (mkNumber false 2 0) ]
     <> JNull
  /\ (forall o,
        JArray [ JNumber (mkNumber false 1 0); JNumber (mkNumber false 2 0) ]
        <> JObject o)
  /\ normalize sample_runtime (lit "x = 1") (lit "[1, 2]")
     = (Returned
          {| status := 200;
             body := CorrectionResponse (JString (lit "x = 1"))
                       (JString explanation_missing)
                       (JArray issues_missing) |},
        [ missing_code_log
            (JArray [ JNumber (mkNumber false 1 0);
                      JNumber (mkNumber false 2 0) ]) ]).
Proof.
  assert (Hparse : JSON_parse (extract_json (lit "[1, 2]"))
    = Some (JArray [ JNumber (mkNumber false 1 0);
                     JNumber (mkNumber false 2 0) ]))
    by (vm_compute; reflexivity).
  assert (Hnull :
    JArray [ JNumber (mkNumber false 1 0); JNumber (mkNumber false 2 0) ]
    <> JNull) by discriminate.
  assert (Hobject : forall o,
    JArray [ JNumber (mkNumber false 1 0); JNumber (mkNumber false 2 0) ]
    <> JObject o) by discriminate.
  split; [exact Hparse|]. split; [exact Hnull|]. split; [exact Hobject|].
  exact (reply_that_is_no_object_echoes_the_input sample_runtime
           (lit "x = 1") (lit "[1, 2]") _ Hparse Hnull Hobject).
Defined.

(** ** X6 *)

Lemma null_reply_run :
  before_provider sample_runtime configured_env (sample_request "x = 1")
  = (Returned (inr (lit "x = 1", sample_prompt)), [])
  /\ JSON_parse (extract_json (lit "null")) = Some JNull
  /\ POST sample_runtime configured_env (sample_request "x = 1")
       (replying (lit "null"))
     = (Returned
          (generic_error
             (lit "Cannot read properties of null (reading 'correctedCode')")),
        [ ProviderCall (chat_request sample_prompt);
          raw_response_log (lit "null");
          api_error_log (type_error_of sample_runtime ReadOfNull) ])
  /\ status (classify (type_error_of sample_runtime ReadOfNull)) <> 200.
Proof.
  assert (Hbefore :
    before_provider sample_runtime configured_env (sample_request "x = 1")
    = (Returned (inr (lit "x = 1", sample_prompt)), []))
    by (vm_compute; reflexivity).
  assert (Hparse : JSON_parse (extract_json (lit "null")) = Some JNull)
    by (vm_compute; reflexivity).
  split; [exact Hbefore|]. split; [exact Hparse|].
  exact (null_reply_goes_to_catch sample_runtime configured_env
           (sample_request "x = 1") (replying (lit "null")) (lit "x = 1")
           sample_prompt _ Hbefore eq_refl Hparse).
Defined.

(** ** X7 *)

Lemma missing_code_run :
  ToBoolean (env_value (GROQ_API_KEY configured_env)) = true
  /\ JSON_parse no_code_request
     = Some (JObject [(lit "language", JString (lit "python"))])
  /\ Get (JObject [(lit "language", JString (lit "python"))]) (lit "code")
     = Some JUndefined
  /\ ToBoolean JUndefined = false
  /\ POST sample_runtime configured_env no_code_request
       (replying scenario_reply)
     = (Returned (error_response 400 "Code is required"), [])
  /\ provider_not_invoked
       (POST sample_runtime configured_env no_code_request
          (replying scenario_reply)).
Proof.
  assert (Hparse : JSON_parse no_code_request
    = Some (JObject [(lit "language", JString (lit "python"))]))
    by (vm_compute; reflexivity).
  split; [reflexivity|]. split; [exact Hparse|].
  split; [reflexivity|]. split; [reflexivity|].
  exact (missing_code_is_invalid_input sample_runtime configured_env
           no_code_request (replying scenario_reply) _ JUndefined
           eq_refl Hparse eq_refl eq_refl).
Defined.

(** ** X8 *)

Lemma numeric_code_run :
  ToBoolean (env_value (GROQ_API_KEY configured_env)) = true
  /\ JSON_parse numeric_code_request
     = Some (JObject [(lit "code", JNumber (mkNumber false 42 0))])
  /\ Get (JObject [(lit "code", JNumber (mkNumber false 42 0))]) (lit "code")
     = Some (JNumber (mkNumber false 42 0))
  /\ ToBoolean (JNumber (mkNumber false 42 0)) = true
  /\ (forall s, JNumber (mkNumber false 42 0) <> JString s)
  /\ POST sample_runtime configured_env numeric_code_request
       (replying scenario_reply)
     = (Returned (generic_error (lit "code.trim is not a function")),
        [api_error_log (type_error_of sample_runtime TrimNotCallable)])
  /\ status (classify (type_error_of sample_runtime TrimNotCallable)) <> 400
  /\ status (classify (type_error_of sample_runtime TrimNotCallable)) <> 200
  /\ provider_not_invoked
       (POST sample_runtime configured_env numeric_code_request
          (replying scenario_reply)).
Proof.
  assert (Hparse : JSON_parse numeric_code_request
    = Some (JObject [(lit "code", JNumber (mkNumber false 42 0))]))
    by (vm_compute; reflexivity).
  assert (Hstring : forall s, JNumber (mkNumber false 42 0) <> JString s)
    by discriminate.
  split; [reflexivity|]. split; [exact Hparse|].
  split; [reflexivity|]. split; [reflexivity|]. split; [exact Hstring|].
  exact (code_that_is_no_string_goes_to_catch sample_runtime configured_env
           numeric_code_request (replying scenario_reply) _ _
           eq_refl Hparse eq_refl eq_refl Hstring).
Defined.

(** ** X9 *)

Lemma null_body_run :
  ToBoolean (env_value (GROQ_API_KEY configured_env)) = true
  /\ JSON_parse (lit "null") = Some JNull
  /\ POST sample_runtime configured_env (lit "null") (replying scenario_reply)
     = (Returned
          (generic_error
             (lit "Cannot destructure property 'code' of '(intermediate value)' as it is null.")),
        [api_error_log (type_error_of sample_runtime DestructureNull)])
  /\ status (classify (type_error_of sample_runtime DestructureNull)) <> 400
  /\ status (classify (type_error_of sample_runtime DestructureNull)) <> 200
  /\ provider_not_invoked
       (POST sample_runtime configured_env (lit "null")
          (replying scenario_reply)).
Proof.
  assert (Hparse : JSON_parse (lit "null") = Some JNull)
    by (vm_compute; reflexivity).
  split; [reflexivity|]. split; [exact Hparse|].
  exact (null_body_goes_to_catch sample_runtime configured_env (lit "null")
           (replying scenario_reply) eq_refl Hparse).
Defined.

(** ** X10 *)

Lemma commentary_run :
  ~ In (code "{") (lit "Here is the fix:" ++ [LF])
  /\ ~ In (code "}") (LF :: lit "Let me know if you need anything else.")
  /\ extract_json chatty_reply = xyz_object.
Proof.
  assert (Hpre : ~ In (code "{") (lit "Here is the fix:" ++ [LF]))
    by (apply absent; vm_compute; reflexivity).
  assert (Hpost :
    ~ In (code "}") (LF :: lit "Let me know if you need anything else."))
    by (apply absent; vm_compute; reflexivity).
  split; [exact Hpre|]. split; [exact Hpost|].
  exact (commentary_around_the_object_is_dropped
           (lit "Here is the fix:" ++ [LF])
           (quoted "correctedCode" ++ lit ":" ++ quoted "x" ++ lit ","
            ++ quoted "explanation" ++ lit ":" ++ quoted "y" ++ lit ","
            ++ quoted "issues" ++ lit ":[" ++ quoted "z" ++ lit "]")
           (LF :: lit "Let me know if you need anything else.")
           Hpre Hpost).
Defined.

(** ** X11 *)

Lemma commentary_result_run :
  JSON_parse xyz_object
  = Some (JObject [ (lit "correctedCode", JString (lit "x"));
                    (lit "explanation", JString (lit "y"));
                    (lit "issues", JArray [JString (lit "z")]) ])
  /\ ~ In (code "{") (lit "Here is the fix:" ++ [LF])
  /\ ~ In (code "}") (LF :: lit "Let me know if you need anything else.")
  /\ normalize sample_runtime (lit "x = 1") chatty_reply
     = normalize sample_runtime (lit "x = 1") xyz_object.
Proof.
  assert (Hparse : JSON_parse xyz_object
    = Some (JObject [ (lit "correctedCode", JString (lit "x"));
                      (lit "explanation", JString (lit "y"));
                      (lit "issues", JArray [JString (lit "z")]) ]))
    by (vm_compute; reflexivity).
  assert (Hpre : ~ In (code "{") (lit "Here is the fix:" ++ [LF]))
    by (apply absent; vm_compute; reflexivity).
  assert (Hpost :
    ~ In (code "}") (LF :: lit "Let me know if you need anything else."))
    by (apply absent; vm_compute; reflexivity).
  split; [exact Hparse|]. split; [exact Hpre|]. split; [exact Hpost|].
  exact (commentary_does_not_change_the_result sample_runtime (lit "x = 1")
           (lit "Here is the fix:" ++ [LF]) xyz_object
           (LF :: lit "Let me know if you need anything else.")
           _ Hparse Hpre Hpost).
Defined.

(** ** X15 *)

Lemma page_request_run :
  ToBoolean (env_value (GROQ_API_KEY configured_env)) = true
  /\ trim (lit "x = 1") <> []
  /\ exists prompt resp t,
       POST sample_runtime configured_env
         (request_body (lit "x = 1") (lit "python") [])
         (replying scenario_reply)
       = (Returned resp, ProviderCall (chat_request prompt) :: t)
       /\ includes
            (LF :: lit "```" ++ lit "python" ++ LF :: lit "x = 1"
             ++ LF :: lit "```" ++ [LF]) prompt = true
       /\ status resp <> 400.
Proof.
  assert (Hcode : trim (lit "x = 1") <> []) by (vm_compute; discriminate).
  split; [reflexivity|]. split; [exact Hcode|].
  exact (page_request_reaches_the_provider sample_runtime configured_env
           (replying scenario_reply) (lit "x = 1") (lit "python") []
           eq_refl Hcode).
Defined.

(** ** X16 *)

Lemma server_error_run :
  trim (lit "x = 1") <> []
  /\ response_ok
       {| response_status := 429;
          response_text :=
            error_text "Groq API rate limit exceeded. Please try again in a moment." |}
     = false
  /\ JSON_parse
       (error_text "Groq API rate limit exceeded. Please try again in a moment.")
     = Some (JObject
               [ (lit "error",
                  JString (lit "Groq API rate limit exceeded. Please try again in a moment.")) ])
  /\ correctCode sample_browser
       (answering 429
          (error_text "Groq API rate limit exceeded. Please try again in a moment."))
       (lit "x = 1") (lit "python") []
     = [ SetLoading true; loading_toast;
         api_call (lit "x = 1") (lit "python") [];
         failure_log
           (Error (lit "Error")
              (lit "Groq API rate limit exceeded. Please try again in a moment."));
         failure_toast
           (lit "Groq API rate limit exceeded. Please try again in a moment.");
         SetLoading false; ToastDismiss ].
Proof.
  assert (Hcode : trim (lit "x = 1") <> []) by (vm_compute; discriminate).
  assert (Hparse : JSON_parse
    (error_text "Groq API rate limit exceeded. Please try again in a moment.")
    = Some (JObject
              [ (lit "error",
                 JString (lit "Groq API rate limit exceeded. Please try again in a moment.")) ]))
    by (vm_compute; reflexivity).
  split; [exact Hcode|]. split; [reflexivity|]. split; [exact Hparse|].
  exact (error_of_the_server_is_shown sample_browser
           (answering 429
              (error_text "Groq API rate limit exceeded. Please try again in a moment."))
           (lit "x = 1") (lit "python") []
           {| response_status := 429;
              response_text :=
                error_text "Groq API rate limit exceeded. Please try again in a moment." |}
           _
           (Some (lit "Groq API rate limit exceeded. Please try again in a moment."))
           Hcode eq_refl eq_refl Hparse eq_refl).
Defined.

(** ** X17 *)

Lemma result_without_code_run :
  trim (lit "x = 1") <> []
  /\ response_ok {| response_status := 200; response_text := lit "{}" |}
     = true
  /\ JSON_parse (lit "{}") = Some (JObject [])
  /\ Get (JObject []) (lit "correctedCode") = Some JUndefined
  /\ correctCode sample_browser (answering 200 (lit "{}"))
       (lit "x = 1") (lit "python") []
     = [ SetLoading true; loading_toast;
         api_call (lit "x = 1") (lit "python") [];
         failure_log
           (Error (lit "Error")
              (lit "Invalid response: Missing corrected code"));
         failure_toast (lit "Invalid response: Missing corrected code");
         SetLoading false; ToastDismiss ].
Proof.
  assert (Hcode : trim (lit "x = 1") <> []) by (vm_compute; discriminate).
  assert (Hparse : JSON_parse (lit "{}") = Some (JObject []))
    by (vm_compute; reflexivity).
  split; [exact Hcode|]. split; [reflexivity|]. split; [exact Hparse|].
  split; [reflexivity|].
  exact (result_without_code_is_refused sample_browser
           (answering 200 (lit "{}")) (lit "x = 1") (lit "python") []
           {| response_status := 200; response_text := lit "{}" |}
           _ JUndefined Hcode eq_refl eq_refl Hparse eq_refl eq_refl).
Defined.

(** ** X18 *)

Lemma page_and_handler_run :
  trim (lit "x = 1") <> []
  /\ fst (POST sample_runtime configured_env
            (request_body (lit "x = 1") (lit "python") [])
            (replying scenario_reply))
     = Returned {| status := 200; body := result_value scenario_result |}
  /\ JSON_parse (stringify_result scenario_result)
     = Some (result_value scenario_result)
  /\ exists middle,
       correctCode sample_browser
         (answering 200 (stringify_result scenario_result))
         (lit "x = 1") (lit "python") []
       = [ SetLoading true; loading_toast;
           api_call (lit "x = 1") (lit "python") [] ]
         ++ middle ++ [ SetLoading false; ToastDismiss ]
       /\ ((200 = 200
            /\ exists correctedCode explanation issues,
                 result_value scenario_result
                 = CorrectionResponse correctedCode explanation
                     (JArray issues)
                 /\ middle
                    = [ SetResult (result_value scenario_result);
                        success_toast
                          (numberToString sample_runtime
                             (number_of_nat (length issues))) ])
           \/ (200 <> 200
               /\ exists msg,
                    Get (result_value scenario_result) (lit "error")
                    = Some (JString msg)
                    /\ middle
                       = [ failure_log (Error (lit "Error") msg);
                           failure_toast msg ])).
Proof.
  assert (Hcode : trim (lit "x = 1") <> []) by (vm_compute; discriminate).
  assert (Hpost :
    POST sample_runtime configured_env
      (request_body (lit "x = 1") (lit "python") [])
      (replying scenario_reply)
    = (Returned {| status := 200; body := result_value scenario_result |},
       snd (POST sample_runtime configured_env
              (request_body (lit "x = 1") (lit "python") [])
              (replying scenario_reply))))
    by (vm_compute; reflexivity).
  assert (Hparse : JSON_parse (stringify_result scenario_result)
                   = Some (result_value scenario_result))
    by (vm_compute; reflexivity).
  split; [exact Hcode|]. split; [rewrite Hpost; reflexivity|].
  split; [exact Hparse|].
  exact (page_shows_what_the_handler_answers sample_runtime configured_env
           (replying scenario_reply) sample_browser
           (answering 200 (stringify_result scenario_result))
           (lit "x = 1") (lit "python") []
           {| status := 200; body := result_value scenario_result |}
           _ (stringify_result scenario_result)
           Hcode Hpost eq_refl Hparse).
Defined.
